(** * The logging dispatcher of NeoMutt (mutt/logging.c)

    A shallow embedding of the three log dispatchers (file, stderr, queue),
    of the log-file life cycle and of the log queue, followed by the
    properties of the design document that were checked against them.

    Conventions of the embedding.
    - A C [int] or [time_t] is a [Z].  The only counter that grows without a
      bound of its own, [LogQueueCount], is incremented with an explicit
      overflow check; character counts stay far below [INT_MAX].
    - A [char *] is an [option string]: [None] is the NULL pointer.
    - A [FILE *] is an [option nat]: [None] is NULL, [Some i] points to
      slot [i] of the stream table of the environment.
    - Behaviour that C leaves undefined (a [printf] conversion without a
      matching argument, an index past the end of [LevelAbbr], a write past
      the end of a buffer, signed overflow) is the result [None].
    - The globals of logging.c are the fields of [Env] (log file) and of
      [Queue] (log queue); a function of the file takes the state it works
      on and returns the new one. *)

From Stdlib Require Import ZArith String Ascii List Lia DecimalString.
From stdpp Require Import base option list strings.

Local Open Scope Z_scope.

(** ** The C library, as far as logging.c uses it *)

Module Libc.

Definition INT_MAX : Z := 2147483647.

(** strlen(3), as a C integer. *)
Definition strlen (s : string) : Z := Z.of_nat (String.length s).

(** The first [n] characters of [s]: what a bounded copy keeps. *)
Fixpoint string_take (n : nat) (s : string) : string :=
  match n, s with
  | S n', String c s' => String c (string_take n' s')
  | _, _ => ""
  end.


(** [n] copies of the character [c]. *)
Fixpoint string_repeat (c : ascii) (n : nat) : string :=
  match n with
  | O => ""
  | S n' => String c (string_repeat c n')
  end.

(** Decimal text of an integer, as the conversion [%d] prints it. *)
Definition dec (n : Z) : string := NilZero.string_of_int (Z.to_int n).

(** Two-digit, zero-padded decimal: the fields of strftime(3). *)
Definition dec2 (n : Z) : string :=
  if (0 <=? n) && (n <? 10) then "0" +:+ dec n else dec n.

(** One variadic argument of a printf-like call. *)
Inductive arg : Type :=
  | ArgS (s : option string)   (* char *, for %s *)
  | ArgD (n : Z)               (* int, for %d *)
  | ArgC (c : ascii).          (* int holding a character, for %c *)

(** The text [%s] prints: glibc, musl and the BSD libraries print
    [(null)] for a NULL pointer. *)
Definition string_arg (s : option string) : string :=
  match s with
  | Some s => s
  | None => "(null)"
  end.

(** Expansion of a printf(3) format over its arguments, for the conversions
    logging.c uses ([%s], [%d], [%c], [%%]).  A conversion whose argument is
    missing or of another type, or a conversion outside these four, is
    undefined behaviour.  Arguments left over are ignored, as in C. *)
Fixpoint vformat (fmt : string) (ap : list arg) : option string :=
  match fmt with
  | "" => Some ""
  | String "%" "" => None
  | String "%" (String "%" rest) => String "%" <$> vformat rest ap
  | String "%" (String "s" rest) =>
      match ap with
      | ArgS s :: ap' => (fun r => string_arg s +:+ r) <$> vformat rest ap'
      | _ => None
      end
  | String "%" (String "d" rest) =>
      match ap with
      | ArgD n :: ap' => (fun r => dec n +:+ r) <$> vformat rest ap'
      | _ => None
      end
  | String "%" (String "c" rest) =>
      match ap with
      | ArgC c :: ap' => String c <$> vformat rest ap'
      | _ => None
      end
  | String "%" (String _ _) => None
  | String c rest => String c <$> vformat rest ap
  end.

(** vsnprintf(3): the text kept in a buffer of [size] bytes (at most
    [size - 1] characters and the terminator) and the length the whole
    expansion has, which is what the call returns. *)
Definition vsnprintf (size : Z) (fmt : string) (ap : list arg)
  : option (string * Z) :=
  s ← vformat fmt ap;
  Some (string_take (Z.to_nat (size - 1)) s, strlen s).

(** Some error numbers of Linux. *)
Definition ENOENT : Z := 2.
Definition EIO : Z := 5.
Definition EBADF : Z := 9.
Definition EACCES : Z := 13.
Definition ENOTTY : Z := 25.
Definition ENOSPC : Z := 28.

(** The texts of strerror(3) in glibc on Linux (the C locale), by error
    number from 0 to 133; the two numbers without a text are left empty. *)
Definition sys_errlist : list string :=
  ["Success"; "Operation not permitted"; "No such file or directory";
   "No such process"; "Interrupted system call"; "Input/output error";
   "No such device or address"; "Argument list too long";
   "Exec format error"; "Bad file descriptor"; "No child processes";
   "Resource temporarily unavailable"; "Cannot allocate memory";
   "Permission denied"; "Bad address"; "Block device required";
   "Device or resource busy"; "File exists"; "Invalid cross-device link";
   "No such device"; "Not a directory"; "Is a directory"; "Invalid argument";
   "Too many open files in system"; "Too many open files";
   "Inappropriate ioctl for device"; "Text file busy"; "File too large";
   "No space left on device"; "Illegal seek"; "Read-only file system";
   "Too many links"; "Broken pipe"; "Numerical argument out of domain";
   "Numerical result out of range"; "Resource deadlock avoided";
   "File name too long"; "No locks available"; "Function not implemented";
   "Directory not empty"; "Too many levels of symbolic links"; "";
   "No message of desired type"; "Identifier removed";
   "Channel number out of range"; "Level 2 not synchronized";
   "Level 3 halted"; "Level 3 reset"; "Link number out of range";
   "Protocol driver not attached"; "No CSI structure available";
   "Level 2 halted"; "Invalid exchange"; "Invalid request descriptor";
   "Exchange full"; "No anode"; "Invalid request code"; "Invalid slot"; "";
   "Bad font file format"; "Device not a stream"; "No data available";
   "Timer expired"; "Out of streams resources";
   "Machine is not on the network"; "Package not installed";
   "Object is remote"; "Link has been severed"; "Advertise error";
   "Srmount error"; "Communication error on send"; "Protocol error";
   "Multihop attempted"; "RFS specific error"; "Bad message";
   "Value too large for defined data type"; "Name not unique on network";
   "File descriptor in bad state"; "Remote address changed";
   "Can not access a needed shared library";
   "Accessing a corrupted shared library"; ".lib section in a.out corrupted";
   "Attempting to link in too many shared libraries";
   "Cannot exec a shared library directly";
   "Invalid or incomplete multibyte or wide character";
   "Interrupted system call should be restarted"; "Streams pipe error";
   "Too many users"; "Socket operation on non-socket";
   "Destination address required"; "Message too long";
   "Protocol wrong type for socket"; "Protocol not available";
   "Protocol not supported"; "Socket type not supported";
   "Operation not supported"; "Protocol family not supported";
   "Address family not supported by protocol"; "Address already in use";
   "Cannot assign requested address"; "Network is down";
   "Network is unreachable"; "Network dropped connection on reset";
   "Software caused connection abort"; "Connection reset by peer";
   "No buffer space available"; "Transport endpoint is already connected";
   "Transport endpoint is not connected";
   "Cannot send after transport endpoint shutdown";
   "Too many references: cannot splice"; "Connection timed out";
   "Connection refused"; "Host is down"; "No route to host";
   "Operation already in progress"; "Operation now in progress";
   "Stale file handle"; "Structure needs cleaning";
   "Not a XENIX named type file"; "No XENIX semaphores available";
   "Is a named type file"; "Remote I/O error"; "Disk quota exceeded";
   "No medium found"; "Wrong medium type"; "Operation canceled";
   "Required key not available"; "Key has expired"; "Key has been revoked";
   "Key was rejected by service"; "Owner died"; "State not recoverable";
   "Operation not possible due to RF-kill"; "Memory page has hardware error"].

(** strerror(3): the text of the table, or "Unknown error N" for a number
    without one. *)
Definition strerror (err : Z) : string :=
  match (if err <? 0 then None else nth_error sys_errlist (Z.to_nat err)) with
  | Some (String c s) => String c s
  | _ => "Unknown error " +:+ dec err
  end.

(** Broken-down time, with the conventions of struct tm: years since 1900,
    months from 0. *)
Record tm : Type := mk_tm {
  tm_sec : Z;
  tm_min : Z;
  tm_hour : Z;
  tm_mday : Z;
  tm_mon : Z;
  tm_year : Z
}.

(** localtime(3) for a clock in the UTC zone: days since the epoch to a
    civil date in the proleptic Gregorian calendar.  The libc function
    reads the zone from the environment, and returns NULL for a time whose
    year does not fit an int (beyond some 2^55 seconds); logging.c does not
    check for that and hands the result to strftime.  The model leaves both
    aside: it is total, and its text is that of UTC. *)
Definition localtime (t : Z) : tm :=
  let days := t / 86400 in
  let secs := t mod 86400 in
  let z := days + 719468 in
  let era := z / 146097 in
  let doe := z mod 146097 in
  let yoe := (doe - doe / 1460 + doe / 36524 - doe / 146096) / 365 in
  let doy := doe - (365 * yoe + yoe / 4 - yoe / 100) in
  let mp := (5 * doy + 2) / 153 in
  let d := doy - (153 * mp + 2) / 5 + 1 in
  let m := if mp <? 10 then mp + 3 else mp - 9 in
  let y := yoe + era * 400 + (if m <=? 2 then 1 else 0) in
  {| tm_sec := secs mod 60; tm_min := (secs / 60) mod 60;
     tm_hour := secs / 3600; tm_mday := d; tm_mon := m - 1;
     tm_year := y - 1900 |}.

(** Expansion of a strftime(3) format, for the conversions logging.c uses. *)
Fixpoint strftime_text (fmt : string) (t : tm) : string :=
  match fmt with
  | "" => ""
  | String "%" (String "Y" rest) => dec (tm_year t + 1900) +:+ strftime_text rest t
  | String "%" (String "m" rest) => dec2 (tm_mon t + 1) +:+ strftime_text rest t
  | String "%" (String "d" rest) => dec2 (tm_mday t) +:+ strftime_text rest t
  | String "%" (String "H" rest) => dec2 (tm_hour t) +:+ strftime_text rest t
  | String "%" (String "M" rest) => dec2 (tm_min t) +:+ strftime_text rest t
  | String "%" (String "S" rest) => dec2 (tm_sec t) +:+ strftime_text rest t
  | String c rest => String c (strftime_text rest t)
  end.

(** strftime(3) into a buffer of [max] bytes.  When the text does not fit, C
    leaves the buffer unspecified; the model leaves it empty.  Both buffers
    of logging.c hold every date up to the year 9999999. *)
Definition strftime (max : Z) (fmt : string) (t : tm) : string :=
  let s := strftime_text fmt t in
  if strlen s <? max then s else "".

End Libc.
Export Libc.

(** ** Declarations of the headers logging.c includes *)

(** Modelled from the spec: the levels of logging.h, which is not among the
    sources, with the values the glossary of the design document gives
    (PERROR = -3, ERROR = -2, WARNING = -1, MESSAGE = 0, DEBUG1..5 = 1..5). *)
Definition LL_PERROR : Z := -3.
Definition LL_ERROR : Z := -2.
Definition LL_WARNING : Z := -1.
Definition LL_MESSAGE : Z := 0.
Definition LL_DEBUG1 : Z := 1.
Definition LL_DEBUG5 : Z := 5.

(** Modelled from the spec: the size of the bounded buffer the queue and
    stderr dispatchers format into; string2.h, which defines LONG_STRING,
    is not among the sources (it is 1024 there). *)
Definition LONG_STRING : Z := 1024.

(** Modelled from the spec: the NONULL macro of string2.h (not among the
    sources) reads a NULL string as the empty one. *)
Definition NONULL (s : option string) : string :=
  match s with
  | Some s => s
  | None => ""
  end.

(** Modelled from the spec: mutt_str_strcmp of mutt/string.c (not among the
    sources) compares two names, so that an unchanged name, "including the
    both-null case", gives 0.  As in the mutt library it is strcmp over
    NONULL strings, so NULL and the empty name compare equal; the design
    document does not speak of the empty name.  Only whether the result is
    0 matters to logging.c. *)
Definition mutt_str_strcmp (a b : option string) : Z :=
  match String.compare (NONULL a) (NONULL b) with
  | Eq => 0
  | Lt => -1
  | Gt => 1
  end.

(** Modelled from the spec: mutt_str_strdup of mutt/string.c (not among the
    sources) copies a string, NULL for NULL.  As in the mutt library the
    copy of the empty string is NULL as well; the design document does not
    speak of the empty string. *)
Definition mutt_str_strdup (s : option string) : option string :=
  match s with
  | Some "" => None
  | _ => s
  end.

(** Modelled from the spec: mutt_str_replace of mutt/string.c (not among the
    sources) frees the string a variable holds and stores a copy of the new
    one there; the result is the new value of the variable. *)
Definition mutt_str_replace (s : option string) : option string :=
  mutt_str_strdup s.

(** One line of the log queue: struct LogLine of logging.h. *)
Record LogLine : Type := mk_LogLine {
  ll_time : Z;
  ll_file : option string;
  ll_line : Z;
  ll_function : option string;
  ll_level : Z;
  ll_message : option string
}.

(** ** The state *)

(** A stdio stream: whether it is open, the error number its writes fail
    with (if they fail), and the characters written to it so far. *)
Record stream : Type := mk_stream {
  st_path : string;
  st_open : bool;
  st_fail : option Z;
  st_data : string
}.

(** The environment of the file and stderr dispatchers: the C library's
    state, the static variables of [timestamp], the messages shown to the
    user, and the four globals of the log file. *)
Record Env : Type := mk_Env {
  errno : Z;
  now : Z;                                (* what time(NULL) returns *)
  streams : list stream;                  (* FILE objects; slot 0 is stderr *)
  unopenable : list (string * Z);         (* paths fopen fails on, with errno *)
  stderr_tty : bool;                      (* isatty(fileno(stderr)) == 1 *)
  ts_buf : string;                        (* static char buf[23] *)
  ts_last : Z;                            (* static time_t last *)
  notices : list (string * list arg);     (* calls of mutt_message *)
  LogFileFP : option nat;
  LogFileName : option string;
  LogFileLevel : Z;
  LogFileVersion : option string
}.

Definition set_errno (v : Z) (e : Env) : Env :=
  mk_Env v (now e) (streams e) (unopenable e) (stderr_tty e) (ts_buf e)
         (ts_last e) (notices e) (LogFileFP e) (LogFileName e)
         (LogFileLevel e) (LogFileVersion e).

Definition set_streams (v : list stream) (e : Env) : Env :=
  mk_Env (errno e) (now e) v (unopenable e) (stderr_tty e) (ts_buf e)
         (ts_last e) (notices e) (LogFileFP e) (LogFileName e)
         (LogFileLevel e) (LogFileVersion e).

Definition set_ts (buf : string) (last : Z) (e : Env) : Env :=
  mk_Env (errno e) (now e) (streams e) (unopenable e) (stderr_tty e) buf
         last (notices e) (LogFileFP e) (LogFileName e)
         (LogFileLevel e) (LogFileVersion e).

Definition set_notices (v : list (string * list arg)) (e : Env) : Env :=
  mk_Env (errno e) (now e) (streams e) (unopenable e) (stderr_tty e) (ts_buf e)
         (ts_last e) v (LogFileFP e) (LogFileName e)
         (LogFileLevel e) (LogFileVersion e).

Definition set_LogFileFP (v : option nat) (e : Env) : Env :=
  mk_Env (errno e) (now e) (streams e) (unopenable e) (stderr_tty e) (ts_buf e)
         (ts_last e) (notices e) v (LogFileName e)
         (LogFileLevel e) (LogFileVersion e).

Definition set_LogFileName (v : option string) (e : Env) : Env :=
  mk_Env (errno e) (now e) (streams e) (unopenable e) (stderr_tty e) (ts_buf e)
         (ts_last e) (notices e) (LogFileFP e) v
         (LogFileLevel e) (LogFileVersion e).

Definition set_LogFileLevel (v : Z) (e : Env) : Env :=
  mk_Env (errno e) (now e) (streams e) (unopenable e) (stderr_tty e) (ts_buf e)
         (ts_last e) (notices e) (LogFileFP e) (LogFileName e)
         v (LogFileVersion e).

Definition set_LogFileVersion (v : option string) (e : Env) : Env :=
  mk_Env (errno e) (now e) (streams e) (unopenable e) (stderr_tty e) (ts_buf e)
         (ts_last e) (notices e) (LogFileFP e) (LogFileName e)
         (LogFileLevel e) v.

(** The log queue: the STAILQ of LogLines (head first) and its two
    counters. *)
Record Queue : Type := mk_Queue {
  LogQueue : list LogLine;
  LogQueueCount : Z;
  LogQueueMax : Z
}.

(** ** Computations: a state threaded through calls that may be undefined *)

Definition M (S A : Type) : Type := S -> option (A * S).

Definition ret {S A : Type} (a : A) : M S A := fun s => Some (a, s).

Definition bind {S A B : Type} (m : M S A) (k : A -> M S B) : M S B :=
  fun s =>
    match m s with
    | Some (a, s') => k a s'
    | None => None
    end.

Definition gets {S A : Type} (f : S -> A) : M S A := fun s => Some (f s, s).

Definition modify {S : Type} (f : S -> S) : M S unit := fun s => Some (tt, f s).

(** The value of an expression that is defined only sometimes. *)
Definition defined {S A : Type} (o : option A) : M S A :=
  fun s =>
    match o with
    | Some a => Some (a, s)
    | None => None
    end.

Notation "x <- m ;; k" := (bind m (fun x => k))
  (at level 100, m at next level, right associativity).
Notation "m ;;; k" := (bind m (fun _ => k))
  (at level 100, right associativity).

(** ** stdio over the environment *)

Definition nl : string := String "010" "".
Definition esc : string := String "027" "".

Definition stderr : nat := 0%nat.

(** Writing [s] to stream [fp]: the characters are appended and counted, or
    the write fails with -1 and sets [errno].  A successful call leaves
    [errno] alone. *)
Definition stream_write (fp : nat) (s : string) : M Env Z :=
  fun e =>
    match streams e !! fp with
    | Some st =>
        if st_open st then
          match st_fail st with
          | None =>
              let st' := mk_stream (st_path st) true None (st_data st +:+ s) in
              Some (strlen s, set_streams (<[fp := st']> (streams e)) e)
          | Some err => Some (-1, set_errno err e)
          end
        else Some (-1, set_errno EBADF e)
    | None => Some (-1, set_errno EBADF e)
    end.

Definition fprintf (fp : nat) (fmt : string) (ap : list arg) : M Env Z :=
  s <- defined (vformat fmt ap) ;;
  stream_write fp s.

Definition fputs (s : string) (fp : nat) : M Env Z := stream_write fp s.

Definition time : M Env Z := gets now.

(** [isatty(fileno(stderr))]: 1 on a terminal; otherwise 0, with [errno]
    set to ENOTTY. *)
Definition isatty_stderr : M Env Z :=
  tty <- gets stderr_tty ;;
  if tty then ret 1 else modify (set_errno ENOTTY) ;;; ret 0.

Fixpoint fopen_errno (path : string) (l : list (string * Z)) : option Z :=
  match l with
  | [] => None
  | (p, err) :: l' => if String.eqb p path then Some err else fopen_errno path l'
  end.

(** fopen(3): a new stream in a fresh slot, or NULL and [errno]. *)
Definition fopen (path mode : string) : M Env (option nat) :=
  fun e =>
    match fopen_errno path (unopenable e) with
    | Some err => Some (None, set_errno err e)
    | None =>
        Some (Some (length (streams e)),
              set_streams (streams e ++ [mk_stream path true None ""]) e)
    end.

(** fclose(3): the stream stays in the table, closed, with what it holds. *)
Definition fclose (fp : nat) : M Env unit :=
  modify (fun e =>
    match streams e !! fp with
    | Some st =>
        set_streams
          (<[fp := mk_stream (st_path st) false (st_fail st) (st_data st)]>
             (streams e)) e
    | None => e
    end).

(** Modelled from the spec: mutt_file_fopen of mutt/file.c (not among the
    sources) opens the log file in append mode; for this mode it is fopen. *)
Definition mutt_file_fopen (path mode : string) : M Env (option nat) :=
  fopen path mode.

(** Modelled from the spec: mutt_file_fclose of mutt/file.c (not among the
    sources) releases the handle it is given the address of and sets it to
    NULL; logging.c passes it the address of [LogFileFP] only. *)
Definition mutt_file_fclose_LogFileFP : M Env unit :=
  fp <- gets LogFileFP ;;
  match fp with
  | Some f => fclose f
  | None => ret tt
  end ;;;
  modify (set_LogFileFP None).

(** Modelled from the spec: mutt_message of message.h (not among the
    sources) is the "user message" notifier, an external collaborator; the
    model records its calls. *)
Definition mutt_message (fmt : string) (ap : list arg) : M Env unit :=
  modify (fun e => set_notices (notices e ++ [(fmt, ap)]) e).

(** ** mutt/logging.c *)

Definition LevelAbbr : string := "PEWM12345".

(** [s[i]] for the string literal [s]: its characters, then the terminating
    NUL; any other index is out of bounds. *)
Definition char_at (s : string) (i : Z) : option ascii :=
  if i <? 0 then None
  else if i =? strlen s then Some "000"%char
  else String.get (Z.to_nat i) s.

(** The time is taken to be one that localtime can convert (see
    [localtime]); its text then fits the 23 bytes of the static buffer. *)
Definition timestamp (stamp : Z) : M Env string :=
  stamp <- (if stamp =? 0 then time else ret stamp) ;;
  last <- gets ts_last ;;
  (if negb (stamp =? last)
   then modify (set_ts (strftime 23 "%Y-%m-%d %H:%M:%S" (localtime stamp)) stamp)
   else ret tt) ;;;
  gets ts_buf.

Definition log_file_close (verbose : bool) : M Env unit :=
  fp <- gets LogFileFP ;;
  match fp with
  | None => ret tt
  | Some f =>
      ts <- timestamp 0 ;;
      fprintf f ("[%s] Closing log." +:+ nl) [ArgS (Some ts)] ;;;
      mutt_file_fclose_LogFileFP ;;;
      if verbose
      then (name <- gets LogFileName ;;
            mutt_message "Closed log file: %s" [ArgS name])
      else ret tt
  end.

Definition log_file_open (verbose : bool) : M Env Z :=
  name <- gets LogFileName ;;
  match name with
  | None => ret (-1)
  | Some path =>
      fp <- gets LogFileFP ;;
      match fp with
      | Some _ => log_file_close false
      | None => ret tt
      end ;;;
      fp <- mutt_file_fopen path "a+" ;;
      modify (set_LogFileFP fp) ;;;
      match fp with
      | None => ret (-1)
      | Some f =>
          ts <- timestamp 0 ;;
          version <- gets LogFileVersion ;;
          level <- gets LogFileLevel ;;
          fprintf f ("[%s] NeoMutt%s debugging at level %d" +:+ nl)
                  [ArgS (Some ts); ArgS (Some (NONULL version)); ArgD level] ;;;
          (if verbose
           then mutt_message "Debugging at level %d to file '%s'"
                             [ArgD level; ArgS name]
           else ret tt) ;;;
          ret 0
      end
  end.

Definition log_file_set_filename (file : option string) : M Env Z :=
  name <- gets LogFileName ;;
  (* also handles both being NULL *)
  if mutt_str_strcmp name file =? 0 then ret 0
  else
    modify (set_LogFileName (mutt_str_replace file)) ;;;
    fp <- gets LogFileFP ;;
    match fp with
    | None => ret (-1)       (* not running yet... *)
    | Some _ => log_file_open true ;;; ret 0
    end.

Definition log_file_set_level (level : Z) : M Env Z :=
  if (level <? 0) || (level >? 5) then ret (-1)
  else
    cur <- gets LogFileLevel ;;
    if level =? cur then ret 0
    else
      modify (set_LogFileLevel level) ;;;
      (if level =? 0 then log_file_close true
       else
         fp <- gets LogFileFP ;;
         match fp with
         | Some _ =>
             cur <- gets LogFileLevel ;;
             mutt_message "Logging at level %d" [ArgD cur]
         | None => log_file_open true ;;; ret tt
         end) ;;;
      ret 0.

Definition log_file_set_version (version : option string) : M Env unit :=
  modify (set_LogFileVersion (mutt_str_replace version)).

(** The type of a log dispatcher (log_dispatcher_t of logging.h): time
    stamp, source file, source line, function, level, then the format and
    its arguments. *)
Definition log_dispatcher_t : Type :=
  Z -> option string -> Z -> option string -> Z -> string -> list arg -> M Env Z.

Definition log_disp_file (stamp : Z) (file : option string) (line : Z)
    (function : option string) (level : Z) (fmt : string) (ap : list arg)
  : M Env Z :=
  fp <- gets LogFileFP ;;
  threshold <- gets LogFileLevel ;;
  match fp with
  | None => ret 0
  | Some f =>
      if (level <? LL_PERROR) || (level >? threshold) then ret 0
      else
        let r := 0 in
        err <- gets errno ;;
        let function :=
          match function with
          | None => Some "UNKNOWN"
          | Some _ => function
          end in
        ts <- timestamp stamp ;;
        abbr <- defined (char_at LevelAbbr (level + 3)) ;;
        n <- fprintf f "[%s]<%c> %s() " [ArgS (Some ts); ArgC abbr; ArgS function] ;;
        let r := r + n in
        n <- fprintf f fmt ap ;;
        let r := n in                       (* ret = vfprintf(...) *)
        if level =? LL_PERROR then
          fprintf f (": %s" +:+ nl) [ArgS (Some (strerror err))] ;;;
          ret r
        else if level <=? 0 then
          fputs nl f ;;;
          ret (r + 1)
        else ret r
  end.

Definition log_disp_stderr (stamp : Z) (file : option string) (line : Z)
    (function : option string) (level : Z) (fmt : string) (ap : list arg)
  : M Env Z :=
  threshold <- gets LogFileLevel ;;
  if (level <? LL_PERROR) || (level >? threshold) then ret 0
  else
    p <- defined (vsnprintf LONG_STRING fmt ap) ;;
    let buf := fst p in
    let r := snd p in
    log_disp_file stamp file line function level "%s" [ArgS (Some buf)] ;;;
    err <- gets errno ;;
    t <- isatty_stderr ;;
    let tty := t =? 1 in
    let colour :=
      if tty then
        if (level =? LL_PERROR) || (level =? LL_ERROR) then 31
        else if level =? LL_WARNING then 33
        else 0
      else 0 in
    r <- (if colour >? 0
          then n <- fprintf stderr (esc +:+ "[1;%dm") [ArgD colour] ;; ret (r + n)
          else ret r) ;;
    fputs buf stderr ;;;
    r <- (if level =? LL_PERROR
          then n <- fprintf stderr ": %s" [ArgS (Some (strerror err))] ;; ret (r + n)
          else ret r) ;;
    r <- (if colour >? 0
          then n <- fprintf stderr (esc +:+ "[0m") [] ;; ret (r + n)
          else ret r) ;;
    r <- (if level <? 1
          then n <- fprintf stderr nl [] ;; ret (r + n)
          else ret r) ;;
    ret r.

(** MuttLogger, the dispatcher in use, starts as the stderr dispatcher. *)
Definition MuttLogger : log_dispatcher_t := log_disp_stderr.

(** *** The queue *)

Definition set_LogQueue (v : list LogLine) (q : Queue) : Queue :=
  mk_Queue v (LogQueueCount q) (LogQueueMax q).

Definition set_LogQueueCount (v : Z) (q : Queue) : Queue :=
  mk_Queue (LogQueue q) v (LogQueueMax q).

Definition set_LogQueueMax (v : Z) (q : Queue) : Queue :=
  mk_Queue (LogQueue q) (LogQueueCount q) v.

(** Modelled from the spec: the singly-linked tail queue of queue.h (not
    among the sources), an ordered sequence of Records with the oldest at
    the head. *)
Definition STAILQ_INSERT_TAIL (l : list LogLine) (ll : LogLine) : list LogLine :=
  l ++ [ll].

Definition STAILQ_REMOVE_HEAD (l : list LogLine) : list LogLine := tail l.

(** Removal of the element at position [i]. *)
Definition STAILQ_REMOVE (l : list LogLine) (i : nat) : list LogLine := delete i l.

(** The state of the whole module. *)
Definition World : Type := Env * Queue.

Definition on_env {A : Type} (m : M Env A) : M World A :=
  fun w =>
    match m (fst w) with
    | Some (a, e) => Some (a, (e, snd w))
    | None => None
    end.

Definition on_queue {A : Type} (m : M Queue A) : M World A :=
  fun w =>
    match m (snd w) with
    | Some (a, q) => Some (a, (fst w, q))
    | None => None
    end.

Definition log_queue_add (ll : LogLine) : M Queue Z :=
  modify (fun q => set_LogQueue (STAILQ_INSERT_TAIL (LogQueue q) ll) q) ;;;
  max <- gets LogQueueMax ;;
  count <- gets LogQueueCount ;;
  (if (max >? 0) && (count >=? max)
   then modify (fun q => set_LogQueue (STAILQ_REMOVE_HEAD (LogQueue q)) q)
   else
     (* LogQueueCount++ *)
     if count <? INT_MAX then modify (set_LogQueueCount (count + 1))
     else defined None) ;;;
  gets LogQueueCount.

Definition log_queue_set_max_size (size : Z) : M Queue unit :=
  let size := if size <? 0 then 0 else size in
  modify (set_LogQueueMax size).

(** The loop of log_queue_empty: [nodes] are the elements still to visit;
    the one visited is the head of what is left of the queue. *)
Fixpoint log_queue_empty_loop (nodes : list LogLine) : M Queue unit :=
  match nodes with
  | [] => ret tt
  | ll :: tmp =>
      modify (fun q => set_LogQueue (STAILQ_REMOVE (LogQueue q) 0) q) ;;;
      log_queue_empty_loop tmp
  end.

Definition log_queue_empty : M Queue unit :=
  nodes <- gets LogQueue ;;
  log_queue_empty_loop nodes ;;;
  modify (set_LogQueueCount 0).

(** The loop of log_queue_flush over the elements of the queue. *)
Fixpoint log_queue_flush_loop (disp : log_dispatcher_t) (nodes : list LogLine)
  : M Env unit :=
  match nodes with
  | [] => ret tt
  | ll :: rest =>
      disp (ll_time ll) (ll_file ll) (ll_line ll) (ll_function ll) (ll_level ll)
           "%s" [ArgS (ll_message ll)] ;;;
      log_queue_flush_loop disp rest
  end.

(** The target of a flush is a dispatcher over the environment (the file
    dispatcher, the stderr dispatcher, or any other that leaves the queue
    alone).  A flush of the queue into [log_disp_queue] itself, which would
    walk a list that grows under it, is not modelled. *)
Definition log_queue_flush (disp : log_dispatcher_t) : M World unit :=
  nodes <- gets (fun w : World => LogQueue (snd w)) ;;
  on_env (log_queue_flush_loop disp nodes) ;;;
  on_queue log_queue_empty.

(** The loop of log_queue_save. *)
Fixpoint log_queue_save_loop (fp : nat) (nodes : list LogLine) (count : Z)
  : M Env Z :=
  match nodes with
  | [] => ret count
  | ll :: rest =>
      let buf := strftime 32 "%H:%M:%S" (localtime (ll_time ll)) in
      abbr <- defined (char_at LevelAbbr (ll_level ll + 3)) ;;
      fprintf fp "[%s]<%c> %s" [ArgS (Some buf); ArgC abbr; ArgS (ll_message ll)] ;;;
      (if ll_level ll <=? 0 then fputs nl fp ;;; ret tt else ret tt) ;;;
      log_queue_save_loop fp rest (count + 1)
  end.

Definition log_queue_save (fp : option nat) : M World Z :=
  match fp with
  | None => ret 0
  | Some f =>
      nodes <- gets (fun w : World => LogQueue (snd w)) ;;
      on_env (log_queue_save_loop f nodes 0)
  end.

(** [snprintf(buf + off, sizeof(buf) - off, fmt, ...)] for the array [buf]
    of LONG_STRING bytes: past the end of the array the pointer is invalid
    (and the size wraps around); at the end the size is 0 and nothing is
    written; before it the text lands at offset [off], cut to the room
    left.  The result is the array's new text and the length of the whole
    expansion. *)
Definition snprintf_at (buf : string) (off : Z) (fmt : string) (ap : list arg)
  : option (string * Z) :=
  if (off <? 0) || (off >? LONG_STRING) then None
  else
    s ← vformat fmt ap;
    if off =? LONG_STRING then Some (buf, strlen s)
    else Some (string_take (Z.to_nat off) buf
               +:+ string_take (Z.to_nat (LONG_STRING - off - 1)) s,
               strlen s).

Definition log_disp_queue (stamp : Z) (file : option string) (line : Z)
    (function : option string) (level : Z) (fmt : string) (ap : list arg)
  : M World Z :=
  err <- on_env (gets errno) ;;
  p <- defined (vsnprintf LONG_STRING fmt ap) ;;
  let buf := fst p in
  let r := snd p in
  p <- (if level =? LL_PERROR
        then
          q <- defined (snprintf_at buf r ": %s" [ArgS (Some (strerror err))]) ;;
          ret (fst q, r + snd q, LL_ERROR)
        else ret (buf, r, level)) ;;
  let buf := fst (fst p) in
  let r := snd (fst p) in
  let level := snd p in
  t <- (if stamp =? 0 then on_env time else ret stamp) ;;
  let ll := mk_LogLine t file line function level (mutt_str_strdup (Some buf)) in
  on_queue (log_queue_add ll) ;;;
  ret r.

(** ** Vocabulary of the properties *)

(** Stream [fp] is open and its writes succeed. *)
Definition writable (fp : nat) (e : Env) : Prop :=
  exists st, streams e !! fp = Some st /\ st_open st = true /\ st_fail st = None.

(** The characters written to stream [fp] so far. *)
Definition written (fp : nat) (e : Env) : string :=
  match streams e !! fp with
  | Some st => st_data st
  | None => ""
  end.

(** The environment once [s] has gone out on stream [fp]. *)
Definition wrote (fp : nat) (s : string) (e : Env) : Env :=
  match streams e !! fp with
  | Some st =>
      set_streams
        (<[fp := mk_stream (st_path st) true None (st_data st +:+ s)]> (streams e)) e
  | None => e
  end.

(** Stream [fp] has been closed. *)
Definition closed (fp : nat) (e : Env) : Prop :=
  exists st, streams e !! fp = Some st /\ st_open st = false.

(** The invariant the design document states for the log file: a handle
    only with a file name. *)
Definition handle_has_name (e : Env) : Prop :=
  LogFileFP e <> None -> LogFileName e <> None.

(** [LogQueueCount] is the number of elements of [LogQueue]. *)
Definition queue_consistent (q : Queue) : Prop :=
  LogQueueCount q = Z.of_nat (length (LogQueue q)).

(** Every level of the queue is one of PERROR..DEBUG5. *)
Definition levels_in_range (l : list LogLine) : Prop :=
  Forall (fun ll => LL_PERROR <= ll_level ll <= LL_DEBUG5) l.

(** Insertion of the Records of [lls], oldest first. *)
Fixpoint log_queue_add_all (lls : list LogLine) : M Queue unit :=
  match lls with
  | [] => ret tt
  | ll :: rest => log_queue_add ll ;;; log_queue_add_all rest
  end.

(** The design document's description of a flush: every Record, in FIFO
    order, goes through the target's dispatch with the format "%s" and the
    stored message; the results of the calls are dropped. *)
Definition replay_one (disp : log_dispatcher_t) (ll : LogLine) (e : Env)
  : option Env :=
  snd <$> disp (ll_time ll) (ll_file ll) (ll_line ll) (ll_function ll)
               (ll_level ll) "%s" [ArgS (ll_message ll)] e.

Definition replay (disp : log_dispatcher_t) (l : list LogLine) (e : Env)
  : option Env :=
  foldl (fun acc ll => acc ≫= replay_one disp ll) (Some e) l.

(** The design document's snapshot format of one Record:
    [[HH:MM:SS]<levelAbbrev> message], with a newline when level <= 0. *)
Definition save_line (ll : LogLine) : string :=
  "[" +:+ strftime 32 "%H:%M:%S" (localtime (ll_time ll)) +:+ "]<"
  +:+ match char_at LevelAbbr (ll_level ll + 3) with
      | Some c => String c ""
      | None => ""
      end
  +:+ "> " +:+ string_arg (ll_message ll)
  +:+ (if ll_level ll <=? 0 then nl else "").

Definition save_text (l : list LogLine) : string :=
  foldr (fun ll acc => save_line ll +:+ acc) "" l.

(** The prefix of a line of the log file: [[timestamp]<abbrev> function() ]. *)
Definition file_prefix (ts : string) (abbr : ascii) (function : option string)
  : string :=
  "[" +:+ ts +:+ "]<" +:+ String abbr "> "
  +:+ match function with
      | Some f => f
      | None => "UNKNOWN"
      end
  +:+ "() ".

(** What follows the message in a line of the log file. *)
Definition file_suffix (level err : Z) : string :=
  if level =? LL_PERROR then ": " +:+ strerror err +:+ nl
  else if level <=? 0 then nl
  else "".

(** [wp m Q s]: from [s] the computation [m] is defined, and its result
    and final state satisfy [Q]. *)
Definition wp {S A : Type} (m : M S A) (Q : A -> S -> Prop) (s : S) : Prop :=
  match m s with
  | Some (a, s') => Q a s'
  | None => False
  end.

(** The inputs of the log file: three of its globals and what the
    environment decides. *)
Definition same_inputs (e e' : Env) : Prop :=
  LogFileName e' = LogFileName e /\
  LogFileLevel e' = LogFileLevel e /\ LogFileVersion e' = LogFileVersion e /\
  unopenable e' = unopenable e /\ now e' = now e /\ stderr_tty e' = stderr_tty e.

(** The same, and the same handle. *)
Definition same_globals (e e' : Env) : Prop :=
  LogFileFP e' = LogFileFP e /\ same_inputs e e'.

(** Every stream of [e] is still there in [e'], at the same path and as
    open, closed or failing as before. *)
Definition streams_kept (e e' : Env) : Prop :=
  (length (streams e) <= length (streams e'))%nat /\
  forall i st,
    streams e !! i = Some st ->
    exists st',
      streams e' !! i = Some st' /\ st_path st' = st_path st /\
      st_open st' = st_open st /\ st_fail st' = st_fail st.

(** The same, except that a stream which was open may now be closed. *)
Definition streams_aged (e e' : Env) : Prop :=
  (length (streams e) <= length (streams e'))%nat /\
  forall i st,
    streams e !! i = Some st ->
    exists st',
      streams e' !! i = Some st' /\ st_path st' = st_path st /\
      st_fail st' = st_fail st /\ (st_open st' = true -> st_open st = true).

(** *** Sample states *)

Definition stderr_stream : stream := mk_stream "/dev/stderr" true None "".

(** No log file yet: the state at program start, at noon of 1 January 2018. *)
Definition env_start : Env :=
  mk_Env 0 1514808000 [stderr_stream] [] false "" 0 [] None None 0 None.

(** Logging to /tmp/neomutt.log at level [level]. *)
Definition env_logging (level : Z) : Env :=
  mk_Env ENOENT 1514808000
         [stderr_stream; mk_stream "/tmp/neomutt.log" true None ""]
         [] false "" 0 [] (Some 1%nat) (Some "/tmp/neomutt.log") level None.

(** As [env_logging 0], on a full disk: writes to the log file fail. *)
Definition env_disk_full : Env :=
  mk_Env ENOENT 1514808000
         [stderr_stream; mk_stream "/tmp/neomutt.log" true (Some ENOSPC) ""]
         [] false "" 0 [] (Some 1%nat) (Some "/tmp/neomutt.log") 0 None.

Definition queue_start : Queue := mk_Queue [] 0 0.

Definition line_A : LogLine :=
  mk_LogLine 1514808000 (Some "main.c") 10 (Some "main") LL_MESSAGE (Some "A").
Definition line_B : LogLine :=
  mk_LogLine 1514808001 (Some "main.c") 11 (Some "main") LL_DEBUG1 (Some "B").
Definition line_C : LogLine :=
  mk_LogLine 1514808002 (Some "main.c") 12 (Some "main") LL_ERROR (Some "100% %s").

(** A message of 1020 characters: with ": " it leaves room for one
    character of an error description in a buffer of LONG_STRING bytes. *)
Definition long_message : string := string_repeat "x" 1020.

(** *** Two statements of the design document, as they are written *)


(** "setFilename: no-op if unchanged; returns failure if the sink is not
    yet open; if the sink is already open, changing the filename triggers a
    re-open" (the old handle is closed, whatever the new name is). *)
Definition set_filename_as_stated : Prop :=
  forall file e,
    (mutt_str_strcmp (LogFileName e) file = 0 ->
       log_file_set_filename file e = Some (0, e)) /\
    (mutt_str_strcmp (LogFileName e) file <> 0 -> LogFileFP e = None ->
       exists e', log_file_set_filename file e = Some (-1, e') /\
                  NONULL (LogFileName e') = NONULL file) /\
    (forall f st,
       mutt_str_strcmp (LogFileName e) file <> 0 -> LogFileFP e = Some f ->
       streams e !! f = Some st -> st_open st = true ->
       exists e', log_file_set_filename file e = Some (0, e') /\ closed f e').

(** ** Vocabulary of the further properties *)

(** [wlp m Q s]: if the computation [m] is defined from [s], its result and
    final state satisfy [Q]. *)
Definition wlp {S A : Type} (m : M S A) (Q : A -> S -> Prop) (s : S) : Prop :=
  match m s with
  | Some (a, s') => Q a s'
  | None => True
  end.

(** The text of a time, as [timestamp] formats it. *)
Definition timestamp_text (t : Z) : string :=
  strftime 23 "%Y-%m-%d %H:%M:%S" (localtime t).

(** The time [timestamp(stamp)] stands for: the current time for 0. *)
Definition effective_time (stamp : Z) (e : Env) : Z :=
  if stamp =? 0 then now e else stamp.

(** The static buffer of [timestamp] holds the text of the time it
    remembers. *)
Definition ts_coherent (e : Env) : Prop :=
  ts_buf e = timestamp_text (ts_last e).

(** The static buffer of [timestamp] can be relied on: it is coherent, or
    it has not been used yet (the remembered time is the initial 0) and the
    clock is not at the epoch. *)
Definition ts_ready (e : Env) : Prop :=
  ts_coherent e \/ (ts_last e = 0 /\ now e <> 0).

(** The handle of the log file, if there is one, points to an open
    stream. *)
Definition handle_open (e : Env) : Prop :=
  forall f, LogFileFP e = Some f ->
            exists st, streams e !! f = Some st /\ st_open st = true.

(** The first and the last line of a log file. *)
Definition banner_line (ts : string) (version : option string) (level : Z)
  : string :=
  "[" +:+ ts +:+ "] NeoMutt" +:+ NONULL version +:+ " debugging at level "
  +:+ dec level +:+ nl.

Definition closing_line (ts : string) : string :=
  "[" +:+ ts +:+ "] Closing log." +:+ nl.

(** A line of the log file for a Record replayed with the format "%s". *)
Definition file_line (e : Env) (ll : LogLine) : string :=
  file_prefix (timestamp_text (effective_time (ll_time ll) e))
              (match char_at LevelAbbr (ll_level ll + 3) with
               | Some c => c
               | None => "000"%char
               end)
              (ll_function ll)
  +:+ string_arg (ll_message ll) +:+ file_suffix (ll_level ll) (errno e).

(** The Records the file dispatcher lets through. *)
Definition passes_filter (e : Env) (ll : LogLine) : bool :=
  (LL_PERROR <=? ll_level ll) && (ll_level ll <=? LogFileLevel e).

(** The lines a flush into the file dispatcher writes. *)
Definition flush_text (e : Env) (l : list LogLine) : string :=
  foldr (fun ll acc =>
           if passes_filter e ll then file_line e ll +:+ acc else acc) "" l.






(** * mutt_account.c: the account object of POP, IMAP, SMTP and NNTP *)

(** ** What the headers give *)

(** Modelled from the spec: the flags of an account, one bit each
    (mutt_account.h is not among the sources; the values are those of the
    NeoMutt headers, [1 << 0] to [1 << 4]). *)
Definition MUTT_ACCT_PORT : Z := 2 ^ 0.
Definition MUTT_ACCT_USER : Z := 2 ^ 1.
Definition MUTT_ACCT_LOGIN : Z := 2 ^ 2.
Definition MUTT_ACCT_PASS : Z := 2 ^ 3.
Definition MUTT_ACCT_SSL : Z := 2 ^ 4.

(** Modelled from the spec: the account types of enum AccountType
    (mutt_account.h, not among the sources). *)
Definition MUTT_ACCT_TYPE_NONE : Z := 0.
Definition MUTT_ACCT_TYPE_IMAP : Z := 1.
Definition MUTT_ACCT_TYPE_POP : Z := 2.
Definition MUTT_ACCT_TYPE_SMTP : Z := 3.
Definition MUTT_ACCT_TYPE_NNTP : Z := 4.

(** Modelled from the spec: struct Account of mutt_account.h (not among the
    sources): four character arrays, the port, the type and the flags.  An
    array is modelled by the string it holds. *)
Record Account : Type := mk_Account {
  a_user : string;
  a_login : string;
  a_pass : string;
  a_host : string;
  a_port : Z;
  a_type : Z;
  a_flags : Z
}.

(** Modelled from the spec: the sizes of the arrays of struct Account and
    of a prompt ([STRING] of string2.h), in bytes. *)
Definition sizeof_user : Z := 64.
Definition sizeof_login : Z := 64.
Definition sizeof_pass : Z := 256.
Definition sizeof_host : Z := 128.
Definition STRING : Z := 256.

(** Modelled from the spec: the schemes of url.h (not among the sources)
    that mutt_account.c names. *)
Inductive UrlScheme : Type :=
  | U_UNKNOWN | U_IMAP | U_IMAPS | U_POP | U_POPS
  | U_SMTP | U_SMTPS | U_NNTP | U_NNTPS.

(** Modelled from the spec: struct Url of url.h (not among the sources);
    a port of 0 stands for no port. *)
Record Url : Type := mk_Url {
  u_scheme : UrlScheme;
  u_user : option string;
  u_pass : option string;
  u_host : option string;
  u_port : Z;
  u_path : option string
}.

(** The build options ([#ifdef USE_...]) and the global variables
    mutt_account.c reads (globals.h and options.h, not among the
    sources). *)
Record Settings : Type := mk_Settings {
  USE_IMAP : bool;
  USE_POP : bool;
  USE_SMTP : bool;
  USE_NNTP : bool;
  Username : option string;
  ImapUser : option string;
  ImapLogin : option string;
  ImapPass : option string;
  PopUser : option string;
  PopPass : option string;
  SmtpPass : option string;
  NntpUser : option string;
  NntpPass : option string;
  OPT_NO_CURSES : bool
}.

Definition set_a_user (v : string) (a : Account) : Account :=
  mk_Account v (a_login a) (a_pass a) (a_host a) (a_port a) (a_type a) (a_flags a).

Definition set_a_login (v : string) (a : Account) : Account :=
  mk_Account (a_user a) v (a_pass a) (a_host a) (a_port a) (a_type a) (a_flags a).

Definition set_a_pass (v : string) (a : Account) : Account :=
  mk_Account (a_user a) (a_login a) v (a_host a) (a_port a) (a_type a) (a_flags a).

Definition set_a_host (v : string) (a : Account) : Account :=
  mk_Account (a_user a) (a_login a) (a_pass a) v (a_port a) (a_type a) (a_flags a).

Definition set_a_port (v : Z) (a : Account) : Account :=
  mk_Account (a_user a) (a_login a) (a_pass a) (a_host a) v (a_type a) (a_flags a).

Definition set_a_flags (v : Z) (a : Account) : Account :=
  mk_Account (a_user a) (a_login a) (a_pass a) (a_host a) (a_port a) (a_type a) v.

(** An integer read as a condition, and a comparison read as an integer. *)
Definition truthy (z : Z) : bool := negb (z =? 0).

Definition int_of_bool (b : bool) : Z := if b then 1 else 0.

(** strcmp(3) and strcasecmp(3); only the sign of the result is modelled. *)
Definition strcmp (a b : string) : Z :=
  match String.compare a b with
  | Eq => 0
  | Lt => -1
  | Gt => 1
  end.

Definition tolower (c : ascii) : ascii :=
  let n := nat_of_ascii c in
  if (65 <=? n)%nat && (n <=? 90)%nat then ascii_of_nat (n + 32) else c.

Fixpoint string_tolower (s : string) : string :=
  match s with
  | "" => ""
  | String c s' => String (tolower c) (string_tolower s')
  end.

Definition strcasecmp (a b : string) : Z :=
  strcmp (string_tolower a) (string_tolower b).

(** Modelled from the spec: mutt_str_strcasecmp of mutt/string.c (not among
    the sources): strcasecmp over NONULL strings. *)
Definition mutt_str_strcasecmp (a b : option string) : Z :=
  strcasecmp (NONULL a) (NONULL b).

(** Modelled from the spec: mutt_str_strfcpy of mutt/string.c (not among
    the sources) copies [src] into an array of [dsize] bytes: at most
    [dsize - 1] characters and the terminator.  The result is the text of
    the array afterwards. *)
Definition mutt_str_strfcpy (src : string) (dsize : Z) : string :=
  string_take (Z.to_nat (dsize - 1)) src.

(** ** The user at the terminal *)

(** What the user will answer to the prompts to come ([None]: the prompt
    is aborted), and the prompts shown so far, each with the text offered
    and the flags of the call. *)
Record Ui : Type := mk_Ui {
  ui_answers : list (option string);
  ui_prompts : list (string * string * Z)
}.

(** Modelled from the spec: the flag of a prompt that does not echo
    (MUTT_PASS of mutt.h, not among the sources). *)
Definition MUTT_PASS : Z := 2 ^ 4.

(** Modelled from the spec: mutt_get_field_unbuffered (protos.h, not among
    the sources) shows [prompt] with the text of the array [buf] to edit:
    0 and the text entered (as far as it fits the array), or -1 when the
    user aborts, the array then being left as it was.  The model says
    nothing of a prompt for which no answer is recorded. *)
Definition mutt_get_field_unbuffered (prompt buf : string) (buflen flags : Z)
  : M Ui (Z * string) :=
  fun ui =>
    match ui_answers ui with
    | [] => None
    | answer :: rest =>
        let ui' := mk_Ui rest (ui_prompts ui ++ [(prompt, buf, flags)]) in
        match answer with
        | Some s => Some ((0, mutt_str_strfcpy s buflen), ui')
        | None => Some ((-1, buf), ui')
        end
    end.

(** Modelled from the spec: the macro mutt_get_password of protos.h. *)
Definition mutt_get_password (prompt buf : string) (buflen : Z)
  : M Ui (Z * string) :=
  mutt_get_field_unbuffered prompt buf buflen MUTT_PASS.

(** Modelled from the spec: the macro mutt_debug of logging.h (not among
    the sources) calls the dispatcher in use with a stamp of 0 (the current
    time) and the place of the call. *)
Definition mutt_debug (logger : log_dispatcher_t) (file : string) (line : Z)
    (function : string) (level : Z) (fmt : string) (ap : list arg) : M Env Z :=
  logger 0 (Some file) line (Some function) level fmt ap.

(** The terminal and the environment of the log, for the one function that
    uses both. *)
Definition Session : Type := Ui * Env.

Definition with_ui {A : Type} (m : M Ui A) : M Session A :=
  fun s =>
    match m (fst s) with
    | Some (a, ui) => Some (a, (ui, snd s))
    | None => None
    end.

Definition with_env {A : Type} (m : M Env A) : M Session A :=
  fun s =>
    match m (snd s) with
    | Some (a, e) => Some (a, (fst s, e))
    | None => None
    end.

(** ** The functions of mutt_account.c *)

(** The user name an account without one is compared with: the user of
    the protocol if it is set, [Username] otherwise. *)
Definition default_user (cfg : Settings) (type : Z) : string :=
  let user := NONULL (Username cfg) in
  let user :=
    if USE_IMAP cfg && (type =? MUTT_ACCT_TYPE_IMAP)
    then match ImapUser cfg with Some u => u | None => user end
    else user in
  let user :=
    if USE_POP cfg && (type =? MUTT_ACCT_TYPE_POP)
    then match PopUser cfg with Some u => u | None => user end
    else user in
  let user :=
    if USE_NNTP cfg && (type =? MUTT_ACCT_TYPE_NNTP)
    then match NntpUser cfg with Some u => u | None => user end
    else user in
  user.

Definition mutt_account_match (cfg : Settings) (a1 a2 : Account) : Z :=
  if negb (a_type a1 =? a_type a2) then 0
  else if negb (mutt_str_strcasecmp (Some (a_host a1)) (Some (a_host a2)) =? 0) then 0
  else if negb (a_port a1 =? a_port a2) then 0
  else
    let user := default_user cfg (a_type a1) in
    if truthy (Z.land (Z.land (a_flags a1) (a_flags a2)) MUTT_ACCT_USER)
    then int_of_bool (strcmp (a_user a1) (a_user a2) =? 0)
    else if USE_NNTP cfg && (a_type a1 =? MUTT_ACCT_TYPE_NNTP)
    then
      (if truthy (Z.land (a_flags a1) MUTT_ACCT_USER)
          && negb (String.eqb (a_user a1) "")
       then 0 else 1)
    else if truthy (Z.land (a_flags a1) MUTT_ACCT_USER)
    then int_of_bool (strcmp (a_user a1) user =? 0)
    else if truthy (Z.land (a_flags a2) MUTT_ACCT_USER)
    then int_of_bool (strcmp (a_user a2) user =? 0)
    else 1.

(** The result and the account as the call leaves it. *)
Definition mutt_account_fromurl (account : Account) (url : Url) : Z * Account :=
  match u_host url with
  | None => (-1, account)
  | Some host =>
      let account := set_a_host (mutt_str_strfcpy host sizeof_host) account in
      let account :=
        match u_user url with
        | Some user =>
            set_a_flags (Z.lor (a_flags account) MUTT_ACCT_USER)
                        (set_a_user (mutt_str_strfcpy user sizeof_user) account)
        | None => account
        end in
      let account :=
        match u_pass url with
        | Some pass =>
            set_a_flags (Z.lor (a_flags account) MUTT_ACCT_PASS)
                        (set_a_pass (mutt_str_strfcpy pass sizeof_pass) account)
        | None => account
        end in
      let account :=
        if truthy (u_port url)
        then set_a_flags (Z.lor (a_flags account) MUTT_ACCT_PORT)
                         (set_a_port (u_port url) account)
        else account in
      (0, account)
  end.

(** The URL the call fills in.  Its strings are pointers into the account;
    the model holds their values. *)
Definition mutt_account_tourl (cfg : Settings) (account : Account) : Url :=
  let ssl := truthy (Z.land (a_flags account) MUTT_ACCT_SSL) in
  let scheme := U_UNKNOWN in
  let scheme :=
    if USE_IMAP cfg && (a_type account =? MUTT_ACCT_TYPE_IMAP)
    then (if ssl then U_IMAPS else U_IMAP) else scheme in
  let scheme :=
    if USE_POP cfg && (a_type account =? MUTT_ACCT_TYPE_POP)
    then (if ssl then U_POPS else U_POP) else scheme in
  let scheme :=
    if USE_SMTP cfg && (a_type account =? MUTT_ACCT_TYPE_SMTP)
    then (if ssl then U_SMTPS else U_SMTP) else scheme in
  let scheme :=
    if USE_NNTP cfg && (a_type account =? MUTT_ACCT_TYPE_NNTP)
    then (if ssl then U_NNTPS else U_NNTP) else scheme in
  mk_Url scheme
         (if truthy (Z.land (a_flags account) MUTT_ACCT_USER)
          then Some (a_user account) else None)
         (if truthy (Z.land (a_flags account) MUTT_ACCT_PASS)
          then Some (a_pass account) else None)
         (Some (a_host account))
         (if truthy (Z.land (a_flags account) MUTT_ACCT_PORT)
          then a_port account else 0)
         None.

(** The user name the configuration has for the type of the account. *)
Definition configured_user (cfg : Settings) (account : Account) : option string :=
  if USE_IMAP cfg && (a_type account =? MUTT_ACCT_TYPE_IMAP) && bool_decide (is_Some (ImapUser cfg))
  then ImapUser cfg
  else if USE_POP cfg && (a_type account =? MUTT_ACCT_TYPE_POP) && bool_decide (is_Some (PopUser cfg))
  then PopUser cfg
  else if USE_NNTP cfg && (a_type account =? MUTT_ACCT_TYPE_NNTP) && bool_decide (is_Some (NntpUser cfg))
  then NntpUser cfg
  else None.

Definition mutt_account_getuser (cfg : Settings) (account : Account)
  : M Ui (Z * Account) :=
  let finish (account : Account) : M Ui (Z * Account) :=
    ret (0, set_a_flags (Z.lor (a_flags account) MUTT_ACCT_USER) account) in
  (* already set *)
  if truthy (Z.land (a_flags account) MUTT_ACCT_USER) then ret (0, account)
  else
    match configured_user cfg account with
    | Some user => finish (set_a_user (mutt_str_strfcpy user sizeof_user) account)
    | None =>
        if OPT_NO_CURSES cfg then ret (-1, account)
        else
          (* prompt (defaults to unix username), copy into account->user *)
          p <- defined (vsnprintf STRING "Username at %s: " [ArgS (Some (a_host account))]) ;;
          let prompt := fst p in
          let account :=
            set_a_user (mutt_str_strfcpy (NONULL (Username cfg)) sizeof_user) account in
          r <- mutt_get_field_unbuffered prompt (a_user account) sizeof_user 0 ;;
          let account := set_a_user (snd r) account in
          if truthy (fst r) then ret (-1, account)
          else finish account
    end.

Definition mutt_account_getlogin (cfg : Settings) (logger : log_dispatcher_t)
    (account : Account) : M Session (Z * Account) :=
  (* already set *)
  if truthy (Z.land (a_flags account) MUTT_ACCT_LOGIN) then ret (0, account)
  else
    let account :=
      if USE_IMAP cfg && (a_type account =? MUTT_ACCT_TYPE_IMAP)
      then
        match ImapLogin cfg with
        | Some login =>
            set_a_flags (Z.lor (a_flags account) MUTT_ACCT_LOGIN)
                        (set_a_login (mutt_str_strfcpy login sizeof_login) account)
        | None => account
        end
      else account in
    if negb (truthy (Z.land (a_flags account) MUTT_ACCT_LOGIN))
    then
      p <- with_ui (mutt_account_getuser cfg account) ;;
      let account := snd p in
      if fst p =? 0
      then
        ret (0, set_a_flags (Z.lor (a_flags account) MUTT_ACCT_LOGIN)
                  (set_a_login (mutt_str_strfcpy (a_user account) sizeof_login) account))
      else
        with_env (mutt_debug logger "mutt_account.c" 256 "mutt_account_getlogin" 1
                             ("Couldn't get user info" +:+ nl) []) ;;;
        ret (-1, account)
    else ret (0, account).

(** The password the configuration has for the type of the account. *)
Definition configured_pass (cfg : Settings) (account : Account) : option string :=
  if USE_IMAP cfg && (a_type account =? MUTT_ACCT_TYPE_IMAP) && bool_decide (is_Some (ImapPass cfg))
  then ImapPass cfg
  else if USE_POP cfg && (a_type account =? MUTT_ACCT_TYPE_POP) && bool_decide (is_Some (PopPass cfg))
  then PopPass cfg
  else if USE_SMTP cfg && (a_type account =? MUTT_ACCT_TYPE_SMTP) && bool_decide (is_Some (SmtpPass cfg))
  then SmtpPass cfg
  else if USE_NNTP cfg && (a_type account =? MUTT_ACCT_TYPE_NNTP) && bool_decide (is_Some (NntpPass cfg))
  then NntpPass cfg
  else None.

Definition mutt_account_getpass (cfg : Settings) (account : Account)
  : M Ui (Z * Account) :=
  let finish (account : Account) : M Ui (Z * Account) :=
    ret (0, set_a_flags (Z.lor (a_flags account) MUTT_ACCT_PASS) account) in
  if truthy (Z.land (a_flags account) MUTT_ACCT_PASS) then ret (0, account)
  else
    match configured_pass cfg account with
    | Some pass => finish (set_a_pass (mutt_str_strfcpy pass sizeof_pass) account)
    | None =>
        if OPT_NO_CURSES cfg then ret (-1, account)
        else
          p <- defined (vsnprintf STRING "Password for %s@%s: "
                          [ArgS (Some (if truthy (Z.land (a_flags account) MUTT_ACCT_LOGIN)
                                       then a_login account else a_user account));
                           ArgS (Some (a_host account))]) ;;
          let prompt := fst p in
          let account := set_a_pass "" account in
          r <- mutt_get_password prompt (a_pass account) sizeof_pass ;;
          let account := set_a_pass (snd r) account in
          if truthy (fst r) then ret (-1, account)
          else finish account
    end.

Definition mutt_account_unsetpass (account : Account) : Account :=
  set_a_flags (Z.land (a_flags account) (Z.lnot MUTT_ACCT_PASS)) account.

(** ** Vocabulary of the properties of an account *)

(** Flag [b] of the account is set. *)
Definition has_flag (b : Z) (account : Account) : bool :=
  truthy (Z.land (a_flags account) b).

(** The strings of the account fit their arrays. *)
Definition account_fits (account : Account) : Prop :=
  strlen (a_user account) < sizeof_user /\ strlen (a_login account) < sizeof_login /\
  strlen (a_pass account) < sizeof_pass /\ strlen (a_host account) < sizeof_host.

(** The account but for its flags and the strings the flags guard. *)
Definition same_place (a a' : Account) : Prop :=
  a_host a' = a_host a /\ a_port a' = a_port a /\ a_type a' = a_type a.

(** A configuration with every protocol built in and nothing set. *)
Definition settings_plain : Settings :=
  mk_Settings true true true true (Some "jim") None None None None None None None None
              false.

(** An IMAP account on a host, nothing else known. *)
Definition account_imap : Account :=
  mk_Account "" "" "" "mail.example.com" 0 MUTT_ACCT_TYPE_IMAP 0.

Definition ui_start (answers : list (option string)) : Ui := mk_Ui answers [].

(** The same configuration in batch mode: no curses, nobody to ask. *)
Definition settings_batch : Settings :=
  mk_Settings true true true true (Some "jim") None None None None None None None None
              true.

(** * Properties *)

(** ** The queue *)

Section Queue.

Implicit Types (q : Queue) (ll : LogLine) (l lls : list LogLine).

(** What one insertion does, case by case. *)
Lemma log_queue_add_evict ll q :
  LogQueueMax q > 0 -> LogQueueCount q >= LogQueueMax q ->
  log_queue_add ll q =
    Some (LogQueueCount q,
          mk_Queue (tail (LogQueue q ++ [ll])) (LogQueueCount q) (LogQueueMax q)).
Proof.
  intros Hmax Hfull. unfold log_queue_add, bind, gets, modify; simpl.
  replace (LogQueueMax q >? 0) with true by (symmetry; apply Z.gtb_lt; lia).
  replace (LogQueueCount q >=? LogQueueMax q) with true
    by (symmetry; apply Z.geb_le; lia).
  reflexivity.
Qed.

Lemma log_queue_add_grow ll q :
  ~ (LogQueueMax q > 0 /\ LogQueueCount q >= LogQueueMax q) ->
  LogQueueCount q < INT_MAX ->
  log_queue_add ll q =
    Some (LogQueueCount q + 1,
          mk_Queue (LogQueue q ++ [ll]) (LogQueueCount q + 1) (LogQueueMax q)).
Proof.
  intros Hroom Hint. unfold log_queue_add, bind, gets, modify; simpl.
  destruct (LogQueueMax q >? 0) eqn:Hmax; destruct (LogQueueCount q >=? LogQueueMax q) eqn:Hfull;
    simpl;
    try (apply Z.gtb_lt in Hmax; apply Z.geb_le in Hfull; exfalso; apply Hroom; lia);
    (replace (LogQueueCount q <? INT_MAX) with true by (symmetry; apply Z.ltb_lt; lia));
    reflexivity.
Qed.

Lemma log_queue_add_inv ll q n q' :
  log_queue_add ll q = Some (n, q') ->
  n = LogQueueCount q' /\ LogQueueMax q' = LogQueueMax q /\
  ((LogQueueMax q > 0 /\ LogQueueCount q >= LogQueueMax q /\
    LogQueueCount q' = LogQueueCount q /\ LogQueue q' = tail (LogQueue q ++ [ll])) \/
   (~ (LogQueueMax q > 0 /\ LogQueueCount q >= LogQueueMax q) /\
    LogQueueCount q' = LogQueueCount q + 1 /\ LogQueue q' = LogQueue q ++ [ll])).
Proof.
  unfold log_queue_add, bind, gets, modify; simpl.
  destruct (LogQueueMax q >? 0) eqn:Hmax; destruct (LogQueueCount q >=? LogQueueMax q) eqn:Hfull;
    simpl; try destruct (LogQueueCount q <? INT_MAX) eqn:Hint; simpl;
    intros H; inversion H; subst; clear H; simpl;
    repeat split; auto;
    try (apply Z.gtb_lt in Hmax); try (apply Z.geb_le in Hfull);
    try (right; repeat split; auto; intros [? ?]);
    try (left; repeat split; auto; lia);
    try (rewrite Z.gtb_ltb in Hmax; apply Z.ltb_ge in Hmax; lia);
    try (rewrite Z.geb_leb in Hfull; apply Z.leb_gt in Hfull; lia).
Qed.


(** Below [INT_MAX] an insertion is defined. *)
Lemma log_queue_add_defined ll q :
  LogQueueCount q < INT_MAX -> exists n q', log_queue_add ll q = Some (n, q').
Proof.
  intros Hint.
  destruct (Z_gt_le_dec (LogQueueMax q) 0) as [Hmax|Hmax];
    [destruct (Z_ge_lt_dec (LogQueueCount q) (LogQueueMax q)) as [Hfull|Hfull]|].
  - rewrite log_queue_add_evict by assumption. eauto.
  - rewrite log_queue_add_grow by lia. eauto.
  - rewrite log_queue_add_grow by lia. eauto.
Qed.

Lemma log_queue_add_all_cons ll lls q :
  log_queue_add_all (ll :: lls) q =
    match log_queue_add ll q with
    | Some (_, q') => log_queue_add_all lls q'
    | None => None
    end.
Proof. reflexivity. Qed.

(** A bounded queue that holds at most its maximum keeps, after any number
    of insertions, the newest Records that fit. *)
Lemma log_queue_add_all_bounded (N : Z) :
  0 < N <= INT_MAX ->
  forall lls q,
    LogQueueMax q = N -> queue_consistent q -> LogQueueCount q <= N ->
    log_queue_add_all lls q =
      Some (tt,
            mk_Queue (drop (length (LogQueue q ++ lls) - Z.to_nat N) (LogQueue q ++ lls))
                     (Z.min N (Z.of_nat (length (LogQueue q ++ lls)))) N).
Proof.
  intros HN. induction lls as [|ll lls IH]; intros q Hmax Hcons Hle; unfold queue_consistent in *.
  - simpl. unfold ret. destruct q as [l c m]; simpl in *; subst.
    rewrite app_nil_r. replace (length l - Z.to_nat N)%nat with 0%nat by lia.
    rewrite drop_0. do 3 f_equal. lia.
  - rewrite log_queue_add_all_cons.
    destruct (Z_lt_le_dec (LogQueueCount q) N) as [Hroom|Hfull].
    + rewrite log_queue_add_grow by lia.
      rewrite IH; simpl; try lia.
      * rewrite <- app_assoc. reflexivity.
      * rewrite length_app; simpl. lia.
    + rewrite log_queue_add_evict by lia.
      destruct (LogQueue q) as [|x l] eqn:Hl; simpl in *; [lia|].
      rewrite IH; simpl; try lia.
      * rewrite <- !app_assoc; simpl. rewrite !length_app; simpl.
        replace (S (length l + S (length lls)) - Z.to_nat N)%nat
          with (S (length l + S (length lls) - Z.to_nat N))%nat by lia.
        simpl. do 3 f_equal. lia.
      * unfold queue_consistent; simpl. rewrite length_app; simpl. lia.
Qed.


(** At or above its maximum, the queue keeps its count and its length
    through any number of insertions. *)
Lemma log_queue_add_all_full lls :
  forall q,
    LogQueueMax q > 0 -> LogQueueCount q >= LogQueueMax q ->
    exists q',
      log_queue_add_all lls q = Some (tt, q') /\
      LogQueueCount q' = LogQueueCount q /\ LogQueueMax q' = LogQueueMax q /\
      length (LogQueue q') = length (LogQueue q).
Proof.
  induction lls as [|ll lls IH]; intros q Hmax Hfull.
  - exists q. repeat split; reflexivity.
  - rewrite log_queue_add_all_cons, log_queue_add_evict by assumption.
    destruct (IH (mk_Queue (tail (LogQueue q ++ [ll])) (LogQueueCount q) (LogQueueMax q)))
      as (q' & Hrun & Hc & Hm & Hlen); simpl; try assumption.
    exists q'. simpl in *. repeat split; try assumption.
    rewrite Hlen. destruct (LogQueue q); simpl; [reflexivity|].
    rewrite length_app; simpl. lia.
Qed.

End Queue.

(** C4 (queue eviction).  With a maximum of [N > 0], inserting [N + k]
    Records ([k >= 1]) into the empty queue leaves exactly [N] Records: the
    [N] inserted last, in insertion order (the [k] oldest are gone).  And an
    insertion evicts only if [LogQueueMax > 0] and [LogQueueCount >=
    LogQueueMax] when it is made. *)
Theorem log_queue_keeps_newest (N k : Z) (lls : list LogLine) :
  0 < N <= INT_MAX -> 1 <= k -> Z.of_nat (length lls) = N + k ->
  (exists q',
     (log_queue_set_max_size N ;;; log_queue_add_all lls) queue_start = Some (tt, q') /\
     LogQueue q' = drop (Z.to_nat k) lls /\
     Z.of_nat (length (LogQueue q')) = N /\
     LogQueueCount q' = N /\ LogQueueMax q' = N) /\
  (forall ll q n q',
     log_queue_add ll q = Some (n, q') ->
     LogQueue q' <> LogQueue q ++ [ll] ->
     LogQueueMax q > 0 /\ LogQueueCount q >= LogQueueMax q).
Proof.
  intros HN Hk Hlen. split.
  - unfold log_queue_set_max_size, bind, modify, queue_start; simpl.
    replace (N <? 0) with false by (symmetry; apply Z.ltb_ge; lia).
    rewrite (log_queue_add_all_bounded N HN);
      [ | reflexivity | unfold queue_consistent; simpl; lia | simpl; lia ].
    eexists. split; [reflexivity|]. simpl.
    replace (length lls - Z.to_nat N)%nat with (Z.to_nat k) by lia.
    repeat split; try lia.
    rewrite length_drop. lia.
  - intros ll q n q' Hadd Hevict.
    destruct (log_queue_add_inv _ _ _ _ Hadd) as (_ & _ & [H|H]).
    + lia.
    + destruct H as (_ & _ & Happ). contradiction.
Qed.

(** The scenario of the design document: maximum 2, then A, B, C. *)
Lemma log_queue_keeps_newest_witness :
  (exists q',
     (log_queue_set_max_size 2 ;;; log_queue_add_all [line_A; line_B; line_C]) queue_start
       = Some (tt, q') /\
     LogQueue q' = drop (Z.to_nat 1) [line_A; line_B; line_C] /\
     Z.of_nat (length (LogQueue q')) = 2 /\
     LogQueueCount q' = 2 /\ LogQueueMax q' = 2) /\
  (forall ll q n q',
     log_queue_add ll q = Some (n, q') ->
     LogQueue q' <> LogQueue q ++ [ll] ->
     LogQueueMax q > 0 /\ LogQueueCount q >= LogQueueMax q).
Proof.
  apply (log_queue_keeps_newest 2 1 [line_A; line_B; line_C]).
  - unfold INT_MAX; lia.
  - lia.
  - reflexivity.
Defined.

(** C10 (the count never shrinks).  An insertion never lowers
    [LogQueueCount] and is defined below [INT_MAX]; at or above a positive
    maximum it removes the oldest Record and keeps the count; so after the
    maximum is lowered below the count, the count (and the length) stay
    where they were through every later insertion. *)
Theorem log_queue_count_never_shrinks :
  (forall ll q n q',
     log_queue_add ll q = Some (n, q') -> LogQueueCount q <= LogQueueCount q') /\
  (forall ll q, LogQueueCount q < INT_MAX -> is_Some (log_queue_add ll q)) /\
  (forall ll q x l,
     LogQueueMax q > 0 -> LogQueueCount q >= LogQueueMax q -> LogQueue q = x :: l ->
     log_queue_add ll q =
       Some (LogQueueCount q, mk_Queue (l ++ [ll]) (LogQueueCount q) (LogQueueMax q))) /\
  (forall size lls q,
     0 < size < LogQueueCount q ->
     exists q',
       (log_queue_set_max_size size ;;; log_queue_add_all lls) q = Some (tt, q') /\
       LogQueueCount q' = LogQueueCount q /\
       length (LogQueue q') = length (LogQueue q) /\
       LogQueueMax q' = size).
Proof.
  repeat split.
  - intros ll q n q' Hadd.
    destruct (log_queue_add_inv _ _ _ _ Hadd) as (_ & _ & [H|H]); lia.
  - intros ll q Hint.
    destruct (log_queue_add_defined ll q Hint) as (n & q' & Hadd).
    rewrite Hadd. eexists; reflexivity.
  - intros ll q x l Hmax Hfull Hl.
    rewrite log_queue_add_evict by assumption. rewrite Hl. reflexivity.
  - intros size lls q Hsize.
    unfold log_queue_set_max_size, bind, modify; simpl.
    replace (size <? 0) with false by (symmetry; apply Z.ltb_ge; lia).
    destruct (log_queue_add_all_full lls (set_LogQueueMax size q))
      as (q' & Hrun & Hc & Hm & Hlen); simpl; try lia.
    exists q'. simpl in *. auto.
Qed.

(** ** Strings and formats *)

Lemma append_cons (c : ascii) (s t : string) :
  String c s +:+ t = String c (s +:+ t).
Proof. reflexivity. Qed.

Lemma append_nil_r (s : string) : s +:+ "" = s.
Proof.
  induction s as [|c s IH]; [reflexivity|].
  rewrite append_cons, IH. reflexivity.
Qed.

Lemma append_assoc (a b c : string) : (a +:+ b) +:+ c = a +:+ (b +:+ c).
Proof.
  induction a as [|x a IH]; [reflexivity|].
  rewrite !append_cons, IH. reflexivity.
Qed.

Lemma strlen_append (a b : string) : strlen (a +:+ b) = strlen a + strlen b.
Proof.
  unfold strlen. induction a as [|x a IH]; [reflexivity|].
  rewrite append_cons. simpl String.length. lia.
Qed.

Lemma strlen_nonneg (s : string) : 0 <= strlen s.
Proof. unfold strlen. lia. Qed.

Lemma string_take_all (n : nat) (s : string) :
  (String.length s <= n)%nat -> string_take n s = s.
Proof.
  revert n. induction s as [|c s IH]; intros [|n] Hlen; simpl in *;
    try reflexivity; try lia.
  rewrite IH by lia. reflexivity.
Qed.


(** The format "%s" prints its argument as it is: nothing in the argument
    is read as a conversion. *)
Lemma vformat_verbatim (m : option string) :
  vformat "%s" [ArgS m] = Some (string_arg m).
Proof. simpl. rewrite append_nil_r. reflexivity. Qed.

Example vformat_percent_in_argument :
  vformat "%s" [ArgS (Some "100% %s %d")] = Some "100% %s %d".
Proof. reflexivity. Qed.

Example timestamp_text_2018 :
  strftime 23 "%Y-%m-%d %H:%M:%S" (localtime 1514808000) = "2018-01-01 12:00:00".
Proof. reflexivity. Qed.

Example timestamp_text_2023 :
  strftime 23 "%Y-%m-%d %H:%M:%S" (localtime 1700000000) = "2023-11-14 22:13:20".
Proof. reflexivity. Qed.

Example timestamp_text_before_epoch :
  strftime 32 "%H:%M:%S" (localtime (-1)) = "23:59:59".
Proof. reflexivity. Qed.

(** ** Flushing the queue *)

Section Flush.

Variable disp : log_dispatcher_t.

Lemma log_queue_empty_loop_drops (nodes : list LogLine) :
  forall q,
    log_queue_empty_loop nodes q =
      Some (tt, set_LogQueue (drop (length nodes) (LogQueue q)) q).
Proof.
  induction nodes as [|ll tmp IH]; intros q.
  - simpl. rewrite drop_0. destruct q; reflexivity.
  - simpl. unfold bind, modify. rewrite IH. unfold STAILQ_REMOVE; simpl.
    destruct (LogQueue q) as [|x l]; simpl.
    + rewrite drop_nil. reflexivity.
    + reflexivity.
Qed.

Lemma log_queue_empty_clears (q : Queue) :
  log_queue_empty q = Some (tt, mk_Queue [] 0 (LogQueueMax q)).
Proof.
  unfold log_queue_empty, bind, gets, modify.
  rewrite log_queue_empty_loop_drops, drop_all. reflexivity.
Qed.

Lemma replay_none (l : list LogLine) :
  foldl (fun acc ll => acc ≫= replay_one disp ll) None l = None.
Proof. induction l as [|ll l IH]; simpl; [reflexivity | exact IH]. Qed.

Lemma replay_cons (ll : LogLine) (l : list LogLine) (e : Env) :
  replay disp (ll :: l) e = replay_one disp ll e ≫= replay disp l.
Proof.
  unfold replay; simpl. destruct (replay_one disp ll e) as [e'|]; simpl.
  - reflexivity.
  - apply replay_none.
Qed.

Lemma log_queue_flush_loop_replays (nodes : list LogLine) :
  forall e,
    log_queue_flush_loop disp nodes e = (fun e' => (tt, e')) <$> replay disp nodes e.
Proof.
  induction nodes as [|ll rest IH]; intros e.
  - reflexivity.
  - rewrite replay_cons. simpl. unfold bind, replay_one.
    destruct (disp _ _ _ _ _ _ _ e) as [[r e']|]; simpl.
    + apply IH.
    + reflexivity.
Qed.

End Flush.

(** C6 (flush).  For every target dispatcher and every state, a flush is
    the replay of the queued Records, oldest first, each through the target
    with the format "%s" and its stored message (which "%s" prints as it
    is), followed by the emptying of the queue whatever the calls returned;
    a second flush right after the first replays nothing and leaves the
    state as it is. *)
Theorem log_queue_flush_replays_then_empties :
  forall (disp : log_dispatcher_t) (e : Env) (q : Queue),
    log_queue_flush disp (e, q) =
      (fun e' => (tt, (e', mk_Queue [] 0 (LogQueueMax q)))) <$> replay disp (LogQueue q) e
    /\ (forall m, vformat "%s" [ArgS m] = Some (string_arg m))
    /\ (forall w', log_queue_flush disp (e, q) = Some (tt, w') ->
          LogQueue (snd w') = [] /\ LogQueueCount (snd w') = 0 /\
          log_queue_flush disp w' = Some (tt, w')).
Proof.
  intros disp e q.
  assert (Hflush : forall e0 q0,
    log_queue_flush disp (e0, q0) =
      (fun e' => (tt, (e', mk_Queue [] 0 (LogQueueMax q0)))) <$> replay disp (LogQueue q0) e0).
  { intros e0 q0. unfold log_queue_flush, bind, gets, on_env, on_queue; simpl.
    rewrite log_queue_flush_loop_replays.
    destruct (replay disp (LogQueue q0) e0) as [e'|]; simpl; [|reflexivity].
    rewrite log_queue_empty_clears. reflexivity. }
  split; [apply Hflush|]. split; [apply vformat_verbatim|].
  intros w' Hw'. rewrite Hflush in Hw'.
  destruct (replay disp (LogQueue q) e) as [e'|]; simpl in Hw'; [|discriminate].
  inversion Hw'; subst; clear Hw'. simpl.
  split; [reflexivity|]. split; [reflexivity|].
  rewrite Hflush. reflexivity.
Qed.

(** ** Streams *)

Section Streams.

Implicit Types (e : Env) (fp : nat) (s : string).

Lemma stream_write_writable fp s e :
  writable fp e -> stream_write fp s e = Some (strlen s, wrote fp s e).
Proof.
  intros (st & Hst & Hopen & Hfail). unfold stream_write, wrote.
  rewrite Hst, Hopen, Hfail. reflexivity.
Qed.

Lemma stream_write_failing fp s e st err :
  streams e !! fp = Some st -> st_open st = true -> st_fail st = Some err ->
  stream_write fp s e = Some (-1, set_errno err e).
Proof.
  intros Hst Hopen Hfail. unfold stream_write. rewrite Hst, Hopen, Hfail. reflexivity.
Qed.

(** A write is always defined. *)
Lemma stream_write_total fp s e : is_Some (stream_write fp s e).
Proof.
  unfold stream_write. destruct (streams e !! fp) as [st|]; [|eexists; reflexivity].
  destruct (st_open st); [|eexists; reflexivity].
  destruct (st_fail st); eexists; reflexivity.
Qed.

Lemma wrote_writable fp s e : writable fp e -> writable fp (wrote fp s e).
Proof.
  intros (st & Hst & Hopen & Hfail). unfold wrote, writable. rewrite Hst; simpl.
  exists (mk_stream (st_path st) true None (st_data st +:+ s)).
  split; [|split; reflexivity].
  apply list_lookup_insert_eq. eapply lookup_lt_Some, Hst.
Qed.

Lemma wrote_written fp s e :
  writable fp e -> written fp (wrote fp s e) = written fp e +:+ s.
Proof.
  intros (st & Hst & Hopen & Hfail). unfold wrote, written. rewrite Hst; simpl.
  rewrite list_lookup_insert_eq by (eapply lookup_lt_Some, Hst). reflexivity.
Qed.

Lemma wrote_nil fp e : writable fp e -> wrote fp "" e = e.
Proof.
  intros (st & Hst & Hopen & Hfail). unfold wrote. rewrite Hst, append_nil_r.
  rewrite <- Hopen, <- Hfail.
  replace (mk_stream (st_path st) (st_open st) (st_fail st) (st_data st)) with st
    by (destruct st; reflexivity).
  rewrite list_insert_id by exact Hst. destruct e; reflexivity.
Qed.

Lemma wrote_wrote fp s1 s2 e :
  wrote fp s2 (wrote fp s1 e) = wrote fp (s1 +:+ s2) e.
Proof.
  unfold wrote. destruct (streams e !! fp) as [st|] eqn:Hst; simpl.
  - rewrite list_lookup_insert_eq by (eapply lookup_lt_Some, Hst). simpl.
    rewrite list_insert_insert_eq, append_assoc. reflexivity.
  - rewrite Hst. reflexivity.
Qed.

Lemma fprintf_writable fp fmt ap s e :
  vformat fmt ap = Some s -> writable fp e ->
  fprintf fp fmt ap e = Some (strlen s, wrote fp s e).
Proof.
  intros Hfmt Hw. unfold fprintf, bind, defined. rewrite Hfmt.
  apply stream_write_writable, Hw.
Qed.

End Streams.

(** ** Saving the queue *)

Section Save.

Implicit Types (e : Env) (fp : nat) (l nodes : list LogLine).

(** Inside PERROR..DEBUG5 the table of abbreviations has a character. *)
Lemma char_at_LevelAbbr (level : Z) :
  LL_PERROR <= level <= LL_DEBUG5 ->
  exists c, char_at LevelAbbr (level + 3) = Some c.
Proof.
  unfold LL_PERROR, LL_DEBUG5. intros Hrange.
  assert (H : level = -3 \/ level = -2 \/ level = -1 \/ level = 0 \/ level = 1 \/
              level = 2 \/ level = 3 \/ level = 4 \/ level = 5) by lia.
  repeat destruct H as [H|H]; subst; eexists; reflexivity.
Qed.

Lemma vformat_save_line (buf : string) (c : ascii) (m : option string) :
  vformat "[%s]<%c> %s" [ArgS (Some buf); ArgC c; ArgS m] =
    Some ("[" +:+ buf +:+ "]<" +:+ String c "" +:+ "> " +:+ string_arg m).
Proof. simpl. rewrite append_nil_r. reflexivity. Qed.

(** The loop counts every element it visits, whatever became of the
    writes. *)
Lemma log_queue_save_loop_counts fp nodes :
  forall count e r e',
    log_queue_save_loop fp nodes count e = Some (r, e') ->
    r = count + Z.of_nat (length nodes).
Proof.
  induction nodes as [|ll rest IH]; intros count e r e' Hrun.
  - inversion Hrun. simpl. lia.
  - simpl in Hrun. unfold bind, defined in Hrun.
    destruct (char_at LevelAbbr (ll_level ll + 3)) as [c|]; [|discriminate].
    destruct (fprintf fp _ _ e) as [[n e1]|]; [|discriminate].
    destruct (ll_level ll <=? 0).
    + unfold fputs in Hrun. destruct (stream_write fp nl e1) as [[n2 e2]|]; [|discriminate].
      simpl in Hrun. apply IH in Hrun. simpl length. lia.
    + simpl in Hrun. apply IH in Hrun. simpl length. lia.
Qed.

(** On a stream that takes the writes, the loop is defined for levels in
    range and writes the snapshot text of the elements, in order. *)
Lemma log_queue_save_loop_writes fp nodes :
  forall count e,
    writable fp e -> levels_in_range nodes ->
    log_queue_save_loop fp nodes count e =
      Some (count + Z.of_nat (length nodes), wrote fp (save_text nodes) e).
Proof.
  induction nodes as [|ll rest IH]; intros count e Hw Hlevels.
  - simpl. unfold ret. rewrite wrote_nil by exact Hw. do 2 f_equal. lia.
  - inversion Hlevels as [|? ? Hll Hrest]; subst.
    destruct (char_at_LevelAbbr _ Hll) as [c Hc].
    simpl. unfold bind, defined. rewrite Hc.
    rewrite (fprintf_writable _ _ _ _ _ (vformat_save_line _ c _) Hw).
    unfold save_line. rewrite Hc.
    destruct (ll_level ll <=? 0).
    + unfold fputs. rewrite stream_write_writable by (apply wrote_writable, Hw).
      simpl. rewrite IH by (try assumption; do 2 apply wrote_writable; exact Hw).
      rewrite !wrote_wrote. f_equal. f_equal; [lia|].
      f_equal. rewrite !append_assoc. reflexivity.
    + simpl. rewrite IH by (try assumption; apply wrote_writable; exact Hw).
      rewrite !wrote_wrote. f_equal. f_equal; [lia|].
      f_equal. rewrite append_nil_r. reflexivity.
Qed.

(** On a stream whose writes fail, the loop is defined for levels in range
    and counts every element all the same; nothing is written, and the
    error number of the failed writes is left in [errno]. *)
Lemma log_queue_save_loop_failing fp (st : stream) (err : Z) nodes :
  forall count e,
    streams e !! fp = Some st -> st_open st = true -> st_fail st = Some err ->
    levels_in_range nodes ->
    log_queue_save_loop fp nodes count e =
      Some (count + Z.of_nat (length nodes),
            match nodes with
            | [] => e
            | _ :: _ => set_errno err e
            end).
Proof.
  induction nodes as [|ll rest IH]; intros count e Hst Hopen Hfail Hlevels.
  - simpl. unfold ret. do 2 f_equal. lia.
  - inversion Hlevels as [|? ? Hll Hrest]; subst.
    destruct (char_at_LevelAbbr _ Hll) as [c Hc].
    assert (Hwrite : forall s, stream_write fp s (set_errno err e)
                               = Some (-1, set_errno err e))
      by (intros s; apply (stream_write_failing fp s (set_errno err e) st err);
          assumption).
    assert (Hrest' : log_queue_save_loop fp rest (count + 1) (set_errno err e)
                     = Some (count + Z.of_nat (length (ll :: rest)), set_errno err e)).
    { rewrite (IH (count + 1) (set_errno err e)) by assumption.
      f_equal. f_equal; [simpl length; lia|]. destruct rest; reflexivity. }
    simpl log_queue_save_loop. unfold bind, defined. rewrite Hc.
    unfold fprintf, bind, defined. rewrite vformat_save_line.
    rewrite (stream_write_failing fp _ e st err) by assumption.
    destruct (ll_level ll <=? 0).
    + unfold fputs. rewrite Hwrite. unfold ret. exact Hrest'.
    + unfold ret. exact Hrest'.
Qed.

End Save.

(** What holds of a save for every destination and state: a save that
    returns leaves the queue as it was; with a NULL destination it returns 0
    at once and touches nothing; on an empty queue it returns 0 and writes
    nothing; with a destination it returns the number of Records of the
    queue; and on a destination that takes the writes (levels within
    PERROR..DEBUG5) it is defined and has written exactly their snapshot
    lines, in order. *)
Theorem log_queue_save_keeps_queue :
  forall (fp : option nat) (e : Env) (q : Queue),
    (forall r w', log_queue_save fp (e, q) = Some (r, w') -> snd w' = q) /\
    log_queue_save None (e, q) = Some (0, (e, q)) /\
    (LogQueue q = [] -> log_queue_save fp (e, q) = Some (0, (e, q))) /\
    (forall f r w',
       fp = Some f -> log_queue_save fp (e, q) = Some (r, w') ->
       r = Z.of_nat (length (LogQueue q))) /\
    (forall f,
       fp = Some f -> writable f e -> levels_in_range (LogQueue q) ->
       log_queue_save fp (e, q) =
         Some (Z.of_nat (length (LogQueue q)),
               (wrote f (save_text (LogQueue q)) e, q))).
Proof.
  intros fp e q. repeat split.
  - intros r w' Hrun. destruct fp as [f|].
    + unfold log_queue_save, bind, gets, on_env in Hrun; simpl in Hrun.
      destruct (log_queue_save_loop f (LogQueue q) 0 e) as [[r' e']|]; [|discriminate].
      inversion Hrun. reflexivity.
    + inversion Hrun. reflexivity.
  - intros Hempty. destruct fp as [f|]; [|reflexivity].
    unfold log_queue_save, bind, gets, on_env; simpl. rewrite Hempty. reflexivity.
  - intros f r w' -> Hrun.
    unfold log_queue_save, bind, gets, on_env in Hrun; simpl in Hrun.
    destruct (log_queue_save_loop f (LogQueue q) 0 e) as [[r' e']|] eqn:Hloop; [|discriminate].
    inversion Hrun; subst. apply log_queue_save_loop_counts in Hloop. lia.
  - intros f -> Hw Hlevels.
    unfold log_queue_save, bind, gets, on_env; simpl.
    rewrite log_queue_save_loop_writes by assumption. reflexivity.
Qed.

(** C7 (save).  The code does not return the number of Records written:
    the loop counts every Record it visits without looking at the result of
    the write.  On a destination whose writes fail, a save of a queue that
    is not empty (levels within PERROR..DEBUG5) returns the number of the
    Records of the queue, which is not 0, although nothing has been
    written: the streams are as they were, and [errno] holds the error
    number of the failed writes.  The queue is left as it was. *)
Theorem log_queue_save_counts_failed_writes
    (f : nat) (st : stream) (err : Z) (e : Env) (q : Queue) :
  streams e !! f = Some st -> st_open st = true -> st_fail st = Some err ->
  levels_in_range (LogQueue q) -> LogQueue q <> [] ->
  exists e',
    log_queue_save (Some f) (e, q) = Some (Z.of_nat (length (LogQueue q)), (e', q)) /\
    0 < Z.of_nat (length (LogQueue q)) /\
    streams e' = streams e /\ written f e' = written f e /\ errno e' = err.
Proof.
  intros Hst Hopen Hfail Hlevels Hne.
  exists (set_errno err e). split; [|split; [|split; [|split]]]; try reflexivity.
  - unfold log_queue_save, bind, gets, on_env. cbn [fst snd].
    rewrite (log_queue_save_loop_failing f st err) by assumption.
    destruct (LogQueue q) as [|ll rest]; [contradiction|]. reflexivity.
  - destruct (LogQueue q); [contradiction | simpl length; lia].
Qed.

(** A, B and C saved to the log file on the full disk: 3, and an empty
    file. *)
Lemma log_queue_save_counts_failed_writes_witness :
  exists e',
    log_queue_save (Some 1%nat) (env_disk_full, mk_Queue [line_A; line_B; line_C] 3 0)
      = Some (Z.of_nat (length (LogQueue (mk_Queue [line_A; line_B; line_C] 3 0))),
              (e', mk_Queue [line_A; line_B; line_C] 3 0)) /\
    0 < Z.of_nat (length (LogQueue (mk_Queue [line_A; line_B; line_C] 3 0))) /\
    streams e' = streams env_disk_full /\
    written 1 e' = written 1 env_disk_full /\ errno e' = ENOSPC.
Proof.
  apply (log_queue_save_counts_failed_writes
           1 (mk_stream "/tmp/neomutt.log" true (Some ENOSPC) "") ENOSPC
           env_disk_full (mk_Queue [line_A; line_B; line_C] 3 0)).
  - reflexivity.
  - reflexivity.
  - reflexivity.
  - repeat constructor; vm_compute; discriminate.
  - discriminate.
Defined.

(** The same save, run. *)
Example log_queue_save_disk_full_run :
  exists e',
    log_queue_save (Some 1%nat) (env_disk_full, mk_Queue [line_A; line_B; line_C] 3 0)
      = Some (3, (e', mk_Queue [line_A; line_B; line_C] 3 0)) /\
    written 1 e' = "".
Proof. eexists. split; [vm_compute; reflexivity | reflexivity]. Qed.

(** ** Reasoning about computations *)

Section WP.

Context {S : Type}.

Lemma wp_ret {A} (a : A) (Q : A -> S -> Prop) s : Q a s -> wp (ret a) Q s.
Proof. intros H. exact H. Qed.

Lemma wp_bind {A B} (m : M S A) (k : A -> M S B) (Q : B -> S -> Prop) s :
  wp m (fun a s' => wp (k a) Q s') s -> wp (bind m k) Q s.
Proof.
  unfold wp, bind. destruct (m s) as [[a s']|]; intros H; exact H.
Qed.

Lemma wp_gets {A} (f : S -> A) (Q : A -> S -> Prop) s : Q (f s) s -> wp (gets f) Q s.
Proof. intros H. exact H. Qed.

Lemma wp_modify (f : S -> S) (Q : unit -> S -> Prop) s : Q tt (f s) -> wp (modify f) Q s.
Proof. intros H. exact H. Qed.

Lemma wp_defined {A} (o : option A) (a : A) (Q : A -> S -> Prop) s :
  o = Some a -> Q a s -> wp (defined o) Q s.
Proof. intros -> H. exact H. Qed.

Lemma wp_mono {A} (m : M S A) (Q Q' : A -> S -> Prop) s :
  wp m Q s -> (forall a s', Q a s' -> Q' a s') -> wp m Q' s.
Proof.
  unfold wp. destruct (m s) as [[a s']|]; intros H HQ; [apply HQ, H | exact H].
Qed.

Lemma wp_elim {A} (m : M S A) (Q : A -> S -> Prop) s :
  wp m Q s -> exists a s', m s = Some (a, s') /\ Q a s'.
Proof.
  unfold wp. destruct (m s) as [[a s']|]; intros H; [eauto | contradiction].
Qed.

Lemma wp_run {A} (m : M S A) (Q : A -> S -> Prop) s a s' :
  wp m Q s -> m s = Some (a, s') -> Q a s'.
Proof. unfold wp. intros H Hrun. rewrite Hrun in H. exact H. Qed.

Lemma wp_intro {A} (m : M S A) (Q : A -> S -> Prop) s a s' :
  m s = Some (a, s') -> Q a s' -> wp m Q s.
Proof. unfold wp. intros -> H. exact H. Qed.

End WP.

(** One step of a computation; [wp_steps] runs through the binds, reads and
    updates up to the next call. *)
Ltac wp_step :=
  cbv beta;
  lazymatch goal with
  | |- wp (bind _ _) _ _ => apply wp_bind
  | |- wp (gets _) _ _ => apply wp_gets
  | |- wp (modify _) _ _ => apply wp_modify
  | |- wp (ret _) _ _ => apply wp_ret
  end.

Ltac wp_steps := repeat wp_step; cbv beta.

(** ** The frame of the primitives *)

Section Frames.

Implicit Types (e : Env) (fp : nat) (s : string).

Lemma same_inputs_refl e : same_inputs e e.
Proof. repeat split. Qed.

Lemma same_inputs_trans e1 e2 e3 :
  same_inputs e1 e2 -> same_inputs e2 e3 -> same_inputs e1 e3.
Proof.
  unfold same_inputs. intros (?&?&?&?&?&?) (?&?&?&?&?&?).
  repeat split; congruence.
Qed.

Lemma same_globals_refl e : same_globals e e.
Proof. repeat split. Qed.

Lemma same_globals_trans e1 e2 e3 :
  same_globals e1 e2 -> same_globals e2 e3 -> same_globals e1 e3.
Proof.
  intros [Hfp12 H12] [Hfp23 H23]. split; [congruence|].
  eapply same_inputs_trans; eassumption.
Qed.

Lemma streams_kept_aged e e' : streams_kept e e' -> streams_aged e e'.
Proof.
  intros [Hlen Hkept]. split; [exact Hlen|]. intros i st Hst.
  destruct (Hkept _ _ Hst) as (st' & Hst' & Hp & Ho & Hf).
  exists st'. repeat split; congruence.
Qed.

Lemma streams_aged_refl e : streams_aged e e.
Proof. split; [lia|]. intros i st Hst. exists st. auto. Qed.

Lemma streams_aged_trans e1 e2 e3 :
  streams_aged e1 e2 -> streams_aged e2 e3 -> streams_aged e1 e3.
Proof.
  intros [Hlen12 H12] [Hlen23 H23]. split; [lia|].
  intros i st Hst. destruct (H12 _ _ Hst) as (st2 & Hst2 & Hp & Hf & Ho).
  destruct (H23 _ _ Hst2) as (st3 & Hst3 & Hp3 & Hf3 & Ho3).
  exists st3. repeat split; try congruence. auto.
Qed.

Lemma streams_aged_closed e e' fp : streams_aged e e' -> closed fp e -> closed fp e'.
Proof.
  intros [_ Haged] (st & Hst & Hclosed).
  destruct (Haged _ _ Hst) as (st' & Hst' & _ & _ & Hopen).
  exists st'. split; [exact Hst'|].
  destruct (st_open st'); [|reflexivity]. rewrite Hopen in Hclosed by reflexivity.
  discriminate.
Qed.

Lemma streams_kept_refl e : streams_kept e e.
Proof. split; [lia|]. intros i st Hst. exists st. auto. Qed.

Lemma streams_kept_trans e1 e2 e3 :
  streams_kept e1 e2 -> streams_kept e2 e3 -> streams_kept e1 e3.
Proof.
  intros [Hlen12 H12] [Hlen23 H23]. split; [lia|].
  intros i st Hst. destruct (H12 _ _ Hst) as (st2 & Hst2 & Hp & Ho & Hf).
  destruct (H23 _ _ Hst2) as (st3 & Hst3 & Hp3 & Ho3 & Hf3).
  exists st3. repeat split; congruence.
Qed.

Lemma streams_kept_eq e e' : streams e' = streams e -> streams_kept e e'.
Proof.
  intros Heq. split; [rewrite Heq; lia|]. intros i st Hst. exists st.
  rewrite Heq. auto.
Qed.


Lemma timestamp_wp stamp (Q : string -> Env -> Prop) e :
  (forall ts e',
     same_globals e e' -> streams e' = streams e -> errno e' = errno e ->
     notices e' = notices e -> Q ts e') ->
  wp (timestamp stamp) Q e.
Proof.
  intros HQ. unfold wp, timestamp, bind, gets, modify, ret, time.
  destruct (stamp =? 0); simpl;
    match goal with |- context [negb ?c] => destruct c end; simpl;
    apply HQ; repeat split.
Qed.

Lemma stream_write_wp fp s (Q : Z -> Env -> Prop) e :
  (forall r e',
     same_globals e e' -> streams_kept e e' ->
     length (streams e') = length (streams e) ->
     (writable fp e /\ r = strlen s /\ e' = wrote fp s e) \/
     (~ writable fp e /\ r = -1 /\ streams e' = streams e) ->
     Q r e') ->
  wp (stream_write fp s) Q e.
Proof.
  intros HQ. unfold wp, stream_write.
  destruct (streams e !! fp) as [st|] eqn:Hst.
  - destruct (st_open st) eqn:Hopen; [destruct (st_fail st) as [err|] eqn:Hfail|].
    + apply HQ; try (repeat split; fail); [apply streams_kept_eq; reflexivity|].
      right. repeat split. intros (st' & Hst' & _ & Hf). congruence.
    + apply HQ; try (repeat split; fail).
      * split; simpl; [rewrite length_insert; lia|].
        intros i sti Hi. destruct (decide (fp = i)) as [->|Hne].
        -- rewrite list_lookup_insert_eq by (eapply lookup_lt_Some, Hst).
           eexists; split; [reflexivity|]. simpl.
           assert (sti = st) by congruence. subst. auto.
        -- rewrite list_lookup_insert_ne by exact Hne. exists sti. auto.
      * simpl. apply length_insert.
      * left. split; [exists st; auto|]. split; [reflexivity|].
        unfold wrote. rewrite Hst. reflexivity.
    + apply HQ; try (repeat split; fail); [apply streams_kept_eq; reflexivity|].
      right. repeat split. intros (st' & Hst' & Ho & _). congruence.
  - apply HQ; try (repeat split; fail); [apply streams_kept_eq; reflexivity|].
    right. repeat split. intros (st' & Hst' & _). congruence.
Qed.

Lemma fprintf_wp fp fmt ap s (Q : Z -> Env -> Prop) e :
  vformat fmt ap = Some s ->
  (forall r e',
     same_globals e e' -> streams_kept e e' ->
     length (streams e') = length (streams e) ->
     (writable fp e /\ r = strlen s /\ e' = wrote fp s e) \/
     (~ writable fp e /\ r = -1 /\ streams e' = streams e) ->
     Q r e') ->
  wp (fprintf fp fmt ap) Q e.
Proof.
  intros Hfmt HQ. unfold fprintf. apply wp_bind.
  apply (wp_defined _ s); [exact Hfmt|]. apply stream_write_wp, HQ.
Qed.

Lemma isatty_stderr_wp (Q : Z -> Env -> Prop) e :
  Q (if stderr_tty e then 1 else 0) (if stderr_tty e then e else set_errno ENOTTY e) ->
  wp isatty_stderr Q e.
Proof.
  unfold wp, isatty_stderr, bind, gets, modify, ret. destruct (stderr_tty e); auto.
Qed.

Lemma mutt_message_wp fmt ap (Q : unit -> Env -> Prop) e :
  (forall e',
     same_globals e e' -> streams e' = streams e -> errno e' = errno e -> Q tt e') ->
  wp (mutt_message fmt ap) Q e.
Proof. intros HQ. apply HQ; repeat split. Qed.

End Frames.

(** ** Opening and closing the log file *)

Section LogFile.

Implicit Types (e : Env) (fp : nat) (s : string) (verbose : bool).

Lemma mutt_file_fclose_wp (Q : unit -> Env -> Prop) e :
  (forall e',
     LogFileFP e' = None -> same_inputs e e' -> streams_aged e e' ->
     length (streams e') = length (streams e) ->
     (forall f, LogFileFP e = Some f -> (f < length (streams e))%nat -> closed f e') ->
     Q tt e') ->
  wp mutt_file_fclose_LogFileFP Q e.
Proof.
  intros HQ. unfold wp, mutt_file_fclose_LogFileFP, bind, gets, modify, fclose, ret.
  destruct (LogFileFP e) as [f|] eqn:Hfp; simpl.
  - destruct (streams e !! f) as [st|] eqn:Hst; simpl.
    + apply HQ; simpl; try (repeat split; fail).
      * split; simpl; [rewrite length_insert; lia|].
        intros i sti Hi. destruct (decide (f = i)) as [->|Hne].
        -- rewrite list_lookup_insert_eq by (eapply lookup_lt_Some, Hst).
           eexists; split; [reflexivity|]. simpl.
           assert (sti = st) by congruence. subst. repeat split. discriminate.
        -- rewrite list_lookup_insert_ne by exact Hne. exists sti. auto.
      * apply length_insert.
      * intros f' Hf' Hlt. inversion Hf'; subst f'.
        eexists. split; [apply list_lookup_insert_eq; exact Hlt | reflexivity].
    + apply HQ; simpl; try (repeat split; fail).
      * apply streams_kept_aged, streams_kept_eq. reflexivity.
      * intros f' Hf' Hlt. inversion Hf'; subst f'.
        apply lookup_lt_is_Some_2 in Hlt. destruct Hlt as [st Hst']. congruence.
  - apply HQ; simpl; try (repeat split; fail).
    + apply streams_kept_aged, streams_kept_eq. reflexivity.
    + intros f' Hf'. discriminate.
Qed.

Lemma fopen_wp path mode (Q : option nat -> Env -> Prop) e :
  (forall r e',
     same_globals e e' -> streams_kept e e' -> notices e' = notices e ->
     (fopen_errno path (unopenable e) = None /\
      r = Some (length (streams e)) /\
      streams e' = streams e ++ [mk_stream path true None ""]) \/
     (exists err, fopen_errno path (unopenable e) = Some err /\
      r = None /\ streams e' = streams e) ->
     Q r e') ->
  wp (mutt_file_fopen path mode) Q e.
Proof.
  intros HQ. unfold wp, mutt_file_fopen, fopen.
  destruct (fopen_errno path (unopenable e)) as [err|] eqn:Herr.
  - apply HQ; try (repeat split; fail); [apply streams_kept_eq; reflexivity|].
    right. exists err. auto.
  - apply HQ; try (repeat split; fail).
    + split; simpl; [rewrite length_app; lia|].
      intros i st Hst. exists st. rewrite lookup_app_l by (eapply lookup_lt_Some, Hst).
      auto.
    + left. auto.
Qed.

(** Closing: afterwards there is no handle, and the stream the handle
    pointed to is closed; nothing else of the log file changes. *)
Lemma log_file_close_wp verbose (Q : unit -> Env -> Prop) e :
  (forall e',
     LogFileFP e' = None -> same_inputs e e' -> streams_aged e e' ->
     length (streams e') = length (streams e) ->
     (forall f, LogFileFP e = Some f -> (f < length (streams e))%nat -> closed f e') ->
     (LogFileFP e = None -> e' = e) ->
     Q tt e') ->
  wp (log_file_close verbose) Q e.
Proof.
  intros HQ. unfold log_file_close. wp_steps.
  destruct (LogFileFP e) as [f|] eqn:Hfp.
  - wp_steps. apply timestamp_wp. intros ts e1 [Hfp1 Hin1] Hs1 _ _.
    wp_steps. eapply fprintf_wp; [reflexivity|]. intros r e2 [Hfp2 Hin2] Hs2 Hlen2 _.
    wp_steps. apply mutt_file_fclose_wp. intros e3 Hfp3 Hin3 Hs3 Hlen3 Hclosed3.
    assert (Hin : same_inputs e e3)
      by (eapply same_inputs_trans; [|exact Hin3];
          eapply same_inputs_trans; eassumption).
    assert (Hs : streams_aged e e3).
    { eapply streams_aged_trans; [|exact Hs3].
      eapply streams_aged_trans; [|apply streams_kept_aged, Hs2].
      apply streams_kept_aged, streams_kept_eq, Hs1. }
    assert (Hlen : length (streams e3) = length (streams e)) by congruence.
    assert (Hclosed : forall f0, Some f = Some f0 ->
                        (f0 < length (streams e))%nat -> closed f0 e3).
    { intros f0 Hf0 Hlt. apply Hclosed3; [congruence|]. rewrite Hlen2, Hs1. exact Hlt. }
    destruct verbose.
    + wp_steps. apply mutt_message_wp. intros e4 [Hfp4 Hin4] Hs4 _.
      apply HQ.
      * congruence.
      * eapply same_inputs_trans; eassumption.
      * eapply streams_aged_trans; [exact Hs|].
        apply streams_kept_aged, streams_kept_eq, Hs4.
      * congruence.
      * intros f0 Hf0 Hlt. eapply streams_aged_closed;
          [apply streams_kept_aged, streams_kept_eq, Hs4 | auto].
      * discriminate.
    + wp_steps. apply HQ; auto. discriminate.
  - wp_steps. apply HQ; try (repeat split; fail).
    + exact Hfp.
    + apply streams_aged_refl.
    + intros f Hf. discriminate.
Qed.

(** Opening: without a file name nothing happens; with one, a handle that
    was open is closed first, and then either a fresh stream on that path is
    the handle, or there is no handle. *)
Lemma log_file_open_wp verbose (Q : Z -> Env -> Prop) e :
  (LogFileName e = None -> Q (-1) e) ->
  (forall path r e',
     LogFileName e = Some path -> same_inputs e e' -> streams_aged e e' ->
     (forall f, LogFileFP e = Some f -> (f < length (streams e))%nat -> closed f e') ->
     (fopen_errno path (unopenable e) = None /\ r = 0 /\
      LogFileFP e' = Some (length (streams e)) /\
      exists st', streams e' !! length (streams e) = Some st' /\
                  st_open st' = true /\ st_path st' = path /\ st_fail st' = None) \/
     (fopen_errno path (unopenable e) <> None /\ r = -1 /\ LogFileFP e' = None) ->
     Q r e') ->
  wp (log_file_open verbose) Q e.
Proof.
  intros HQnone HQ. unfold log_file_open. wp_steps.
  destruct (LogFileName e) as [path|] eqn:Hname; [|wp_steps; auto].
  wp_steps.
  apply (wp_mono _ (fun _ e1 =>
           LogFileFP e1 = None /\ same_inputs e e1 /\ streams_aged e e1 /\
           length (streams e1) = length (streams e) /\
           (forall f, LogFileFP e = Some f -> (f < length (streams e))%nat ->
                      closed f e1))).
  { destruct (LogFileFP e) as [f|] eqn:Hfp.
    - apply log_file_close_wp. intros e1 ? ? ? ? Hclosed _.
      split; [assumption|]. split; [assumption|]. split; [assumption|].
      split; [assumption|].
      intros f0 Hf0 Hlt. apply Hclosed; [congruence | exact Hlt].
    - wp_steps. split; [assumption|]. split; [apply same_inputs_refl|].
      split; [apply streams_aged_refl|]. split; [reflexivity|]. discriminate. }
  intros _ e1 (Hfp1 & Hin1 & Hs1 & Hlen1 & Hclosed1).
  wp_steps. apply fopen_wp. intros r e2 [Hfp2 Hin2] Hs2 _ Hopen.
  assert (Hin : same_inputs e e2) by (eapply same_inputs_trans; eassumption).
  assert (Hs : streams_aged e e2)
    by (eapply streams_aged_trans; [exact Hs1 | apply streams_kept_aged, Hs2]).
  assert (Hun : unopenable e1 = unopenable e) by apply Hin1.
  rewrite Hun, Hlen1 in Hopen.
  wp_steps.
  destruct Hopen as [(Hok & -> & Hstreams2) | (err & Herr & -> & Hstreams2)].
  - wp_steps. apply timestamp_wp. intros ts e3 [Hfp3 Hin3] Hs3 _ _.
    wp_steps.
    eapply fprintf_wp; [reflexivity|]. intros n e4 [Hfp4 Hin4] Hs4 Hlen4 Hwrite.
    simpl in Hfp3, Hin3, Hs3.
    assert (Hnew : streams e3 !! length (streams e)
                   = Some (mk_stream path true None "")).
    { rewrite Hs3, Hstreams2, lookup_app_r by lia.
      rewrite Hlen1, Nat.sub_diag. reflexivity. }
    assert (Hw : writable (length (streams e)) e3)
      by (eexists; split; [exact Hnew | split; reflexivity]).
    destruct Hwrite as [(_ & _ & He4) | (Hnw & _)]; [|contradiction].
    assert (Hfinal : forall e5,
              same_globals e4 e5 -> streams e5 = streams e4 -> Q 0 e5).
    { intros e5 [Hfp5 Hin5] Hs5. eapply HQ; [reflexivity| | | |].
      - eapply same_inputs_trans; [|exact Hin5].
        eapply same_inputs_trans; [|exact Hin4].
        eapply same_inputs_trans; [exact Hin|].
        destruct Hin3 as (?&?&?&?&?&?). repeat split; assumption.
      - eapply streams_aged_trans; [exact Hs|].
        eapply streams_aged_trans; [apply streams_kept_aged, streams_kept_eq; exact Hs3|].
        eapply streams_aged_trans; [apply streams_kept_aged, Hs4|].
        apply streams_kept_aged, streams_kept_eq, Hs5.
      - intros f Hf Hlt. specialize (Hclosed1 f Hf Hlt).
        eapply streams_aged_closed; [|exact Hclosed1].
        eapply streams_aged_trans; [apply streams_kept_aged, Hs2|].
        eapply streams_aged_trans; [apply streams_kept_aged, streams_kept_eq; exact Hs3|].
        eapply streams_aged_trans; [apply streams_kept_aged, Hs4|].
        apply streams_kept_aged, streams_kept_eq, Hs5.
      - left. split; [exact Hok|]. split; [reflexivity|]. split.
        + rewrite Hfp5, Hfp4, Hfp3. reflexivity.
        + rewrite Hs5, He4. unfold wrote. rewrite Hnew. simpl.
          rewrite list_lookup_insert_eq by (eapply lookup_lt_Some, Hnew).
          eexists. split; [reflexivity|]. auto. }
    destruct verbose.
    + wp_steps. apply mutt_message_wp. intros e5 Hg5 Hs5 _. wp_steps.
      apply Hfinal; assumption.
    + wp_steps. apply Hfinal; [apply same_globals_refl | reflexivity].
  - wp_steps. eapply HQ; [reflexivity| | | |].
    + destruct Hin as (?&?&?&?&?&?). repeat split; assumption.
    + eapply streams_aged_trans; [exact Hs|].
      apply streams_kept_aged, streams_kept_eq. reflexivity.
    + intros f Hf Hlt. specialize (Hclosed1 f Hf Hlt).
      eapply streams_aged_closed; [|exact Hclosed1].
      eapply streams_aged_trans; [apply streams_kept_aged, Hs2|].
      apply streams_kept_aged, streams_kept_eq. reflexivity.
    + right. split; [congruence|]. split; reflexivity.
Qed.

Lemma mutt_str_strcmp_eq (a b : option string) :
  mutt_str_strcmp a b = 0 <-> NONULL a = NONULL b.
Proof.
  unfold mutt_str_strcmp. split.
  - intros H. destruct (NONULL a ?= NONULL b)%string eqn:Hcmp; try lia.
    apply String.compare_eq_iff, Hcmp.
  - intros ->. pose proof (String.compare_antisym (NONULL b) (NONULL b)) as Hanti.
    destruct (NONULL b ?= NONULL b)%string; simpl in Hanti;
      first [reflexivity | discriminate].
Qed.

Lemma mutt_str_strdup_NONULL (a : option string) :
  NONULL (mutt_str_strdup a) = NONULL a.
Proof. destruct a as [[|c a]|]; reflexivity. Qed.

(** The invariant through the operations that respect it. *)
Lemma log_file_close_keeps_invariant verbose e :
  wp (log_file_close verbose) (fun _ e' => handle_has_name e') e.
Proof.
  apply log_file_close_wp. intros e' Hfp _ _ _ _ _ Hhas. congruence.
Qed.

Lemma log_file_open_keeps_invariant verbose e :
  handle_has_name e -> wp (log_file_open verbose) (fun _ e' => handle_has_name e') e.
Proof.
  intros Hinv. apply log_file_open_wp.
  - intros _. exact Hinv.
  - intros path r e' Hname (Hname' & _) _ _ _ _. congruence.
Qed.

Lemma log_file_set_level_keeps_invariant level e :
  handle_has_name e ->
  wp (log_file_set_level level) (fun _ e' => handle_has_name e') e.
Proof.
  intros Hinv. unfold log_file_set_level.
  destruct ((level <? 0) || (level >? 5)); [wp_steps; exact Hinv|].
  wp_steps. destruct (level =? LogFileLevel e); [wp_steps; exact Hinv|].
  wp_steps.
  assert (Hinv' : handle_has_name (set_LogFileLevel level e)) by exact Hinv.
  destruct (level =? 0).
  - eapply wp_mono; [apply log_file_close_keeps_invariant|].
    intros ? e' He'. wp_steps. exact He'.
  - wp_steps. simpl. destruct (LogFileFP e) as [f|] eqn:Hfp.
    + wp_steps. apply mutt_message_wp. intros e' [Hfp' (Hname' & _)] _ _.
      wp_steps. unfold handle_has_name in *. simpl in *.
      rewrite Hname'. intros _. apply Hinv. congruence.
    + wp_steps.
      eapply wp_mono; [apply log_file_open_keeps_invariant, Hinv'|].
      intros ? e' He'. wp_steps. exact He'.
Qed.

Lemma log_file_set_filename_keeps_invariant new e :
  new <> "" ->
  wp (log_file_set_filename (Some new)) (fun _ e' => handle_has_name e') e.
Proof.
  intros Hnew. unfold log_file_set_filename. wp_steps.
  destruct (mutt_str_strcmp (LogFileName e) (Some new) =? 0) eqn:Hcmp.
  - wp_steps. apply Z.eqb_eq, mutt_str_strcmp_eq in Hcmp. simpl in Hcmp.
    intros _ Hnone. rewrite Hnone in Hcmp. simpl in Hcmp. congruence.
  - wp_steps. simpl. destruct (LogFileFP e) as [f|] eqn:Hfp.
    + wp_steps. apply log_file_open_wp.
      * simpl. destruct new; [contradiction | discriminate].
      * intros path r e' _ (Hname' & _) _ _ _. wp_steps.
        intros _. rewrite Hname'. simpl. destruct new; [contradiction | discriminate].
    + wp_steps. intros Hhas. simpl in Hhas. congruence.
Qed.

End LogFile.

(** C1 (handle only with a file name).  The code breaks the invariant: on
    a log file that is open under a name, [log_file_set_filename(NULL)]
    returns 0, drops the name and leaves the handle as it is, because
    [log_file_open] gives up on the NULL name before it closes anything.
    Afterwards there is a handle and no file name. *)
Theorem log_file_set_filename_null_keeps_handle (e : Env) (f : nat) (name : string) :
  LogFileFP e = Some f -> LogFileName e = Some name -> name <> "" ->
  handle_has_name e /\
  log_file_set_filename None e = Some (0, set_LogFileName None e) /\
  LogFileFP (set_LogFileName None e) = Some f /\
  LogFileName (set_LogFileName None e) = None /\
  streams (set_LogFileName None e) = streams e /\
  ~ handle_has_name (set_LogFileName None e).
Proof.
  intros Hfp Hname Hne. split; [intros _; congruence|]. split.
  - unfold log_file_set_filename, bind, gets, modify, ret. rewrite Hname.
    destruct (mutt_str_strcmp (Some name) None =? 0) eqn:Hcmp.
    + apply Z.eqb_eq, mutt_str_strcmp_eq in Hcmp. simpl in Hcmp. contradiction.
    + simpl. rewrite Hfp. reflexivity.
  - simpl. repeat split; try assumption.
    intros Hinv. apply Hinv; simpl; congruence.
Qed.

Lemma log_file_set_filename_null_keeps_handle_witness :
  handle_has_name (env_logging 0) /\
  log_file_set_filename None (env_logging 0)
    = Some (0, set_LogFileName None (env_logging 0)) /\
  LogFileFP (set_LogFileName None (env_logging 0)) = Some 1%nat /\
  LogFileName (set_LogFileName None (env_logging 0)) = None /\
  streams (set_LogFileName None (env_logging 0)) = streams (env_logging 0) /\
  ~ handle_has_name (set_LogFileName None (env_logging 0)).
Proof.
  apply (log_file_set_filename_null_keeps_handle (env_logging 0) 1 "/tmp/neomutt.log").
  - reflexivity.
  - reflexivity.
  - discriminate.
Defined.

(** The design document's description of setFilename does not hold of the
    code: with the log file open, a change of the file name to NULL closes
    nothing and opens nothing. *)
Lemma set_filename_as_stated_fails : ~ set_filename_as_stated.
Proof.
  intros Hclaim.
  destruct (Hclaim None (env_logging 0)) as (_ & _ & Hreopen).
  destruct (Hreopen 1%nat (mk_stream "/tmp/neomutt.log" true None ""))
    as (e' & Hrun & st & Hst & Hclosed); try reflexivity; try discriminate.
  vm_compute in Hrun. inversion Hrun; subst e'; clear Hrun.
  vm_compute in Hst. inversion Hst; subst st. discriminate Hclosed.
Qed.

(** What holds of the description: when the new name compares equal to
    the current one (both NULL included) [log_file_set_filename] changes
    nothing and returns 0; when it differs and there is no handle it
    records the name and returns -1; when it differs, is not NULL or empty,
    and there is a handle, it returns 0 after a re-open: the old stream is
    closed, and the handle is a fresh stream on the new name, or NULL if
    that cannot be opened. *)
Theorem log_file_set_filename_cases :
  forall (file : option string) (e : Env),
    (mutt_str_strcmp (LogFileName e) file = 0 ->
       log_file_set_filename file e = Some (0, e)) /\
    (mutt_str_strcmp (LogFileName e) file <> 0 -> LogFileFP e = None ->
       log_file_set_filename file e
         = Some (-1, set_LogFileName (mutt_str_replace file) e) /\
       NONULL (mutt_str_replace file) = NONULL file) /\
    (forall new f st,
       file = Some new -> new <> "" ->
       mutt_str_strcmp (LogFileName e) file <> 0 -> LogFileFP e = Some f ->
       streams e !! f = Some st -> st_open st = true ->
       exists e',
         log_file_set_filename file e = Some (0, e') /\
         LogFileName e' = Some new /\ closed f e' /\
         ((fopen_errno new (unopenable e) = None /\
           LogFileFP e' = Some (length (streams e)) /\
           exists st', streams e' !! length (streams e) = Some st' /\
                       st_open st' = true /\ st_path st' = new)
          \/ (fopen_errno new (unopenable e) <> None /\ LogFileFP e' = None))).
Proof.
  intros file e. split; [|split].
  - intros Hcmp. unfold log_file_set_filename, bind, gets, ret.
    rewrite Hcmp. reflexivity.
  - intros Hcmp Hfp. split; [|apply mutt_str_strdup_NONULL].
    unfold log_file_set_filename, bind, gets, modify, ret.
    apply Z.eqb_neq in Hcmp. rewrite Hcmp. simpl. rewrite Hfp. reflexivity.
  - intros new f st -> Hnew Hcmp Hfp Hst Hopen.
    assert (Hdup : mutt_str_replace (Some new) = Some new)
      by (destruct new; [contradiction | reflexivity]).
    assert (Hlt : (f < length (streams e))%nat) by (eapply lookup_lt_Some, Hst).
    cut (wp (log_file_set_filename (Some new))
            (fun r e' =>
               r = 0 /\ LogFileName e' = Some new /\ closed f e' /\
               ((fopen_errno new (unopenable e) = None /\
                 LogFileFP e' = Some (length (streams e)) /\
                 exists st', streams e' !! length (streams e) = Some st' /\
                             st_open st' = true /\ st_path st' = new)
                \/ (fopen_errno new (unopenable e) <> None /\ LogFileFP e' = None)))
            e).
    { intros Hwp. apply wp_elim in Hwp. destruct Hwp as (r & e' & Hrun & -> & Hpost).
      exists e'. split; [exact Hrun | exact Hpost]. }
    unfold log_file_set_filename. wp_steps.
    apply Z.eqb_neq in Hcmp. rewrite Hcmp, Hdup. wp_steps. simpl. rewrite Hfp.
    wp_steps. apply log_file_open_wp; simpl; [discriminate|].
    intros path r e' Hpath (Hname' & _) _ Hclosed Hresult. inversion Hpath; subst path.
    wp_steps. split; [reflexivity|]. split; [exact Hname'|].
    split; [apply Hclosed; assumption|].
    destruct Hresult as [(Hok & _ & Hfp' & st' & Hst' & Hopen' & Hpath' & _)
                        | (Herr & _ & Hfp')].
    + left. eauto 10.
    + right. auto.
Qed.

(** C9 (setFilename).  The code misses the re-open for one change of name:
    on a log file that is open under a name, [log_file_set_filename(NULL)]
    returns 0, "success, file opened", but closes nothing and opens
    nothing: the streams are as they were and the handle is the old one,
    still open.  Every other change of name on the same state does what
    the description says: the old stream is closed and the handle is no
    longer the old one. *)
Theorem log_file_set_filename_null_skips_reopen
    (e : Env) (f : nat) (st : stream) (name : string) :
  LogFileFP e = Some f -> LogFileName e = Some name -> name <> "" ->
  streams e !! f = Some st -> st_open st = true ->
  (exists e',
     log_file_set_filename None e = Some (0, e') /\
     streams e' = streams e /\ LogFileFP e' = Some f /\ ~ closed f e' /\
     notices e' = notices e) /\
  (forall new,
     new <> "" -> new <> name ->
     exists e',
       log_file_set_filename (Some new) e = Some (0, e') /\
       closed f e' /\ LogFileFP e' <> Some f).
Proof.
  intros Hfp Hname Hne Hst Hopen. split.
  - exists (set_LogFileName None e). split; [|split; [|split; [|split]]].
    + unfold log_file_set_filename, bind, gets, modify, ret. rewrite Hname.
      destruct (mutt_str_strcmp (Some name) None =? 0) eqn:Hcmp.
      * apply Z.eqb_eq, mutt_str_strcmp_eq in Hcmp. simpl in Hcmp. contradiction.
      * simpl. rewrite Hfp. reflexivity.
    + reflexivity.
    + exact Hfp.
    + intros (st' & Hst' & Hclosed). simpl in Hst'. congruence.
    + reflexivity.
  - intros new Hnew Hdiff.
    assert (Hlt : (f < length (streams e))%nat) by (eapply lookup_lt_Some, Hst).
    destruct (log_file_set_filename_cases (Some new) e) as (_ & _ & Hreopen).
    destruct (Hreopen new f st eq_refl Hnew) as (e' & Hrun & _ & Hclosed & Hhandle);
      try assumption.
    { rewrite Hname, mutt_str_strcmp_eq. simpl. congruence. }
    exists e'. split; [exact Hrun|]. split; [exact Hclosed|].
    destruct Hhandle as [(_ & Hfp' & _) | (_ & Hfp')]; rewrite Hfp'.
    + intros H. inversion H. lia.
    + discriminate.
Qed.

(** The log file is open as /tmp/neomutt.log, and the name is set to
    NULL. *)
Lemma log_file_set_filename_null_skips_reopen_witness :
  (exists e',
     log_file_set_filename None (env_logging 0) = Some (0, e') /\
     streams e' = streams (env_logging 0) /\ LogFileFP e' = Some 1%nat /\
     ~ closed 1 e' /\ notices e' = notices (env_logging 0)) /\
  (forall new,
     new <> "" -> new <> "/tmp/neomutt.log" ->
     exists e',
       log_file_set_filename (Some new) (env_logging 0) = Some (0, e') /\
       closed 1 e' /\ LogFileFP e' <> Some 1%nat).
Proof.
  apply (log_file_set_filename_null_skips_reopen
           (env_logging 0) 1 (mk_stream "/tmp/neomutt.log" true None "")
           "/tmp/neomutt.log").
  - reflexivity.
  - reflexivity.
  - discriminate.
  - reflexivity.
  - reflexivity.
Defined.

(** Two runs of [log_file_set_filename] on an open log file. *)
Example log_file_set_filename_reopens :
  exists e',
    log_file_set_filename (Some "/tmp/other.log") (env_logging 0) = Some (0, e') /\
    LogFileName e' = Some "/tmp/other.log" /\ LogFileFP e' = Some 2%nat /\
    closed 1 e' /\ writable 2 e'.
Proof.
  eexists. split; [vm_compute; reflexivity|]. simpl.
  split; [reflexivity|]. split; [reflexivity|].
  split; eexists; (split; [reflexivity|]); simpl; auto.
Qed.

(** ** The file dispatcher *)

Section FileDispatcher.

Implicit Types (e : Env) (fp : nat) (s : string).

Lemma writable_streams_eq fp e e' :
  streams e' = streams e -> writable fp e -> writable fp e'.
Proof. unfold writable. intros ->. auto. Qed.

Lemma written_streams_eq fp e e' :
  streams e' = streams e -> written fp e' = written fp e.
Proof. unfold written. intros ->. reflexivity. Qed.

Lemma vformat_file_prefix (ts : string) (c : ascii) (function : option string) :
  vformat "[%s]<%c> %s() "
          [ArgS (Some ts); ArgC c;
           ArgS (match function with
                 | None => Some "UNKNOWN"
                 | Some _ => function
                 end)]
    = Some (file_prefix ts c function).
Proof. destruct function; reflexivity. Qed.

Lemma vformat_perror_suffix (s : string) :
  vformat (": %s" +:+ nl) [ArgS (Some s)] = Some (": " +:+ s +:+ nl).
Proof. reflexivity. Qed.

Lemma strlen_file_prefix (ts : string) (c : ascii) (function : option string) :
  1 <= strlen (file_prefix ts c function).
Proof.
  unfold file_prefix. rewrite strlen_append.
  pose proof (strlen_nonneg
    (ts +:+ "]<" +:+ String c "> "
        +:+ match function with Some f => f | None => "UNKNOWN" end +:+ "() ")).
  change (strlen "[") with 1. lia.
Qed.

(** Outside [PERROR .. LogFileLevel], and without a handle, a line is
    filtered: the result is 0 and nothing changes. *)
Lemma log_disp_file_filtered stamp file line function level fmt ap e :
  LogFileFP e = None \/ level < LL_PERROR \/ LogFileLevel e < level ->
  log_disp_file stamp file line function level fmt ap e = Some (0, e).
Proof.
  intros Hfilter. unfold log_disp_file, bind, gets, ret.
  destruct (LogFileFP e) as [f|]; [|reflexivity].
  destruct Hfilter as [Hnone | [Hlow | Hhigh]]; [discriminate| |].
  - replace (level <? LL_PERROR) with true by (symmetry; apply Z.ltb_lt; lia).
    reflexivity.
  - replace (level >? LogFileLevel e) with true by (symmetry; apply Z.gtb_lt; lia).
    rewrite orb_true_r. reflexivity.
Qed.

(** What a line that passes the filter does on a stream that takes the
    writes: the text that goes out, and the number that comes back. *)
Lemma log_disp_file_writes stamp file line function level fmt ap e f msg :
  LogFileFP e = Some f -> writable f e ->
  LL_PERROR <= level <= LogFileLevel e -> level <= LL_DEBUG5 ->
  vformat fmt ap = Some msg ->
  exists e' ts c,
    log_disp_file stamp file line function level fmt ap e
      = Some (strlen msg + (if (LL_PERROR <? level) && (level <=? 0) then 1 else 0), e') /\
    char_at LevelAbbr (level + 3) = Some c /\
    written f e' = written f e +:+ file_prefix ts c function +:+ msg
                   +:+ file_suffix level (errno e) /\
    same_globals e e'.
Proof.
  intros Hfp Hw [Hlow Hhigh] Hdebug Hfmt.
  destruct (char_at_LevelAbbr level (conj Hlow Hdebug)) as [c Hc].
  cut (wp (log_disp_file stamp file line function level fmt ap)
          (fun r e' =>
             r = strlen msg + (if (LL_PERROR <? level) && (level <=? 0) then 1 else 0) /\
             exists ts,
               written f e' = written f e +:+ file_prefix ts c function +:+ msg
                              +:+ file_suffix level (errno e) /\
               same_globals e e') e).
  { intros Hwp. apply wp_elim in Hwp.
    destruct Hwp as (r & e' & Hrun & -> & ts & Hwritten & Hsame).
    exists e', ts, c. auto. }
  unfold log_disp_file. wp_steps. rewrite Hfp.
  replace (level <? LL_PERROR) with false by (symmetry; apply Z.ltb_ge; lia).
  replace (level >? LogFileLevel e) with false
    by (symmetry; rewrite Z.gtb_ltb; apply Z.ltb_ge; lia).
  simpl orb. cbv iota. wp_steps.
  apply timestamp_wp. intros ts e1 Hg1 Hs1 Herr1 _.
  wp_steps. apply (wp_defined _ c); [exact Hc|].
  wp_steps. eapply fprintf_wp; [apply vformat_file_prefix|].
  assert (Hw1 : writable f e1) by (eapply writable_streams_eq; eassumption).
  intros n2 e2 Hg2 _ _ [(_ & _ & ->) | (Hnw & _)]; [|contradiction].
  wp_steps. eapply fprintf_wp; [exact Hfmt|].
  assert (Hw2 : writable f (wrote f (file_prefix ts c function) e1))
    by (apply wrote_writable, Hw1).
  intros n3 e3 Hg3 _ _ [(_ & -> & ->) | (Hnw & _)]; [|contradiction].
  assert (Hw3 : writable f (wrote f msg (wrote f (file_prefix ts c function) e1)))
    by (apply wrote_writable, Hw2).
  assert (Hg : same_globals e (wrote f msg (wrote f (file_prefix ts c function) e1)))
    by (eapply same_globals_trans; [|exact Hg3];
        eapply same_globals_trans; eassumption).
  unfold file_suffix. destruct (level =? LL_PERROR) eqn:Hperror.
  - wp_steps. eapply fprintf_wp; [apply vformat_perror_suffix|].
    intros n4 e4 Hg4 _ _ [(_ & _ & ->) | (Hnw & _)]; [|contradiction].
    wp_steps. apply Z.eqb_eq in Hperror. subst level. split; [simpl; lia|].
    exists ts. split; [|eapply same_globals_trans; eassumption].
    rewrite !wrote_wrote, wrote_written by exact Hw1.
    rewrite (written_streams_eq _ _ _ Hs1), ?append_assoc. reflexivity.
  - apply Z.eqb_neq in Hperror.
    replace (LL_PERROR <? level) with true by (symmetry; apply Z.ltb_lt; lia).
    simpl andb. destruct (level <=? 0).
    + wp_steps. unfold fputs. apply stream_write_wp.
      intros n4 e4 Hg4 _ _ [(_ & _ & ->) | (Hnw & _)]; [|contradiction].
      wp_steps. split; [reflexivity|].
      exists ts. split; [|eapply same_globals_trans; eassumption].
      rewrite !wrote_wrote, wrote_written by exact Hw1.
      rewrite (written_streams_eq _ _ _ Hs1), ?append_assoc. reflexivity.
    + wp_steps. split; [lia|].
      exists ts. split; [|exact Hg].
      rewrite !wrote_wrote, wrote_written by exact Hw1.
      rewrite (written_streams_eq _ _ _ Hs1), ?append_assoc, ?append_nil_r.
      reflexivity.
Qed.

Lemma fprintf_same_globals fp fmt ap e r e' :
  fprintf fp fmt ap e = Some (r, e') -> same_globals e e'.
Proof.
  unfold fprintf, bind, defined. destruct (vformat fmt ap) as [s|]; [|discriminate].
  apply (wp_run (stream_write fp s) (fun _ e' => same_globals e e')).
  apply stream_write_wp. auto.
Qed.

(** Whenever it is defined, the file dispatcher leaves the handle, the
    file name, the threshold and the version alone. *)
Lemma log_disp_file_same_globals stamp file line function level fmt ap e r e' :
  log_disp_file stamp file line function level fmt ap e = Some (r, e') ->
  same_globals e e'.
Proof.
  unfold log_disp_file, bind, gets, defined, ret.
  destruct (LogFileFP e) as [f|];
    [|intros H; inversion H; subst; apply same_globals_refl].
  destruct ((level <? LL_PERROR) || (level >? LogFileLevel e));
    [intros H; inversion H; subst; apply same_globals_refl|].
  destruct (timestamp stamp e) as [[ts e1]|] eqn:Hts; [|discriminate].
  assert (Hg1 : same_globals e e1).
  { apply (wp_run (timestamp stamp) (fun _ e1 => same_globals e e1) e ts e1);
      [apply timestamp_wp; auto | exact Hts]. }
  destruct (char_at LevelAbbr (level + 3)) as [c|]; [|discriminate].
  destruct (fprintf f _ _ e1) as [[n2 e2]|] eqn:H2; [|discriminate].
  apply fprintf_same_globals in H2.
  destruct (fprintf f fmt ap e2) as [[n3 e3]|] eqn:H3; [|discriminate].
  apply fprintf_same_globals in H3.
  assert (Hg3 : same_globals e e3)
    by (eapply same_globals_trans; [|exact H3];
        eapply same_globals_trans; eassumption).
  destruct (level =? LL_PERROR).
  - destruct (fprintf f _ _ e3) as [[n4 e4]|] eqn:H4; [|discriminate].
    apply fprintf_same_globals in H4.
    intros H; inversion H; subst. eapply same_globals_trans; eassumption.
  - destruct (level <=? 0).
    + unfold fputs. destruct (stream_write f nl e3) as [[n4 e4]|] eqn:H4; [|discriminate].
      intros H; inversion H; subst. eapply same_globals_trans; [exact Hg3|].
      apply (wp_run (stream_write f nl) (fun _ e' => same_globals e3 e') e3 n4 e');
        [apply stream_write_wp; auto | exact H4].
    + intros H; inversion H; subst. exact Hg3.
Qed.

Lemma log_disp_file_keeps_invariant stamp file line function level fmt ap e r e' :
  log_disp_file stamp file line function level fmt ap e = Some (r, e') ->
  handle_has_name e -> handle_has_name e'.
Proof.
  intros Hrun Hinv. apply log_disp_file_same_globals in Hrun.
  destruct Hrun as (Hfp & Hname & _). unfold handle_has_name in *.
  rewrite Hfp, Hname. exact Hinv.
Qed.

(** A failed write on a level with a newline: the -1 of vfprintf becomes
    0, the value of a filtered line. *)
Example log_disp_file_write_failure_returns_zero :
  log_disp_file 0 None 0 (Some "main") LL_MESSAGE "%s" [ArgS (Some "hi")] env_disk_full
    = Some (0, set_ts "2018-01-01 12:00:00" 1514808000 (set_errno ENOSPC env_disk_full)).
Proof. vm_compute. reflexivity. Qed.

End FileDispatcher.

(** C2 (return value of the file dispatcher).  The code does not return
    the number of characters written: a line that passes the filter and is
    written in full returns the length of the message alone, plus one for
    the newline of the levels ERROR..MESSAGE; the count of the prefix is
    overwritten ([ret = vfprintf(...)]) and the PERROR suffix is not
    counted.  The result is always less than what was written. *)
Theorem log_disp_file_count_drops_prefix
    stamp file line function level fmt ap (e : Env) (f : nat) (msg : string) :
  LogFileFP e = Some f -> writable f e ->
  LL_PERROR <= level <= LogFileLevel e -> level <= LL_DEBUG5 ->
  vformat fmt ap = Some msg ->
  exists r e' ts c,
    log_disp_file stamp file line function level fmt ap e = Some (r, e') /\
    written f e' = written f e +:+ file_prefix ts c function +:+ msg
                   +:+ file_suffix level (errno e) /\
    r = strlen msg + (if (LL_PERROR <? level) && (level <=? 0) then 1 else 0) /\
    r < strlen (file_prefix ts c function +:+ msg +:+ file_suffix level (errno e)).
Proof.
  intros Hfp Hw Hrange Hdebug Hfmt.
  destruct (log_disp_file_writes stamp file line function level fmt ap e f msg
              Hfp Hw Hrange Hdebug Hfmt) as (e' & ts & c & Hrun & _ & Hwritten & _).
  eexists _, e', ts, c. split; [exact Hrun|]. split; [exact Hwritten|].
  split; [reflexivity|].
  rewrite !strlen_append. pose proof (strlen_file_prefix ts c function) as Hprefix.
  unfold file_suffix. destruct (level =? LL_PERROR) eqn:Hperror.
  - apply Z.eqb_eq in Hperror. subst level. simpl.
    pose proof (strlen_nonneg (": " +:+ strerror (errno e) +:+ nl)). lia.
  - destruct (LL_PERROR <? level); destruct (level <=? 0); simpl;
      change (strlen nl) with 1; change (strlen "") with 0; lia.
Qed.

(** A message at level MESSAGE: 35 characters go out, 3 come back. *)
Lemma log_disp_file_count_drops_prefix_witness :
  exists r e' ts c,
    log_disp_file 0 None 0 (Some "main") LL_MESSAGE "%s" [ArgS (Some "hi")] (env_logging 0)
      = Some (r, e') /\
    written 1 e' = written 1 (env_logging 0) +:+ file_prefix ts c (Some "main") +:+ "hi"
                   +:+ file_suffix LL_MESSAGE (errno (env_logging 0)) /\
    r = strlen "hi" + (if (LL_PERROR <? LL_MESSAGE) && (LL_MESSAGE <=? 0) then 1 else 0) /\
    r < strlen (file_prefix ts c (Some "main") +:+ "hi"
                +:+ file_suffix LL_MESSAGE (errno (env_logging 0))).
Proof.
  apply (log_disp_file_count_drops_prefix
           0 None 0 (Some "main") LL_MESSAGE "%s" [ArgS (Some "hi")]
           (env_logging 0) 1 "hi").
  - reflexivity.
  - eexists. split; [reflexivity|]. split; reflexivity.
  - unfold LL_PERROR, LL_MESSAGE. simpl. lia.
  - unfold LL_MESSAGE, LL_DEBUG5. lia.
  - reflexivity.
Defined.

Example log_disp_file_message_run :
  exists e',
    log_disp_file 0 None 0 (Some "main") LL_MESSAGE "%s" [ArgS (Some "hi")] (env_logging 0)
      = Some (3, e') /\
    written 1 e' = "[2018-01-01 12:00:00]<M> main() hi" +:+ nl /\
    strlen (written 1 e') = 35.
Proof. eexists. split; [vm_compute; reflexivity|]. split; reflexivity. Qed.

(** C8 (filter boundary of the file dispatcher).  One level above the
    threshold and one level below PERROR a line is filtered: the result is
    0 and nothing changes.  At the threshold the line is written, but the
    result can be 0 all the same: at a debug threshold an empty message
    returns 0 after its prefix has gone out, because the count of the
    prefix is dropped (the defect of C2). *)
Theorem log_disp_file_filter_boundary :
  forall stamp file line function fmt ap (e : Env),
    log_disp_file stamp file line function (LogFileLevel e + 1) fmt ap e = Some (0, e) /\
    log_disp_file stamp file line function (LL_PERROR - 1) fmt ap e = Some (0, e) /\
    (forall f,
       LogFileFP e = Some f -> writable f e ->
       LL_DEBUG1 <= LogFileLevel e <= LL_DEBUG5 -> vformat fmt ap = Some "" ->
       exists e' ts c,
         log_disp_file stamp file line function (LogFileLevel e) fmt ap e = Some (0, e') /\
         written f e' = written f e +:+ file_prefix ts c function).
Proof.
  intros stamp file line function fmt ap e. split; [|split].
  - apply log_disp_file_filtered. right. right. lia.
  - apply log_disp_file_filtered. right. left. lia.
  - intros f Hfp Hw [Hlow Hhigh] Hfmt.
    destruct (log_disp_file_writes stamp file line function (LogFileLevel e) fmt ap e f ""
                Hfp Hw) as (e' & ts & c & Hrun & _ & Hwritten & _);
      try assumption; [unfold LL_PERROR, LL_DEBUG1 in *; lia|].
    exists e', ts, c. split.
    + rewrite Hrun. do 2 f_equal.
      replace (LogFileLevel e <=? 0) with false
        by (symmetry; apply Z.leb_gt; unfold LL_DEBUG1 in *; lia).
      rewrite andb_false_r. reflexivity.
    + rewrite Hwritten. unfold file_suffix.
      replace (LogFileLevel e =? LL_PERROR) with false
        by (symmetry; apply Z.eqb_neq; unfold LL_PERROR, LL_DEBUG1 in *; lia).
      replace (LogFileLevel e <=? 0) with false
        by (symmetry; apply Z.leb_gt; unfold LL_DEBUG1 in *; lia).
      rewrite !append_nil_r. reflexivity.
Qed.

(** At threshold 1, a debug line whose message is empty: the prefix is
    written and the result is 0, the value of a filtered line. *)
Example log_disp_file_threshold_returns_zero :
  exists e',
    log_disp_file 0 None 0 (Some "main") 1 "%s" [ArgS (Some "")] (env_logging 1)
      = Some (0, e') /\
    written 1 e' = "[2018-01-01 12:00:00]<1> main() ".
Proof. eexists. split; [vm_compute; reflexivity|]. reflexivity. Qed.

(** ** The stderr dispatcher *)

Section StderrDispatcher.

Implicit Types (e : Env) (fp : nat) (s : string).

Lemma fprintf_failing_wp fp fmt ap s (Q : Z -> Env -> Prop) e st err :
  vformat fmt ap = Some s ->
  streams e !! fp = Some st -> st_open st = true -> st_fail st = Some err ->
  Q (-1) (set_errno err e) ->
  wp (fprintf fp fmt ap) Q e.
Proof.
  intros Hfmt Hst Hopen Hfail HQ. unfold fprintf. apply wp_bind.
  apply (wp_defined _ s); [exact Hfmt|].
  eapply wp_intro; [eapply stream_write_failing; eassumption | exact HQ].
Qed.

Lemma vformat_colon (s : string) :
  vformat ": %s" [ArgS (Some s)] = Some (": " +:+ s).
Proof. simpl. rewrite append_nil_r. reflexivity. Qed.

Lemma vformat_nl : vformat nl [] = Some nl.
Proof. reflexivity. Qed.

(** On a log file whose writes fail, a line that passes the filter leaves
    the error number of the failed write in [errno]. *)
Lemma log_disp_file_failing_wp stamp file line function level fmt ap msg
    (Q : Z -> Env -> Prop) e f st err :
  LogFileFP e = Some f ->
  streams e !! f = Some st -> st_open st = true -> st_fail st = Some err ->
  LL_PERROR <= level <= LogFileLevel e -> level <= LL_DEBUG5 ->
  vformat fmt ap = Some msg ->
  (forall r e',
     same_globals e e' -> streams e' = streams e -> errno e' = err -> Q r e') ->
  wp (log_disp_file stamp file line function level fmt ap) Q e.
Proof.
  intros Hfp Hst Hopen Hfail [Hlow Hhigh] Hdebug Hfmt HQ.
  destruct (char_at_LevelAbbr level (conj Hlow Hdebug)) as [c Hc].
  unfold log_disp_file. wp_steps. rewrite Hfp.
  replace (level <? LL_PERROR) with false by (symmetry; apply Z.ltb_ge; lia).
  replace (level >? LogFileLevel e) with false
    by (symmetry; rewrite Z.gtb_ltb; apply Z.ltb_ge; lia).
  simpl orb. cbv iota. wp_steps.
  apply timestamp_wp. intros ts e1 Hg1 Hs1 Herr1 _.
  wp_steps. apply (wp_defined _ c); [exact Hc|].
  assert (Hst1 : streams e1 !! f = Some st) by (rewrite Hs1; exact Hst).
  wp_steps. eapply fprintf_failing_wp; [apply vformat_file_prefix | eassumption..|].
  wp_steps. eapply fprintf_failing_wp; [exact Hfmt | eassumption..|].
  destruct (level =? LL_PERROR).
  - wp_steps.
    eapply fprintf_failing_wp; [apply vformat_perror_suffix | eassumption..|].
    wp_steps. apply HQ; [exact Hg1 | exact Hs1 | reflexivity].
  - destruct (level <=? 0).
    + wp_steps. unfold fputs.
      eapply wp_intro; [eapply stream_write_failing; eassumption|].
      wp_steps. apply HQ; [exact Hg1 | exact Hs1 | reflexivity].
    + wp_steps. apply HQ; [exact Hg1 | exact Hs1 | reflexivity].
Qed.

End StderrDispatcher.

(** C3 (errno is captured on entry).  The file and queue dispatchers read
    [errno] before anything else; the stderr dispatcher reads it after it
    has formatted the message and called the file dispatcher.  When the
    writes to the log file fail with error number [err], the description a
    PERROR line gets on stderr is that of [err], whatever [errno] was when
    the call was entered. *)
Theorem log_disp_stderr_reports_later_errno
    stamp file line function fmt ap (e : Env) (f : nat) (st : stream)
    (err : Z) (msg : string) :
  LogFileFP e = Some f ->
  streams e !! f = Some st -> st_open st = true -> st_fail st = Some err ->
  writable stderr e -> stderr_tty e = false ->
  LL_PERROR <= LogFileLevel e ->
  vformat fmt ap = Some msg ->
  exists r e',
    log_disp_stderr stamp file line function LL_PERROR fmt ap e = Some (r, e') /\
    written stderr e' =
      written stderr e +:+ string_take (Z.to_nat (LONG_STRING - 1)) msg
      +:+ ": " +:+ strerror err +:+ nl.
Proof.
  intros Hfp Hst Hopen Hfail Hw Htty Hlevel Hfmt.
  apply wp_elim. unfold log_disp_stderr. wp_steps.
  replace (LL_PERROR <? LL_PERROR) with false by reflexivity.
  replace (LL_PERROR >? LogFileLevel e) with false
    by (symmetry; rewrite Z.gtb_ltb; apply Z.ltb_ge; lia).
  simpl orb. cbv iota. wp_steps.
  apply (wp_defined _ (string_take (Z.to_nat (LONG_STRING - 1)) msg, strlen msg));
    [unfold vsnprintf; rewrite Hfmt; reflexivity|].
  generalize (string_take (Z.to_nat (LONG_STRING - 1)) msg). intros buf.
  cbn [fst snd]. wp_steps.
  eapply log_disp_file_failing_wp; try eassumption;
    [split; [lia | exact Hlevel] | unfold LL_PERROR, LL_DEBUG5; lia
     | apply vformat_verbatim |].
  intros r1 e0 (_ & _ & _ & _ & _ & _ & Htty0) Hs0 Herr0.
  wp_steps. rewrite Herr0. apply isatty_stderr_wp. rewrite Htty0, Htty.
  set (e1 := set_errno ENOTTY e0).
  assert (Hs1 : streams e1 = streams e) by exact Hs0.
  simpl. wp_steps.
  unfold fputs. apply stream_write_wp.
  assert (Hw1 : writable stderr e1) by (eapply writable_streams_eq; eassumption).
  intros n2 e2 _ _ _ [(_ & _ & ->) | (Hnw & _)]; [|contradiction].
  wp_steps. eapply fprintf_wp; [apply vformat_colon|].
  intros n3 e3 _ _ _ [(_ & _ & ->) | (Hnw & _)];
    [|contradiction Hnw; apply wrote_writable, Hw1].
  wp_steps. eapply fprintf_wp; [apply vformat_nl|].
  intros n4 e4 _ _ _ [(_ & _ & ->) | (Hnw & _)];
    [|contradiction Hnw; do 2 apply wrote_writable; exact Hw1].
  wp_steps.
  rewrite !wrote_wrote, wrote_written by exact Hw1.
  rewrite (written_streams_eq _ _ _ Hs1). reflexivity.
Qed.

(** The log file is on a full disk and [errno] is ENOENT when the PERROR
    line is logged: stderr reads "No space left on device". *)
Lemma log_disp_stderr_reports_later_errno_witness :
  exists r e',
    log_disp_stderr 0 None 0 (Some "main") LL_PERROR "open %s" [ArgS (Some "x")]
                    env_disk_full = Some (r, e') /\
    written stderr e' =
      written stderr env_disk_full
      +:+ string_take (Z.to_nat (LONG_STRING - 1)) "open x"
      +:+ ": " +:+ strerror ENOSPC +:+ nl.
Proof.
  apply (log_disp_stderr_reports_later_errno
           0 None 0 (Some "main") "open %s" [ArgS (Some "x")] env_disk_full 1
           (mk_stream "/tmp/neomutt.log" true (Some ENOSPC) "") ENOSPC "open x").
  - reflexivity.
  - reflexivity.
  - reflexivity.
  - reflexivity.
  - eexists. split; [reflexivity|]. split; reflexivity.
  - reflexivity.
  - unfold LL_PERROR. simpl. lia.
  - reflexivity.
Defined.

Example log_disp_stderr_disk_full_run :
  errno env_disk_full = ENOENT /\
  strerror ENOENT = "No such file or directory" /\
  exists r e',
    log_disp_stderr 0 None 0 (Some "main") LL_PERROR "open %s" [ArgS (Some "x")]
                    env_disk_full = Some (r, e') /\
    written stderr e' = "open x: No space left on device" +:+ nl.
Proof.
  split; [reflexivity|]. split; [reflexivity|].
  do 2 eexists. split; [vm_compute; reflexivity|]. reflexivity.
Qed.

(** With a log file that takes the writes, the text on stderr and in the
    file has the description of the [errno] of the call. *)
Example log_disp_stderr_healthy_run :
  exists r e',
    log_disp_stderr 0 None 0 (Some "main") LL_PERROR "open %s" [ArgS (Some "x")]
                    (env_logging 0) = Some (r, e') /\
    written stderr e' = "open x: No such file or directory" +:+ nl /\
    written 1 e' = "[2018-01-01 12:00:00]<P> main() open x: No such file or directory"
                   +:+ nl.
Proof.
  do 2 eexists. split; [vm_compute; reflexivity|]. split; reflexivity.
Qed.

(** ** The queue dispatcher *)

Section QueueDispatcher.

Implicit Types (e : Env) (q : Queue) (ll : LogLine).



(** In a consistent queue the Record just added is the newest one. *)
Lemma log_queue_add_last ll q n q' :
  queue_consistent q -> log_queue_add ll q = Some (n, q') ->
  last (LogQueue q') = Some ll.
Proof.
  unfold queue_consistent. intros Hcons Hadd.
  destruct (log_queue_add_inv _ _ _ _ Hadd)
    as (_ & _ & [(Hmax & Hfull & _ & ->) | (_ & _ & ->)]).
  - destruct (LogQueue q) as [|x l]; simpl in *; [lia|]. apply last_snoc.
  - apply last_snoc.
Qed.

(** What the queue dispatcher does when it is defined: it adds one Record,
    whose level is ERROR if the call said PERROR, and leaves the
    environment alone. *)
Lemma log_disp_queue_inv stamp file line function level fmt ap e q r w' :
  log_disp_queue stamp file line function level fmt ap (e, q) = Some (r, w') ->
  exists ll n,
    log_queue_add ll q = Some (n, snd w') /\ fst w' = e /\
    ll_level ll = (if level =? LL_PERROR then LL_ERROR else level).
Proof.
  unfold log_disp_queue, bind, on_env, on_queue, gets, defined, ret, time. simpl.
  destruct (vsnprintf LONG_STRING fmt ap) as [[buf n0]|]; [|discriminate].
  simpl. destruct (level =? LL_PERROR).
  - destruct (snprintf_at buf n0 ": %s" _) as [[buf' n1]|]; [|discriminate].
    simpl. destruct (stamp =? 0); simpl;
      match goal with
      | |- context [log_queue_add ?l q] =>
          destruct (log_queue_add l q) as [[n q']|] eqn:Hadd; [|discriminate];
          intros H; inversion H; subst; exists l, n; auto
      end.
  - simpl. destruct (stamp =? 0); simpl;
      match goal with
      | |- context [log_queue_add ?l q] =>
          destruct (log_queue_add l q) as [[n q']|] eqn:Hadd; [|discriminate];
          intros H; inversion H; subst; exists l, n; auto
      end.
Qed.





End QueueDispatcher.




(** ** Flushing into the file dispatcher *)

Section FlushToFile.

Implicit Types (e : Env) (l : list LogLine).

(** A replayed Record whose level is at most DEBUG5 is always taken by
    the file dispatcher: written, filtered, or lost to a failed write. *)
Lemma log_disp_file_replay_defined stamp file line function level m e :
  level <= LL_DEBUG5 ->
  is_Some (log_disp_file stamp file line function level "%s" [ArgS m] e).
Proof.
  intros Hdebug.
  cut (wp (log_disp_file stamp file line function level "%s" [ArgS m])
          (fun _ _ => True) e).
  { intros Hwp. apply wp_elim in Hwp. destruct Hwp as (r & e' & Hrun & _).
    rewrite Hrun. eexists; reflexivity. }
  unfold log_disp_file. wp_steps.
  destruct (LogFileFP e) as [f|]; [|wp_steps; exact I].
  destruct ((level <? LL_PERROR) || (level >? LogFileLevel e)) eqn:Hfilter;
    [wp_steps; exact I|].
  apply orb_false_iff in Hfilter. destruct Hfilter as [Hlow _].
  apply Z.ltb_ge in Hlow.
  destruct (char_at_LevelAbbr level (conj Hlow Hdebug)) as [c Hc].
  wp_steps. apply timestamp_wp. intros ts e1 _ _ _ _.
  wp_steps. apply (wp_defined _ c); [exact Hc|].
  wp_steps. eapply fprintf_wp; [apply vformat_file_prefix|]. intros n2 e2 _ _ _ _.
  wp_steps. eapply fprintf_wp; [apply vformat_verbatim|]. intros n3 e3 _ _ _ _.
  destruct (level =? LL_PERROR).
  - wp_steps. eapply fprintf_wp; [apply vformat_perror_suffix|]. intros n4 e4 _ _ _ _.
    wp_steps. exact I.
  - destruct (level <=? 0).
    + wp_steps. unfold fputs. apply stream_write_wp. intros n4 e4 _ _ _ _.
      wp_steps. exact I.
    + wp_steps. exact I.
Qed.

Lemma replay_file_defined l :
  levels_in_range l -> forall e, is_Some (replay log_disp_file l e).
Proof.
  induction 1 as [|ll l [_ Hdebug] _ IH]; intros e.
  - eexists; reflexivity.
  - rewrite replay_cons. unfold replay_one.
    destruct (log_disp_file_replay_defined (ll_time ll) (ll_file ll) (ll_line ll)
                (ll_function ll) (ll_level ll) (ll_message ll) e Hdebug)
      as [[r e'] Hrun].
    rewrite Hrun. simpl. apply IH.
Qed.

(** A flush into the file dispatcher is defined for every queue whose
    levels are within PERROR..DEBUG5. *)
Lemma log_queue_flush_file_defined e (q : Queue) :
  levels_in_range (LogQueue q) ->
  is_Some (log_queue_flush log_disp_file (e, q)).
Proof.
  intros Hlevels. destruct (replay_file_defined _ Hlevels e) as [e' Hreplay].
  unfold log_queue_flush, bind, gets, on_env, on_queue; simpl.
  rewrite log_queue_flush_loop_replays, Hreplay. simpl.
  rewrite log_queue_empty_clears. eexists; reflexivity.
Qed.

End FlushToFile.

(** ** Runs *)

(** A flush while no log file is open: every call is filtered (returns
    0), and the queue is emptied all the same. *)
Example log_queue_flush_filtered_run :
  log_queue_flush log_disp_file (env_start, mk_Queue [line_A; line_B; line_C] 3 2)
    = Some (tt, (env_start, mk_Queue [] 0 2)).
Proof. reflexivity. Qed.

(** A PERROR line into the queue, with [errno] = ENOENT. *)
Example log_disp_queue_perror_run :
  log_disp_queue 0 None 0 (Some "main") LL_PERROR "open %s" [ArgS (Some "x")]
                 (env_logging 0, queue_start)
    = Some (33,
            (env_logging 0,
             mk_Queue [mk_LogLine 1514808000 None 0 (Some "main") LL_ERROR
                                  (Some "open x: No such file or directory")]
                      1 0)).
Proof. vm_compute. reflexivity. Qed.

(** The same line, flushed through the file dispatcher: the description
    is in the log file once. *)
Example log_disp_queue_perror_then_flush :
  exists e',
    (log_disp_queue 0 None 0 (Some "main") LL_PERROR "open %s" [ArgS (Some "x")] ;;;
     log_queue_flush log_disp_file) (env_logging 0, queue_start)
      = Some (tt, (e', queue_start)) /\
    written 1 e' = "[2018-01-01 12:00:00]<E> main() open x: No such file or directory"
                   +:+ nl.
Proof. eexists. split; [vm_compute; reflexivity|]. reflexivity. Qed.

(** The truncated line of the counterexample to C5. *)
Example log_disp_queue_long_message_run :
  exists ll,
    log_disp_queue 0 None 0 (Some "main") LL_PERROR "%s" [ArgS (Some long_message)]
                   (env_logging 0, queue_start)
      = Some (1047, (env_logging 0, mk_Queue [ll] 1 0)) /\
    ll_level ll = LL_ERROR /\
    ll_message ll = Some (long_message +:+ ": N").
Proof. eexists. split; [vm_compute; reflexivity|]. split; reflexivity. Qed.

(** Past the end of the buffer the PERROR branch is undefined. *)
Example log_disp_queue_overlong_message_undefined :
  log_disp_queue 0 None 0 (Some "main") LL_PERROR "%s%s"
                 [ArgS (Some long_message); ArgS (Some "12345")]
                 (env_logging 0, queue_start) = None.
Proof. vm_compute. reflexivity. Qed.

(** A flush of A, B, C through the file dispatcher at threshold 1: three
    lines in the order of insertion, the message of C as it was stored. *)
Example log_queue_flush_run :
  exists e',
    log_queue_flush log_disp_file
                    (env_logging 1, mk_Queue [line_A; line_B; line_C] 3 0)
      = Some (tt, (e', mk_Queue [] 0 0)) /\
    written 1 e' = "[2018-01-01 12:00:00]<M> main() A" +:+ nl
                   +:+ "[2018-01-01 12:00:01]<1> main() B"
                   +:+ "[2018-01-01 12:00:02]<E> main() 100% %s" +:+ nl.
Proof. eexists. split; [vm_compute; reflexivity|]. reflexivity. Qed.

(** A save of A, B, C to the log file's stream. *)
Example log_queue_save_run :
  exists e',
    log_queue_save (Some 1%nat) (env_logging 1, mk_Queue [line_A; line_B; line_C] 3 0)
      = Some (3, (e', mk_Queue [line_A; line_B; line_C] 3 0)) /\
    written 1 e' = "[12:00:00]<M> A" +:+ nl +:+ "[12:00:01]<1> B"
                   +:+ "[12:00:02]<E> 100% %s" +:+ nl.
Proof. eexists. split; [vm_compute; reflexivity|]. reflexivity. Qed.

(** Opening without a file name fails and creates no handle. *)
Example log_file_open_without_name :
  log_file_open true env_start = Some (-1, env_start).
Proof. reflexivity. Qed.

(** The life of a log file: name, open, a level, close. *)
Example log_file_life :
  exists e',
    (log_file_set_filename (Some "/tmp/neomutt.log") ;;;
     log_file_set_version (Some "-20180223") ;;;
     log_file_open false ;;;
     log_file_set_level 2 ;;;
     log_file_close false) env_start = Some (tt, e') /\
    LogFileFP e' = None /\ closed 1 e' /\
    written 1 e' = "[2018-01-01 12:00:00] NeoMutt-20180223 debugging at level 0" +:+ nl
                   +:+ "[2018-01-01 12:00:00] Closing log." +:+ nl.
Proof.
  eexists. split; [vm_compute; reflexivity|]. split; [reflexivity|].
  split; [eexists; split; reflexivity | reflexivity].
Qed.

(** * Further properties of logging.c *)

(** ** Partial correctness *)

Section WLP.

Context {S : Type}.

Lemma wlp_ret {A} (a : A) (Q : A -> S -> Prop) s : Q a s -> wlp (ret a) Q s.
Proof. intros H. exact H. Qed.

Lemma wlp_bind {A B} (m : M S A) (k : A -> M S B) (Q : B -> S -> Prop) s :
  wlp m (fun a s' => wlp (k a) Q s') s -> wlp (bind m k) Q s.
Proof.
  unfold wlp, bind. destruct (m s) as [[a s']|]; intros H; exact H.
Qed.

Lemma wlp_gets {A} (f : S -> A) (Q : A -> S -> Prop) s : Q (f s) s -> wlp (gets f) Q s.
Proof. intros H. exact H. Qed.

Lemma wlp_modify (f : S -> S) (Q : unit -> S -> Prop) s :
  Q tt (f s) -> wlp (modify f) Q s.
Proof. intros H. exact H. Qed.

Lemma wlp_defined {A} (o : option A) (Q : A -> S -> Prop) s :
  (forall a, o = Some a -> Q a s) -> wlp (defined o) Q s.
Proof.
  intros H. unfold wlp, defined. destruct o as [a|]; [apply H; reflexivity | exact I].
Qed.

Lemma wlp_of_wp {A} (m : M S A) (Q : A -> S -> Prop) s : wp m Q s -> wlp m Q s.
Proof.
  unfold wp, wlp. destruct (m s) as [[a s']|]; intros H; [exact H | exact I].
Qed.

Lemma wlp_mono {A} (m : M S A) (Q Q' : A -> S -> Prop) s :
  wlp m Q s -> (forall a s', Q a s' -> Q' a s') -> wlp m Q' s.
Proof.
  unfold wlp. destruct (m s) as [[a s']|]; intros H HQ; [apply HQ, H | exact I].
Qed.

Lemma wlp_run {A} (m : M S A) (Q : A -> S -> Prop) s a s' :
  wlp m Q s -> m s = Some (a, s') -> Q a s'.
Proof. unfold wlp. intros H Hrun. rewrite Hrun in H. exact H. Qed.

End WLP.

Ltac wlp_step :=
  cbv beta;
  lazymatch goal with
  | |- wlp (bind _ _) _ _ => apply wlp_bind
  | |- wlp (gets _) _ _ => apply wlp_gets
  | |- wlp (modify _) _ _ => apply wlp_modify
  | |- wlp (ret _) _ _ => apply wlp_ret
  end.

Ltac wlp_steps := repeat wlp_step; cbv beta.

(** ** The time stamp *)

Section Timestamp.

Implicit Types (e : Env) (stamp : Z).

(** With a coherent buffer, or for a time other than the remembered one,
    [timestamp] returns the text of the time it was asked for, and leaves
    the buffer coherent. *)
Lemma timestamp_exact_wp stamp (Q : string -> Env -> Prop) e :
  ts_coherent e \/ effective_time stamp e <> ts_last e ->
  (forall e',
     same_globals e e' -> streams e' = streams e -> errno e' = errno e ->
     notices e' = notices e -> ts_coherent e' ->
     ts_last e' = effective_time stamp e ->
     (effective_time stamp e = ts_last e -> e' = e) ->
     Q (timestamp_text (effective_time stamp e)) e') ->
  wp (timestamp stamp) Q e.
Proof.
  intros Hcache HQ.
  unfold wp, timestamp, bind, gets, modify, ret, time.
  unfold effective_time in *. destruct (stamp =? 0); simpl.
  - destruct (now e =? ts_last e) eqn:Hlast; simpl.
    + apply Z.eqb_eq in Hlast. destruct Hcache as [Hcoh | Hne]; [|contradiction].
      unfold ts_coherent in Hcoh. rewrite Hcoh, <- Hlast.
      apply HQ; try (repeat split; fail); auto.
    + apply Z.eqb_neq in Hlast.
      apply HQ; try (repeat split; fail); try reflexivity. intros; contradiction.
  - destruct (stamp =? ts_last e) eqn:Hlast; simpl.
    + apply Z.eqb_eq in Hlast. destruct Hcache as [Hcoh | Hne]; [|contradiction].
      unfold ts_coherent in Hcoh. rewrite Hcoh, <- Hlast.
      apply HQ; try (repeat split; fail); auto.
    + apply Z.eqb_neq in Hlast.
      apply HQ; try (repeat split; fail); try reflexivity. intros; contradiction.
Qed.

End Timestamp.

(** The edge of the memo: at program start the buffer is empty and the
    remembered time is 0, so a request for the time 0 gets the empty text. *)
Example timestamp_of_epoch_at_start :
  timestamp 0 (mk_Env 0 0 [stderr_stream] [] false "" 0 [] None None 0 None)
    = Some ("", mk_Env 0 0 [stderr_stream] [] false "" 0 [] None None 0 None)
  /\ timestamp_text 0 = "1970-01-01 00:00:00".
Proof. split; reflexivity. Qed.

(** ** More about streams *)

Section MoreStreams.

Implicit Types (e : Env) (fp i : nat) (s : string).

Lemma wrote_lookup_ne fp i s e :
  i <> fp -> streams (wrote fp s e) !! i = streams e !! i.
Proof.
  intros Hne. unfold wrote. destruct (streams e !! fp) as [st|]; [|reflexivity].
  simpl. apply list_lookup_insert_ne. congruence.
Qed.


Lemma wrote_writable_ne fp i s e :
  i <> fp -> writable i e -> writable i (wrote fp s e).
Proof. intros Hne. unfold writable. rewrite wrote_lookup_ne by exact Hne. auto. Qed.

Lemma wrote_length fp s e : length (streams (wrote fp s e)) = length (streams e).
Proof.
  unfold wrote. destruct (streams e !! fp) as [st|]; [|reflexivity].
  simpl. apply length_insert.
Qed.

(** A successful write changes the stream table only. *)
Lemma wrote_fields fp s e :
  errno (wrote fp s e) = errno e /\ notices (wrote fp s e) = notices e /\
  ts_buf (wrote fp s e) = ts_buf e /\ ts_last (wrote fp s e) = ts_last e /\
  same_globals e (wrote fp s e).
Proof.
  unfold wrote. destruct (streams e !! fp) as [st|]; repeat split.
Qed.

Lemma wrote_ts_coherent fp s e : ts_coherent e -> ts_coherent (wrote fp s e).
Proof.
  unfold ts_coherent. destruct (wrote_fields fp s e) as (_ & _ & -> & -> & _). auto.
Qed.

Lemma fprintf_writable_wp fp fmt ap s (Q : Z -> Env -> Prop) e :
  vformat fmt ap = Some s -> writable fp e ->
  Q (strlen s) (wrote fp s e) ->
  wp (fprintf fp fmt ap) Q e.
Proof.
  intros Hfmt Hw HQ. eapply wp_intro; [apply fprintf_writable; eassumption | exact HQ].
Qed.

Lemma fputs_writable_wp fp s (Q : Z -> Env -> Prop) e :
  writable fp e -> Q (strlen s) (wrote fp s e) -> wp (fputs s fp) Q e.
Proof.
  intros Hw HQ. unfold fputs.
  eapply wp_intro; [apply stream_write_writable; exact Hw | exact HQ].
Qed.

(** Whatever becomes of it, a formatted write touches neither the globals
    of the log file nor the shape of the stream table. *)
Lemma fprintf_wlp fp fmt ap (Q : Z -> Env -> Prop) e :
  (forall r e', same_globals e e' -> streams_kept e e' -> Q r e') ->
  wlp (fprintf fp fmt ap) Q e.
Proof.
  intros HQ. unfold fprintf. apply wlp_bind. apply wlp_defined. intros s _.
  apply wlp_of_wp, stream_write_wp. intros r e' Hg Hs _ _. apply HQ; assumption.
Qed.

Lemma streams_kept_open e e' fp st :
  streams_kept e e' -> streams e !! fp = Some st -> st_open st = true ->
  exists st', streams e' !! fp = Some st' /\ st_open st' = true.
Proof.
  intros [_ Hkept] Hst Hopen. destruct (Hkept _ _ Hst) as (st' & Hst' & _ & Ho & _).
  exists st'. split; [exact Hst' | congruence].
Qed.

Lemma streams_kept_handle_open e e' :
  same_globals e e' -> streams_kept e e' -> handle_open e -> handle_open e'.
Proof.
  intros [Hfp _] Hs Hopen f Hf. rewrite Hfp in Hf.
  destruct (Hopen f Hf) as (st & Hst & Ho). eapply streams_kept_open; eassumption.
Qed.

End MoreStreams.

(** ** The dispatchers leave the log file alone *)

Section DispatcherFrames.

Implicit Types (e : Env).

Lemma log_disp_file_frame_wlp stamp file line function level fmt ap
    (Q : Z -> Env -> Prop) e :
  (forall r e', same_globals e e' -> streams_kept e e' -> Q r e') ->
  wlp (log_disp_file stamp file line function level fmt ap) Q e.
Proof.
  intros HQ. unfold log_disp_file. wlp_steps.
  destruct (LogFileFP e) as [f|];
    [|wlp_steps; apply HQ; [apply same_globals_refl | apply streams_kept_refl]].
  destruct ((level <? LL_PERROR) || (level >? LogFileLevel e));
    [wlp_steps; apply HQ; [apply same_globals_refl | apply streams_kept_refl]|].
  wlp_steps. apply wlp_of_wp, timestamp_wp. intros ts e1 Hg1 Hs1 _ _.
  wlp_steps. apply wlp_defined. intros c _.
  wlp_steps. apply fprintf_wlp. intros n2 e2 Hg2 Hs2.
  wlp_steps. apply fprintf_wlp. intros n3 e3 Hg3 Hs3.
  assert (Hg : same_globals e e3)
    by (eapply same_globals_trans; [|exact Hg3];
        eapply same_globals_trans; eassumption).
  assert (Hs : streams_kept e e3).
  { eapply streams_kept_trans; [|exact Hs3].
    eapply streams_kept_trans; [|exact Hs2]. apply streams_kept_eq, Hs1. }
  destruct (level =? LL_PERROR).
  - wlp_steps. apply fprintf_wlp. intros n4 e4 Hg4 Hs4. wlp_steps.
    apply HQ; [eapply same_globals_trans | eapply streams_kept_trans]; eassumption.
  - destruct (level <=? 0).
    + wlp_steps. unfold fputs. apply wlp_of_wp, stream_write_wp.
      intros n4 e4 Hg4 Hs4 _ _. wlp_steps.
      apply HQ; [eapply same_globals_trans | eapply streams_kept_trans]; eassumption.
    + wlp_steps. apply HQ; assumption.
Qed.

Lemma log_disp_stderr_frame_wlp stamp file line function level fmt ap
    (Q : Z -> Env -> Prop) e :
  (forall r e', same_globals e e' -> streams_kept e e' -> Q r e') ->
  wlp (log_disp_stderr stamp file line function level fmt ap) Q e.
Proof.
  intros HQ. unfold log_disp_stderr. wlp_steps.
  destruct ((level <? LL_PERROR) || (level >? LogFileLevel e));
    [wlp_steps; apply HQ; [apply same_globals_refl | apply streams_kept_refl]|].
  wlp_steps. apply wlp_defined. intros [buf r0] _. cbn [fst snd].
  wlp_steps. apply log_disp_file_frame_wlp. intros r1 e0 Hg0 Hs0.
  wlp_steps. apply wlp_of_wp, isatty_stderr_wp.
  set (e1 := if stderr_tty e0 then e0 else set_errno ENOTTY e0).
  assert (Hg1 : same_globals e e1) by (subst e1; destruct (stderr_tty e0); exact Hg0).
  assert (Hs1 : streams_kept e e1) by (subst e1; destruct (stderr_tty e0); exact Hs0).
  clearbody e1. generalize (if stderr_tty e0 then 1 else 0). intros t.
  cbv beta zeta. wlp_steps.
  assert (Hstep : forall (b : bool) fmt' ap' r (Q' : Z -> Env -> Prop) env,
            (forall r' e', same_globals env e' -> streams_kept env e' -> Q' r' e') ->
            wlp (if b then n <- fprintf stderr fmt' ap' ;; ret (r + n) else ret r) Q' env).
  { intros b fmt' ap' r Q' env HQ'. destruct b.
    - wlp_steps. apply fprintf_wlp. intros n e' Hg Hs. wlp_steps. apply HQ'; assumption.
    - wlp_steps. apply HQ'; [apply same_globals_refl | apply streams_kept_refl]. }
  apply Hstep. intros r2 e2 Hg2 Hs2.
  wlp_steps. unfold fputs. apply wlp_of_wp, stream_write_wp. intros n3 e3 Hg3 Hs3 _ _.
  wlp_steps. apply Hstep. intros r4 e4 Hg4 Hs4.
  wlp_steps. apply Hstep. intros r5 e5 Hg5 Hs5.
  wlp_steps. apply Hstep. intros r6 e6 Hg6 Hs6.
  wlp_steps. apply HQ.
  - eapply same_globals_trans; [|exact Hg6].
    eapply same_globals_trans; [|exact Hg5].
    eapply same_globals_trans; [|exact Hg4].
    eapply same_globals_trans; [|exact Hg3].
    eapply same_globals_trans; [exact Hg1 | exact Hg2].
  - eapply streams_kept_trans; [|exact Hs6].
    eapply streams_kept_trans; [|exact Hs5].
    eapply streams_kept_trans; [|exact Hs4].
    eapply streams_kept_trans; [|exact Hs3].
    eapply streams_kept_trans; [exact Hs1 | exact Hs2].
Qed.

End DispatcherFrames.

(** ** The handle always points to an open stream *)

Section HandleOpen.

Implicit Types (e : Env) (verbose : bool).

Lemma log_file_close_handle_open verbose e :
  wp (log_file_close verbose) (fun _ e' => handle_open e') e.
Proof.
  apply log_file_close_wp. intros e' Hfp _ _ _ _ _ f Hf. congruence.
Qed.

Lemma log_file_open_handle_open verbose e :
  handle_open e -> wp (log_file_open verbose) (fun _ e' => handle_open e') e.
Proof.
  intros Hopen. apply log_file_open_wp.
  - intros _. exact Hopen.
  - intros path r e' _ _ _ _ [(_ & _ & Hfp & st' & Hst' & Ho & _) | (_ & _ & Hfp)];
      intros f Hf.
    + rewrite Hfp in Hf. inversion Hf; subst f. eauto.
    + congruence.
Qed.

Lemma log_file_set_level_handle_open level e :
  handle_open e -> wp (log_file_set_level level) (fun _ e' => handle_open e') e.
Proof.
  intros Hopen. unfold log_file_set_level.
  destruct ((level <? 0) || (level >? 5)); [wp_steps; exact Hopen|].
  wp_steps. destruct (level =? LogFileLevel e); [wp_steps; exact Hopen|].
  wp_steps.
  assert (Hopen' : handle_open (set_LogFileLevel level e)) by exact Hopen.
  destruct (level =? 0).
  - eapply wp_mono; [apply log_file_close_handle_open|].
    intros ? e' He'. wp_steps. exact He'.
  - wp_steps. simpl. destruct (LogFileFP e) as [f|] eqn:Hfp.
    + wp_steps. apply mutt_message_wp. intros e' Hg Hs _. wp_steps.
      eapply streams_kept_handle_open; [exact Hg | apply streams_kept_eq, Hs | exact Hopen'].
    + wp_steps. eapply wp_mono; [apply log_file_open_handle_open, Hopen'|].
      intros ? e' He'. wp_steps. exact He'.
Qed.

Lemma log_file_set_filename_handle_open file e :
  handle_open e -> wp (log_file_set_filename file) (fun _ e' => handle_open e') e.
Proof.
  intros Hopen. unfold log_file_set_filename. wp_steps.
  destruct (mutt_str_strcmp (LogFileName e) file =? 0); [wp_steps; exact Hopen|].
  wp_steps.
  assert (Hopen' : handle_open (set_LogFileName (mutt_str_replace file) e))
    by exact Hopen.
  simpl. destruct (LogFileFP e) as [f|] eqn:Hfp.
  - wp_steps. eapply wp_mono; [apply log_file_open_handle_open, Hopen'|].
    intros ? e' He'. wp_steps. exact He'.
  - wp_steps. exact Hopen'.
Qed.

End HandleOpen.

(** X9 (no handle to a closed stream).  If the handle of the log file points
    to an open stream (or is NULL), it still does after each operation of
    the log file, [log_file_set_filename(NULL)] included, and after each
    call of the file and stderr dispatchers that is defined. *)
Theorem handle_open_kept (e : Env) :
  handle_open e ->
  (forall verbose, wp (log_file_open verbose) (fun _ e' => handle_open e') e) /\
  (forall verbose, wp (log_file_close verbose) (fun _ e' => handle_open e') e) /\
  (forall level, wp (log_file_set_level level) (fun _ e' => handle_open e') e) /\
  (forall file, wp (log_file_set_filename file) (fun _ e' => handle_open e') e) /\
  (forall version, wp (log_file_set_version version) (fun _ e' => handle_open e') e) /\
  (forall stamp file line function level fmt ap,
     wlp (log_disp_file stamp file line function level fmt ap)
         (fun _ e' => handle_open e') e) /\
  (forall stamp file line function level fmt ap,
     wlp (log_disp_stderr stamp file line function level fmt ap)
         (fun _ e' => handle_open e') e).
Proof.
  intros Hopen. repeat split.
  - intros verbose. apply log_file_open_handle_open, Hopen.
  - intros verbose. apply log_file_close_handle_open.
  - intros level. apply log_file_set_level_handle_open, Hopen.
  - intros file. apply log_file_set_filename_handle_open, Hopen.
  - intros version. exact Hopen.
  - intros. apply log_disp_file_frame_wlp. intros r e' Hg Hs.
    eapply streams_kept_handle_open; eassumption.
  - intros. apply log_disp_stderr_frame_wlp. intros r e' Hg Hs.
    eapply streams_kept_handle_open; eassumption.
Qed.

Lemma handle_open_kept_witness :
  (forall verbose,
     wp (log_file_open verbose) (fun _ e' => handle_open e') (env_logging 0)) /\
  (forall verbose,
     wp (log_file_close verbose) (fun _ e' => handle_open e') (env_logging 0)) /\
  (forall level,
     wp (log_file_set_level level) (fun _ e' => handle_open e') (env_logging 0)) /\
  (forall file,
     wp (log_file_set_filename file) (fun _ e' => handle_open e') (env_logging 0)) /\
  (forall version,
     wp (log_file_set_version version) (fun _ e' => handle_open e') (env_logging 0)) /\
  (forall stamp file line function level fmt ap,
     wlp (log_disp_file stamp file line function level fmt ap)
         (fun _ e' => handle_open e') (env_logging 0)) /\
  (forall stamp file line function level fmt ap,
     wlp (log_disp_stderr stamp file line function level fmt ap)
         (fun _ e' => handle_open e') (env_logging 0)).
Proof.
  apply (handle_open_kept (env_logging 0)).
  intros f Hf. inversion Hf; subst f.
  eexists. split; [reflexivity | reflexivity].
Defined.

(** ** The first and the last line of the log file *)

Section BannerAndClosing.

Implicit Types (e : Env) (verbose : bool) (f : nat).

Lemma vformat_closing (ts : string) :
  vformat ("[%s] Closing log." +:+ nl) [ArgS (Some ts)] = Some (closing_line ts).
Proof. reflexivity. Qed.

Lemma vformat_banner (ts : string) (version : option string) (level : Z) :
  vformat ("[%s] NeoMutt%s debugging at level %d" +:+ nl)
          [ArgS (Some ts); ArgS (Some (NONULL version)); ArgD level]
    = Some (banner_line ts version level).
Proof. reflexivity. Qed.

Lemma fopen_ok_wp path mode (Q : option nat -> Env -> Prop) e :
  fopen_errno path (unopenable e) = None ->
  Q (Some (length (streams e)))
    (set_streams (streams e ++ [mk_stream path true None ""]) e) ->
  wp (mutt_file_fopen path mode) Q e.
Proof.
  intros Hok HQ. unfold wp, mutt_file_fopen, fopen. rewrite Hok. exact HQ.
Qed.

Lemma mutt_file_fclose_exact_wp (Q : unit -> Env -> Prop) e f st :
  LogFileFP e = Some f -> streams e !! f = Some st ->
  Q tt (set_LogFileFP None
          (set_streams
             (<[f := mk_stream (st_path st) false (st_fail st) (st_data st)]>
                (streams e)) e)) ->
  wp mutt_file_fclose_LogFileFP Q e.
Proof.
  intros Hfp Hst HQ.
  unfold wp, mutt_file_fclose_LogFileFP, bind, gets, modify, fclose.
  rewrite Hfp. simpl. rewrite Hst. exact HQ.
Qed.

(** Closing a log file whose stream takes the writes. *)
Lemma log_file_close_writable_wp verbose (Q : unit -> Env -> Prop) e f :
  LogFileFP e = Some f -> writable f e ->
  ts_coherent e \/ now e <> ts_last e ->
  (forall e',
     LogFileFP e' = None -> closed f e' ->
     written f e' = written f e +:+ closing_line (timestamp_text (now e)) ->
     notices e' = notices e ++
                  (if verbose
                   then [("Closed log file: %s", [ArgS (LogFileName e)])]
                   else []) ->
     errno e' = errno e -> ts_coherent e' ->
     Q tt e') ->
  wp (log_file_close verbose) Q e.
Proof.
  intros Hfp Hw Hcache HQ. unfold log_file_close. wp_steps. rewrite Hfp.
  wp_steps. apply timestamp_exact_wp; [exact Hcache|].
  change (effective_time 0 e) with (now e).
  intros e1 [Hfp1 (Hname1 & _)] Hs1 Herr1 Hn1 Hcoh1 _ _.
  assert (Hw1 : writable f e1) by (eapply writable_streams_eq; eassumption).
  wp_steps. eapply fprintf_writable_wp; [apply vformat_closing | exact Hw1 |].
  set (line := closing_line (timestamp_text (now e))).
  destruct Hw1 as (st & Hst & Ho & Hf).
  assert (Hst2 : streams (wrote f line e1) !! f
                 = Some (mk_stream (st_path st) true None (st_data st +:+ line))).
  { unfold wrote. rewrite Hst. simpl.
    apply list_lookup_insert_eq. eapply lookup_lt_Some, Hst. }
  destruct (wrote_fields f line e1) as (Herr2 & Hn2 & Hb2 & Hl2 & Hfp2 & Hname2 & _).
  wp_steps.
  eapply mutt_file_fclose_exact_wp; [rewrite Hfp2, Hfp1; exact Hfp | exact Hst2 |].
  match goal with |- wp _ _ ?e3 => set (e3' := e3) end.
  assert (Hfacts : LogFileFP e3' = None /\ closed f e3' /\
                   written f e3' = written f e +:+ line /\
                   notices e3' = notices e /\ errno e3' = errno e /\
                   ts_coherent e3' /\ LogFileName e3' = LogFileName e).
  { split; [reflexivity|]. split; [|split; [|split; [|split; [|split]]]].
    - subst e3'. unfold closed. simpl. eexists.
      split; [apply list_lookup_insert_eq; eapply lookup_lt_Some, Hst2 | reflexivity].
    - subst e3'. unfold written. simpl.
      rewrite list_lookup_insert_eq by (eapply lookup_lt_Some, Hst2). simpl.
      rewrite <- Hs1, Hst. reflexivity.
    - subst e3'. simpl. congruence.
    - subst e3'. simpl. congruence.
    - subst e3'. unfold ts_coherent in *. simpl. congruence.
    - subst e3'. simpl. congruence. }
  destruct Hfacts as (Hfp3 & Hcl3 & Hwr3 & Hn3 & Herr3 & Hcoh3 & Hname3).
  destruct verbose.
  - wp_steps. unfold mutt_message. wp_steps. apply HQ; try assumption.
    + change (notices e3' ++ [("Closed log file: %s", [ArgS (LogFileName e3')])]
              = notices e ++ [("Closed log file: %s", [ArgS (LogFileName e)])]).
      rewrite Hn3, Hname3. reflexivity.
  - wp_steps. apply HQ; try assumption. rewrite Hn3, app_nil_r. reflexivity.
Qed.

End BannerAndClosing.

(** X3 (closing).  [log_file_close] always leaves the log file without a
    handle, and changes nothing if there was none; a second close changes
    nothing; every line sent to the file dispatcher afterwards is filtered
    (0, no change).  When the stream takes the writes, the last line of the
    file is "[timestamp] Closing log.", the stream is closed, and the user
    is told exactly when [verbose] is set. *)
Theorem log_file_close_final (verbose : bool) (e : Env) :
  exists e',
    log_file_close verbose e = Some (tt, e') /\ LogFileFP e' = None /\
    (LogFileFP e = None -> e' = e) /\
    (forall v, log_file_close v e' = Some (tt, e')) /\
    (forall stamp file line function level fmt ap,
       log_disp_file stamp file line function level fmt ap e' = Some (0, e')) /\
    (forall f,
       LogFileFP e = Some f -> writable f e ->
       ts_coherent e \/ now e <> ts_last e ->
       closed f e' /\
       written f e' = written f e +:+ closing_line (timestamp_text (now e)) /\
       notices e' = notices e ++
                    (if verbose
                     then [("Closed log file: %s", [ArgS (LogFileName e)])]
                     else [])).
Proof.
  assert (Hwp : wp (log_file_close verbose)
                   (fun _ e' => LogFileFP e' = None /\ (LogFileFP e = None -> e' = e)) e).
  { apply log_file_close_wp. intros e' Hfp _ _ _ _ Hsame. auto. }
  apply wp_elim in Hwp. destruct Hwp as ([] & e' & Hrun & Hfp' & Hsame).
  exists e'. split; [exact Hrun|]. split; [exact Hfp'|]. split; [exact Hsame|].
  split; [|split].
  - intros v. unfold log_file_close, bind, gets, ret. rewrite Hfp'. reflexivity.
  - intros. apply log_disp_file_filtered. left. exact Hfp'.
  - intros f Hfp Hw Hcache.
    apply (wp_run (log_file_close verbose)
                  (fun _ e' =>
                     closed f e' /\
                     written f e' = written f e +:+ closing_line (timestamp_text (now e)) /\
                     notices e' = notices e ++
                       (if verbose
                        then [("Closed log file: %s", [ArgS (LogFileName e)])]
                        else [])) e tt e'); [|exact Hrun].
    apply log_file_close_writable_wp with (f := f); try assumption.
    intros e2 _ Hcl Hwr Hn _ _. auto.
Qed.

(** X2 (result of opening).  In a state where a handle comes with a file
    name, [log_file_open] returns 0 or -1; it returns 0 exactly when there
    is a handle afterwards, which is exactly when a file name is set and the
    file can be opened; without a file name it changes nothing; and a handle
    still comes with a file name afterwards. *)
Theorem log_file_open_result (verbose : bool) (e : Env) :
  handle_has_name e ->
  exists r e',
    log_file_open verbose e = Some (r, e') /\
    (r = 0 \/ r = -1) /\
    (r = 0 <-> LogFileFP e' <> None) /\
    (r = 0 <-> exists path, LogFileName e = Some path /\
                            fopen_errno path (unopenable e) = None) /\
    (LogFileName e = None -> e' = e) /\
    handle_has_name e'.
Proof.
  intros Hinv. apply wp_elim. apply log_file_open_wp.
  - intros Hname.
    assert (Hfp : LogFileFP e = None).
    { destruct (LogFileFP e) eqn:Hfp; [|reflexivity].
      exfalso. apply Hinv; [rewrite Hfp; discriminate | exact Hname]. }
    split; [right; reflexivity|]. split; [|split; [|split]].
    + split; [intros H; discriminate H | intros H; congruence].
    + split; [intros H; discriminate H|]. intros (path & Hpath & _). congruence.
    + reflexivity.
    + exact Hinv.
  - intros path r e' Hname (Hname' & _) _ _
           [(Hok & -> & Hfp & _) | (Herr & -> & Hfp)].
    + split; [left; reflexivity|]. split; [|split; [|split]].
      * split; [intros _; congruence | reflexivity].
      * split; [eauto | reflexivity].
      * congruence.
      * intros _. congruence.
    + split; [right; reflexivity|]. split; [|split; [|split]].
      * split; [intros H; discriminate H | intros H; congruence].
      * split; [intros H; discriminate H|].
        intros (path' & Hpath' & Hok). congruence.
      * congruence.
      * intros H. contradiction.
Qed.

(** From the state at program start: no file name, so no file. *)
Lemma log_file_open_result_witness :
  exists r e',
    log_file_open true env_start = Some (r, e') /\
    (r = 0 \/ r = -1) /\
    (r = 0 <-> LogFileFP e' <> None) /\
    (r = 0 <-> exists path, LogFileName env_start = Some path /\
                            fopen_errno path (unopenable env_start) = None) /\
    (LogFileName env_start = None -> e' = env_start) /\
    handle_has_name e'.
Proof.
  apply (log_file_open_result true env_start).
  intros Hfp. contradiction Hfp. reflexivity.
Defined.

(** X12 (banner).  Opening a log file that has a name, no handle yet and
    can be opened returns 0; the handle is a fresh stream that takes writes
    and holds one line, "[timestamp] NeoMutt<version> debugging at level
    <level>", with the current time, a NULL version read as empty and the
    current threshold; the streams that were there are untouched, and the
    user is told exactly when [verbose] is set. *)
Theorem log_file_open_banner (verbose : bool) (e : Env) (path : string) :
  LogFileFP e = None -> LogFileName e = Some path ->
  fopen_errno path (unopenable e) = None ->
  ts_coherent e \/ now e <> ts_last e ->
  exists e',
    log_file_open verbose e = Some (0, e') /\
    LogFileFP e' = Some (length (streams e)) /\
    writable (length (streams e)) e' /\
    written (length (streams e)) e'
      = banner_line (timestamp_text (now e)) (LogFileVersion e) (LogFileLevel e) /\
    (forall i, (i < length (streams e))%nat -> streams e' !! i = streams e !! i) /\
    notices e' = notices e ++
                 (if verbose
                  then [("Debugging at level %d to file '%s'",
                         [ArgD (LogFileLevel e); ArgS (Some path)])]
                  else []) /\
    same_inputs e e'.
Proof.
  intros Hfp Hname Hok Hcache.
  cut (wp (log_file_open verbose)
          (fun r e' =>
             r = 0 /\
             LogFileFP e' = Some (length (streams e)) /\
             writable (length (streams e)) e' /\
             written (length (streams e)) e'
               = banner_line (timestamp_text (now e)) (LogFileVersion e)
                             (LogFileLevel e) /\
             (forall i, (i < length (streams e))%nat ->
                        streams e' !! i = streams e !! i) /\
             notices e' = notices e ++
                          (if verbose
                           then [("Debugging at level %d to file '%s'",
                                  [ArgD (LogFileLevel e); ArgS (Some path)])]
                           else []) /\
             same_inputs e e') e).
  { intros Hwp. apply wp_elim in Hwp. destruct Hwp as (r & e' & Hrun & -> & Hpost).
    exists e'. split; [exact Hrun | exact Hpost]. }
  unfold log_file_open. wp_steps. rewrite Hname. wp_steps. rewrite Hfp. wp_steps.
  apply fopen_ok_wp; [exact Hok|]. wp_steps.
  set (n := length (streams e)).
  set (e2 := set_LogFileFP (Some n)
               (set_streams (streams e ++ [mk_stream path true None ""]) e)).
  apply timestamp_exact_wp; [exact Hcache|].
  change (effective_time 0 e2) with (now e).
  intros e3 [Hfp3 Hin3] Hs3 Herr3 Hn3 Hcoh3 _ _.
  assert (Hnew : streams e3 !! n = Some (mk_stream path true None "")).
  { rewrite Hs3. subst e2. simpl. rewrite lookup_app_r by (subst n; lia).
    subst n. rewrite Nat.sub_diag. reflexivity. }
  assert (Hw3 : writable n e3) by (eexists; split; [exact Hnew | split; reflexivity]).
  wp_steps. eapply fprintf_writable_wp; [apply vformat_banner | exact Hw3 |].
  destruct Hin3 as (Hname3 & Hlevel3 & Hversion3 & Hun3 & Hnow3 & Htty3).
  simpl in Hname3, Hlevel3, Hversion3, Hun3, Hnow3, Htty3, Hfp3, Hn3.
  rewrite Hversion3, Hlevel3.
  set (line := banner_line (timestamp_text (now e)) (LogFileVersion e) (LogFileLevel e)).
  destruct (wrote_fields n line e3)
    as (Herr4 & Hn4 & _ & _ & Hfp4 & Hname4 & Hlevel4 & Hversion4 & Hun4 & Hnow4 & Htty4).
  assert (Hpost : forall e5,
            LogFileFP e5 = LogFileFP (wrote n line e3) ->
            streams e5 = streams (wrote n line e3) ->
            same_inputs (wrote n line e3) e5 ->
            LogFileFP e5 = Some n /\ writable n e5 /\ written n e5 = line /\
            (forall i, (i < n)%nat -> streams e5 !! i = streams e !! i) /\
            same_inputs e e5).
  { intros e5 Hfp5 Hs5 (Hname5 & Hlevel5 & Hversion5 & Hun5 & Hnow5 & Htty5).
    split; [congruence|]. split; [|split; [|split]].
    - eapply writable_streams_eq; [exact Hs5|]. apply wrote_writable, Hw3.
    - rewrite (written_streams_eq _ _ _ Hs5), wrote_written by exact Hw3.
      unfold written. rewrite Hnew. reflexivity.
    - intros i Hi. rewrite Hs5, wrote_lookup_ne by lia. rewrite Hs3.
      subst e2. simpl. apply lookup_app_l. exact Hi.
    - repeat split; congruence. }
  destruct verbose.
  - wp_steps. unfold mutt_message. wp_steps.
    destruct (Hpost (set_notices
                       (notices (wrote n line e3) ++
                        [("Debugging at level %d to file '%s'",
                          [ArgD (LogFileLevel e); ArgS (Some path)])])
                       (wrote n line e3)))
      as (H1 & H2 & H3 & H4 & H5); try reflexivity; [repeat split|].
    split; [reflexivity|]. repeat (split; [assumption|]).
    split; [|exact H5]. simpl. rewrite Hn4, Hn3. reflexivity.
  - wp_steps.
    destruct (Hpost (wrote n line e3)) as (H1 & H2 & H3 & H4 & H5);
      try reflexivity; [repeat split|].
    split; [reflexivity|]. repeat (split; [assumption|]).
    split; [|exact H5]. rewrite Hn4, Hn3, app_nil_r. reflexivity.
Qed.

(** A name is set at program start, then the file is opened. *)
Lemma log_file_open_banner_witness :
  exists e',
    log_file_open true (set_LogFileName (Some "/tmp/neomutt.log") env_start)
      = Some (0, e') /\
    LogFileFP e' = Some (length (streams (set_LogFileName (Some "/tmp/neomutt.log") env_start))) /\
    writable (length (streams (set_LogFileName (Some "/tmp/neomutt.log") env_start))) e' /\
    written (length (streams (set_LogFileName (Some "/tmp/neomutt.log") env_start))) e'
      = banner_line
          (timestamp_text (now (set_LogFileName (Some "/tmp/neomutt.log") env_start)))
          (LogFileVersion (set_LogFileName (Some "/tmp/neomutt.log") env_start))
          (LogFileLevel (set_LogFileName (Some "/tmp/neomutt.log") env_start)) /\
    (forall i,
       (i < length (streams (set_LogFileName (Some "/tmp/neomutt.log") env_start)))%nat ->
       streams e' !! i
         = streams (set_LogFileName (Some "/tmp/neomutt.log") env_start) !! i) /\
    notices e'
      = notices (set_LogFileName (Some "/tmp/neomutt.log") env_start) ++
        (if true
         then [("Debugging at level %d to file '%s'",
                [ArgD (LogFileLevel (set_LogFileName (Some "/tmp/neomutt.log") env_start));
                 ArgS (Some "/tmp/neomutt.log")])]
         else []) /\
    same_inputs (set_LogFileName (Some "/tmp/neomutt.log") env_start) e'.
Proof.
  apply (log_file_open_banner
           true (set_LogFileName (Some "/tmp/neomutt.log") env_start)
           "/tmp/neomutt.log").
  - reflexivity.
  - reflexivity.
  - reflexivity.
  - right. vm_compute. discriminate.
Defined.

(** X4 (setting the threshold).  [log_file_set_level] always returns: a
    level outside 0..5 gives -1 and changes nothing; a level in range gives
    0 and is the threshold afterwards, also when the log file could not be
    opened.  The current level changes nothing at all; a new level 0 leaves
    no handle; a new level above 0 keeps an open handle and its streams and
    tells the user the level; without a handle it opens the file, and there
    is a handle afterwards exactly when a file name is set and the file can
    be opened. *)
Theorem log_file_set_level_cases (level : Z) (e : Env) :
  exists r e',
    log_file_set_level level e = Some (r, e') /\
    (level < 0 \/ 5 < level -> r = -1 /\ e' = e) /\
    (0 <= level <= 5 ->
       r = 0 /\ LogFileLevel e' = level /\ LogFileName e' = LogFileName e /\
       (level = LogFileLevel e -> e' = e) /\
       (level <> LogFileLevel e -> level = 0 -> LogFileFP e' = None) /\
       (level <> LogFileLevel e -> level <> 0 ->
          forall f, LogFileFP e = Some f ->
            LogFileFP e' = Some f /\ streams e' = streams e /\
            notices e' = notices e ++ [("Logging at level %d", [ArgD level])]) /\
       (level <> LogFileLevel e -> level <> 0 -> LogFileFP e = None ->
          (LogFileFP e' <> None <->
           exists path, LogFileName e = Some path /\
                        fopen_errno path (unopenable e) = None))).
Proof.
  apply wp_elim. unfold log_file_set_level.
  destruct ((level <? 0) || (level >? 5)) eqn:Hrange.
  { wp_steps. split; [intros _; split; reflexivity | intros Hin; exfalso; lia]. }
  wp_steps. destruct (level =? LogFileLevel e) eqn:Hcur.
  { wp_steps. apply Z.eqb_eq in Hcur.
    split; [intros Hout; exfalso; lia|]. intros _.
    split; [reflexivity|]. split; [symmetry; exact Hcur|]. split; [reflexivity|].
    split; [reflexivity|].
    split; [intros H; contradiction|].
    split; intros H; contradiction. }
  apply Z.eqb_neq in Hcur. wp_steps.
  destruct (level =? 0) eqn:Hzero.
  - apply Z.eqb_eq in Hzero. apply log_file_close_wp.
    intros e' Hfp' (Hname' & Hlevel' & _) _ _ _ _. wp_steps.
    split; [intros Hout; exfalso; lia|]. intros _.
    split; [reflexivity|]. split; [exact Hlevel'|]. split; [exact Hname'|].
    split; [intros H; contradiction|]. split; [intros _ _; exact Hfp'|].
    split; intros _ H; contradiction.
  - apply Z.eqb_neq in Hzero. wp_steps. simpl.
    destruct (LogFileFP e) as [f|] eqn:Hfp.
    + wp_steps. unfold mutt_message. wp_steps.
      split; [intros Hout; exfalso; lia|]. intros _.
      split; [reflexivity|]. split; [reflexivity|]. split; [reflexivity|].
      split; [intros H; contradiction|]. split; [intros _ H; contradiction|].
      split; [|intros _ _ H; discriminate H].
      intros _ _ f0 Hf0. simpl. rewrite Hfp. split; [exact Hf0|].
      split; reflexivity.
    + wp_steps. apply log_file_open_wp.
      * intros Hname. simpl in Hname. wp_steps.
        split; [intros Hout; exfalso; lia|]. intros _.
        split; [reflexivity|]. split; [reflexivity|]. split; [reflexivity|].
        split; [intros H; contradiction|]. split; [intros _ H; contradiction|].
        split; [intros _ _ f0 Hf0; discriminate Hf0|]. intros _ _ _. simpl.
        rewrite Hfp, Hname. split; [intros H; contradiction|].
        intros (path & Hpath & _). discriminate Hpath.
      * intros path r e' Hname (Hname' & Hlevel' & _) _ _ Hres.
        simpl in Hname, Hname', Hlevel', Hres. wp_steps.
        split; [intros Hout; exfalso; lia|]. intros _.
        split; [reflexivity|]. split; [exact Hlevel'|]. split; [exact Hname'|].
        split; [intros H; contradiction|]. split; [intros _ H; contradiction|].
        split; [intros _ _ f0 Hf0; discriminate Hf0|]. intros _ _ _.
        destruct Hres as [(Hok & _ & Hfp' & _) | (Herr & _ & Hfp')].
        -- split; [intros _; exists path; split; assumption|].
           intros _. rewrite Hfp'. discriminate.
        -- split; [intros H; contradiction|].
           intros (path' & Hpath' & Hok). congruence.
Qed.

(** ** More about the queue *)

Section MoreQueue.

Implicit Types (q : Queue) (ll : LogLine) (l lls : list LogLine).

(** Without a maximum nothing is ever dropped. *)
Lemma log_queue_add_all_unbounded lls :
  forall q,
    LogQueueMax q <= 0 ->
    LogQueueCount q + Z.of_nat (length lls) <= INT_MAX ->
    log_queue_add_all lls q =
      Some (tt, mk_Queue (LogQueue q ++ lls)
                         (LogQueueCount q + Z.of_nat (length lls)) (LogQueueMax q)).
Proof.
  induction lls as [|ll lls IH]; intros q Hmax Hint.
  - simpl. unfold ret. rewrite app_nil_r, Z.add_0_r. destruct q; reflexivity.
  - rewrite log_queue_add_all_cons.
    rewrite log_queue_add_grow by (simpl length in Hint; lia).
    rewrite IH by (simpl in *; lia). simpl.
    rewrite <- app_assoc. simpl. do 3 f_equal. lia.
Qed.

Lemma log_queue_add_consistent ll q n q' :
  queue_consistent q -> log_queue_add ll q = Some (n, q') -> queue_consistent q'.
Proof.
  unfold queue_consistent. intros Hcons Hadd.
  destruct (log_queue_add_inv _ _ _ _ Hadd)
    as (_ & _ & [(Hmax & Hfull & -> & ->) | (_ & -> & ->)]).
  - destruct (LogQueue q) as [|x l]; simpl in *; [lia|].
    rewrite length_app in *. simpl. rewrite Hcons. simpl. lia.
  - rewrite length_app. simpl. lia.
Qed.

Lemma log_disp_queue_wlp stamp file line function level fmt ap
    (Q : Z -> World -> Prop) e q :
  (forall ll n q',
     log_queue_add ll q = Some (n, q') ->
     ll_level ll = (if level =? LL_PERROR then LL_ERROR else level) ->
     forall r, Q r (e, q')) ->
  wlp (log_disp_queue stamp file line function level fmt ap) Q (e, q).
Proof.
  intros HQ. unfold wlp.
  destruct (log_disp_queue stamp file line function level fmt ap (e, q))
    as [[r [e' q']]|] eqn:Hrun; [|exact I].
  destruct (log_disp_queue_inv _ _ _ _ _ _ _ _ _ _ _ Hrun) as (ll & n & Hadd & He & Hlevel).
  simpl in Hadd, He. subst e'. eapply HQ; eassumption.
Qed.

(** A flush is the replay of the Records, then the emptying. *)
Lemma log_queue_flush_unfold (disp : log_dispatcher_t) e q :
  log_queue_flush disp (e, q) =
    (fun e' => (tt, (e', mk_Queue [] 0 (LogQueueMax q)))) <$> replay disp (LogQueue q) e.
Proof.
  unfold log_queue_flush, bind, gets, on_env, on_queue; simpl.
  rewrite log_queue_flush_loop_replays.
  destruct (replay disp (LogQueue q) e) as [e'|]; simpl; [|reflexivity].
  rewrite log_queue_empty_clears. reflexivity.
Qed.

End MoreQueue.

(** X5 (a queue without a maximum).  A maximum size of 0 or less means no
    maximum (a negative size is stored as 0): every Record inserted
    afterwards is kept, in insertion order behind the Records that were
    there, and the count grows by one for each, as long as it stays within
    [INT_MAX]. *)
Theorem log_queue_unbounded (size : Z) (lls : list LogLine) (q : Queue) :
  size <= 0 ->
  LogQueueCount q + Z.of_nat (length lls) <= INT_MAX ->
  (log_queue_set_max_size size ;;; log_queue_add_all lls) q =
    Some (tt, mk_Queue (LogQueue q ++ lls)
                       (LogQueueCount q + Z.of_nat (length lls)) 0).
Proof.
  intros Hsize Hint. unfold log_queue_set_max_size, bind, modify.
  destruct (size <? 0) eqn:Hneg;
    [|apply Z.ltb_ge in Hneg; assert (size = 0) by lia; subst size];
    (rewrite log_queue_add_all_unbounded; [reflexivity | simpl; lia | exact Hint]).
Qed.

(** A negative size, then A, B, C behind a Record that was there. *)
Lemma log_queue_unbounded_witness :
  (log_queue_set_max_size (-5) ;;; log_queue_add_all [line_A; line_B; line_C])
    (mk_Queue [line_C] 1 1) =
    Some (tt, mk_Queue (LogQueue (mk_Queue [line_C] 1 1) ++ [line_A; line_B; line_C])
                       (LogQueueCount (mk_Queue [line_C] 1 1)
                        + Z.of_nat (length [line_A; line_B; line_C])) 0).
Proof.
  apply (log_queue_unbounded (-5) [line_A; line_B; line_C] (mk_Queue [line_C] 1 1)).
  - lia.
  - vm_compute. discriminate.
Defined.

(** X6 (the count is the length).  From a queue whose count is the number
    of its Records, every operation of the queue keeps it so: an insertion
    (which returns that number, puts its Record last and stays within a
    positive maximum that was respected), a new maximum (which touches no
    Record), emptying (which leaves no Record and keeps the maximum), a
    flush through any dispatcher, a save, and a call of the queue
    dispatcher (which leaves the environment alone). *)
Theorem queue_consistent_kept (q : Queue) :
  queue_consistent q ->
  (forall ll n q',
     log_queue_add ll q = Some (n, q') ->
     queue_consistent q' /\ n = Z.of_nat (length (LogQueue q')) /\
     last (LogQueue q') = Some ll /\ LogQueueMax q' = LogQueueMax q /\
     (0 < LogQueueMax q -> LogQueueCount q <= LogQueueMax q ->
      LogQueueCount q' <= LogQueueMax q')) /\
  (forall size,
     wp (log_queue_set_max_size size)
        (fun _ q' => queue_consistent q' /\ LogQueue q' = LogQueue q /\
                     LogQueueMax q' = Z.max 0 size) q) /\
  wp log_queue_empty
     (fun _ q' => queue_consistent q' /\ LogQueue q' = [] /\
                  LogQueueMax q' = LogQueueMax q) q /\
  (forall disp e,
     wlp (log_queue_flush disp)
         (fun _ w' => queue_consistent (snd w') /\ LogQueue (snd w') = [] /\
                      LogQueueMax (snd w') = LogQueueMax q) (e, q)) /\
  (forall fp e,
     wlp (log_queue_save fp) (fun _ w' => queue_consistent (snd w')) (e, q)) /\
  (forall stamp file line function level fmt ap e,
     wlp (log_disp_queue stamp file line function level fmt ap)
         (fun _ w' => queue_consistent (snd w') /\ fst w' = e /\
                      LogQueueMax (snd w') = LogQueueMax q) (e, q)).
Proof.
  intros Hcons. split; [|split; [|split; [|split; [|split]]]].
  - intros ll n q' Hadd.
    pose proof (log_queue_add_consistent _ _ _ _ Hcons Hadd) as Hcons'.
    destruct (log_queue_add_inv _ _ _ _ Hadd) as (Hn & Hmax & Hcases).
    split; [exact Hcons'|]. split; [rewrite Hn; exact Hcons'|].
    split; [exact (log_queue_add_last _ _ _ _ Hcons Hadd)|]. split; [exact Hmax|].
    intros Hpos Hle. destruct Hcases as [(_ & _ & Hc & _) | (Hroom & Hc & _)]; lia.
  - intros size. unfold log_queue_set_max_size, wp, modify. simpl.
    split; [exact Hcons|]. split; [reflexivity|].
    destruct (size <? 0) eqn:Hneg; simpl; lia.
  - unfold wp. rewrite log_queue_empty_clears. simpl.
    split; [reflexivity|]. split; reflexivity.
  - intros disp e. unfold wlp.
    rewrite log_queue_flush_unfold.
    destruct (replay disp (LogQueue q) e) as [e'|]; simpl; [|exact I].
    split; [reflexivity|]. split; reflexivity.
  - intros fp e. unfold wlp, log_queue_save. destruct fp as [f|]; [|exact Hcons].
    unfold bind, gets, on_env. simpl.
    destruct (log_queue_save_loop f (LogQueue q) 0 e) as [[n e']|]; [exact Hcons | exact I].
  - intros stamp file line function level fmt ap e.
    apply log_disp_queue_wlp. intros ll n q' Hadd _ _. simpl.
    split; [eapply log_queue_add_consistent; eassumption|]. split; [reflexivity|].
    destruct (log_queue_add_inv _ _ _ _ Hadd) as (_ & Hmax & _). exact Hmax.
Qed.

(** The queue at program start. *)
Lemma queue_consistent_kept_witness :
  (forall ll n q',
     log_queue_add ll queue_start = Some (n, q') ->
     queue_consistent q' /\ n = Z.of_nat (length (LogQueue q')) /\
     last (LogQueue q') = Some ll /\ LogQueueMax q' = LogQueueMax queue_start /\
     (0 < LogQueueMax queue_start -> LogQueueCount queue_start <= LogQueueMax queue_start ->
      LogQueueCount q' <= LogQueueMax q')) /\
  (forall size,
     wp (log_queue_set_max_size size)
        (fun _ q' => queue_consistent q' /\ LogQueue q' = LogQueue queue_start /\
                     LogQueueMax q' = Z.max 0 size) queue_start) /\
  wp log_queue_empty
     (fun _ q' => queue_consistent q' /\ LogQueue q' = [] /\
                  LogQueueMax q' = LogQueueMax queue_start) queue_start /\
  (forall disp e,
     wlp (log_queue_flush disp)
         (fun _ w' => queue_consistent (snd w') /\ LogQueue (snd w') = [] /\
                      LogQueueMax (snd w') = LogQueueMax queue_start) (e, queue_start)) /\
  (forall fp e,
     wlp (log_queue_save fp) (fun _ w' => queue_consistent (snd w')) (e, queue_start)) /\
  (forall stamp file line function level fmt ap e,
     wlp (log_disp_queue stamp file line function level fmt ap)
         (fun _ w' => queue_consistent (snd w') /\ fst w' = e /\
                      LogQueueMax (snd w') = LogQueueMax queue_start) (e, queue_start)).
Proof.
  apply (queue_consistent_kept queue_start). reflexivity.
Defined.

(** ** What the queue dispatcher stores *)

Section StoredRecord.

Implicit Types (e : Env) (q : Queue) (ll : LogLine) (s buf : string).

Lemma strlen_string_take (n : nat) s :
  strlen (string_take n s) <= Z.of_nat n /\ strlen (string_take n s) <= strlen s.
Proof.
  unfold strlen. revert s. induction n as [|n IH]; intros [|c s]; simpl; try lia.
  specialize (IH s). lia.
Qed.

Lemma vsnprintf_inv (size : Z) fmt ap buf (n : Z) :
  vsnprintf size fmt ap = Some (buf, n) ->
  exists s, vformat fmt ap = Some s /\
            buf = string_take (Z.to_nat (size - 1)) s /\ n = strlen s.
Proof.
  unfold vsnprintf. destruct (vformat fmt ap) as [s|]; [|discriminate].
  intros H. inversion H. exists s. auto.
Qed.

(** The array never holds more than LONG_STRING - 1 characters. *)
Lemma snprintf_at_bound buf (off : Z) fmt ap buf' (n : Z) :
  strlen buf < LONG_STRING ->
  snprintf_at buf off fmt ap = Some (buf', n) -> strlen buf' < LONG_STRING.
Proof.
  intros Hbuf. unfold snprintf_at.
  destruct ((off <? 0) || (off >? LONG_STRING)) eqn:Hoff; [discriminate|].
  apply orb_false_iff in Hoff. destruct Hoff as [Hlow Hhigh].
  apply Z.ltb_ge in Hlow. rewrite Z.gtb_ltb in Hhigh. apply Z.ltb_ge in Hhigh.
  destruct (vformat fmt ap) as [s|]; [|discriminate]. cbn [mbind option_bind].
  destruct (off =? LONG_STRING) eqn:Hend.
  - intros H. inversion H; subst. exact Hbuf.
  - apply Z.eqb_neq in Hend. intros H. inversion H; subst. clear H.
    rewrite strlen_append.
    pose proof (strlen_string_take (Z.to_nat off) buf) as [H1 _].
    pose proof (strlen_string_take (Z.to_nat (LONG_STRING - off - 1)) s) as [H2 _].
    lia.
Qed.

(** Every call of the queue dispatcher that is defined adds one Record
    with the time, the place and the function of the call, and a message
    that fits the buffer. *)
Lemma log_disp_queue_record stamp file line function level fmt ap e q r w' :
  log_disp_queue stamp file line function level fmt ap (e, q) = Some (r, w') ->
  exists ll n,
    log_queue_add ll q = Some (n, snd w') /\ fst w' = e /\
    ll_time ll = effective_time stamp e /\ ll_file ll = file /\
    ll_line ll = line /\ ll_function ll = function /\
    ll_level ll = (if level =? LL_PERROR then LL_ERROR else level) /\
    strlen (NONULL (ll_message ll)) < LONG_STRING.
Proof.
  unfold log_disp_queue, bind, on_env, on_queue, time, gets, defined, ret, effective_time.
  cbn [fst snd].
  destruct (vsnprintf LONG_STRING fmt ap) as [[buf n0]|] eqn:Hfmt; [|discriminate].
  cbn [fst snd].
  destruct (vsnprintf_inv _ _ _ _ _ Hfmt) as (s & _ & Hbuf & _).
  assert (Hlen : strlen buf < LONG_STRING).
  { rewrite Hbuf. pose proof (strlen_string_take (Z.to_nat (LONG_STRING - 1)) s) as [H _].
    unfold LONG_STRING in *. lia. }
  clear Hfmt Hbuf.
  destruct (level =? LL_PERROR).
  - destruct (snprintf_at buf n0 ": %s" _) as [[buf' n1]|] eqn:Hat; [|discriminate].
    apply snprintf_at_bound in Hat; [|exact Hlen]. cbn [fst snd].
    destruct (stamp =? 0); cbn [fst snd];
      match goal with
      | |- context [log_queue_add ?l q] =>
          destruct (log_queue_add l q) as [[n q']|] eqn:Hadd; [|discriminate];
          intros H; inversion H; subst; exists l, n;
          cbn [fst snd ll_time ll_file ll_line ll_function ll_level ll_message];
          rewrite mutt_str_strdup_NONULL; auto 10
      end.
  - cbn [fst snd].
    destruct (stamp =? 0); cbn [fst snd];
      match goal with
      | |- context [log_queue_add ?l q] =>
          destruct (log_queue_add l q) as [[n q']|] eqn:Hadd; [|discriminate];
          intros H; inversion H; subst; exists l, n;
          cbn [fst snd ll_time ll_file ll_line ll_function ll_level ll_message];
          rewrite mutt_str_strdup_NONULL; auto 10
      end.
Qed.

End StoredRecord.

(** X7 (what the queue dispatcher stores).  The queue dispatcher does not
    filter by level.  Every call that is defined leaves the environment
    alone and puts last in the queue a Record with the time of the call
    (the current time for a stamp of 0), its file, line and function, and a
    message of fewer than LONG_STRING characters.  A call at a level other
    than PERROR whose format expands is defined while the count is below
    [INT_MAX]: it returns the full length of the expansion, and stores the
    level as given and the first LONG_STRING - 1 characters of the
    expansion (all of it if it fits; an empty text as NULL). *)
Theorem log_disp_queue_stores_call
    stamp file line function level fmt ap (e : Env) (q : Queue) :
  queue_consistent q ->
  (forall r w',
     log_disp_queue stamp file line function level fmt ap (e, q) = Some (r, w') ->
     fst w' = e /\
     exists ll,
       last (LogQueue (snd w')) = Some ll /\
       ll_time ll = effective_time stamp e /\ ll_file ll = file /\
       ll_line ll = line /\ ll_function ll = function /\
       strlen (NONULL (ll_message ll)) < LONG_STRING) /\
  (forall msg,
     level <> LL_PERROR -> vformat fmt ap = Some msg -> LogQueueCount q < INT_MAX ->
     exists q',
       log_disp_queue stamp file line function level fmt ap (e, q)
         = Some (strlen msg, (e, q')) /\
       last (LogQueue q')
         = Some (mk_LogLine (effective_time stamp e) file line function level
                   (mutt_str_strdup
                      (Some (string_take (Z.to_nat (LONG_STRING - 1)) msg)))) /\
       (strlen msg < LONG_STRING ->
        string_take (Z.to_nat (LONG_STRING - 1)) msg = msg)).
Proof.
  intros Hcons. split.
  - intros r w' Hrun.
    destruct (log_disp_queue_record _ _ _ _ _ _ _ _ _ _ _ Hrun)
      as (ll & n & Hadd & He & Ht & Hf & Hl & Hfn & _ & Hm).
    split; [exact He|]. exists ll.
    split; [exact (log_queue_add_last _ _ _ _ Hcons Hadd)|]. auto.
  - intros msg Hlevel Hfmt Hint.
    set (ll := mk_LogLine (effective_time stamp e) file line function level
                 (mutt_str_strdup (Some (string_take (Z.to_nat (LONG_STRING - 1)) msg)))).
    destruct (log_queue_add_defined ll q Hint) as (n & q' & Hadd).
    exists q'. split; [|split].
    + unfold log_disp_queue, bind, on_env, on_queue, time, gets, defined, ret.
      cbn [fst snd]. unfold vsnprintf. rewrite Hfmt. cbn [mbind option_bind fst snd].
      replace (level =? LL_PERROR) with false by (symmetry; apply Z.eqb_neq; exact Hlevel).
      cbn [fst snd].
      subst ll. unfold effective_time in Hadd.
      destruct (stamp =? 0) eqn:Hstamp; cbn [fst snd]; rewrite Hadd; reflexivity.
    + subst ll. exact (log_queue_add_last _ _ _ _ Hcons Hadd).
    + intros Hfit. apply string_take_all. unfold strlen, LONG_STRING in *. lia.
Qed.

(** A debug line into the queue at program start. *)
Lemma log_disp_queue_stores_call_witness :
  (forall r w',
     log_disp_queue 0 (Some "main.c") 42 (Some "main") 3 "%s: %d" [ArgS (Some "n"); ArgD 7]
                    (env_start, queue_start) = Some (r, w') ->
     fst w' = env_start /\
     exists ll,
       last (LogQueue (snd w')) = Some ll /\
       ll_time ll = effective_time 0 env_start /\ ll_file ll = Some "main.c" /\
       ll_line ll = 42 /\ ll_function ll = Some "main" /\
       strlen (NONULL (ll_message ll)) < LONG_STRING) /\
  (forall msg,
     3 <> LL_PERROR -> vformat "%s: %d" [ArgS (Some "n"); ArgD 7] = Some msg ->
     LogQueueCount queue_start < INT_MAX ->
     exists q',
       log_disp_queue 0 (Some "main.c") 42 (Some "main") 3 "%s: %d" [ArgS (Some "n"); ArgD 7]
                      (env_start, queue_start)
         = Some (strlen msg, (env_start, q')) /\
       last (LogQueue q')
         = Some (mk_LogLine (effective_time 0 env_start) (Some "main.c") 42 (Some "main") 3
                   (mutt_str_strdup
                      (Some (string_take (Z.to_nat (LONG_STRING - 1)) msg)))) /\
       (strlen msg < LONG_STRING ->
        string_take (Z.to_nat (LONG_STRING - 1)) msg = msg)).
Proof.
  apply (log_disp_queue_stores_call
           0 (Some "main.c") 42 (Some "main") 3 "%s: %d" [ArgS (Some "n"); ArgD 7]
           env_start queue_start).
  reflexivity.
Defined.

(** ** The text of the log file *)

Section FileText.

Implicit Types (e : Env) (f i : nat) (s : string) (l : list LogLine).

Lemma ts_ready_effective stamp e :
  ts_ready e -> ts_coherent e \/ effective_time stamp e <> ts_last e.
Proof.
  intros [Hcoh | [Hlast Hnow]]; [left; exact Hcoh|]. right.
  unfold effective_time. destruct (stamp =? 0) eqn:Hstamp.
  - congruence.
  - apply Z.eqb_neq in Hstamp. congruence.
Qed.

(** A line that passes the filter, on a stream that takes the writes:
    the text that goes out and everything else that is left as it was. *)
Lemma log_disp_file_exact_wp stamp file line function level fmt ap msg f c
    (Q : Z -> Env -> Prop) e :
  LogFileFP e = Some f -> writable f e ->
  LL_PERROR <= level <= LogFileLevel e ->
  char_at LevelAbbr (level + 3) = Some c ->
  vformat fmt ap = Some msg ->
  ts_coherent e \/ effective_time stamp e <> ts_last e ->
  (forall e',
     same_globals e e' -> errno e' = errno e -> notices e' = notices e ->
     writable f e' -> ts_coherent e' ->
     written f e' = written f e
                    +:+ file_prefix (timestamp_text (effective_time stamp e)) c function
                    +:+ msg +:+ file_suffix level (errno e) ->
     (forall i, i <> f -> streams e' !! i = streams e !! i) ->
     Q (strlen msg + (if (LL_PERROR <? level) && (level <=? 0) then 1 else 0)) e') ->
  wp (log_disp_file stamp file line function level fmt ap) Q e.
Proof.
  intros Hfp Hw [Hlow Hhigh] Hc Hfmt Hcache HQ.
  unfold log_disp_file. wp_steps. rewrite Hfp.
  replace (level <? LL_PERROR) with false by (symmetry; apply Z.ltb_ge; lia).
  replace (level >? LogFileLevel e) with false
    by (symmetry; rewrite Z.gtb_ltb; apply Z.ltb_ge; lia).
  simpl orb. cbv iota. wp_steps.
  apply timestamp_exact_wp; [exact Hcache|].
  intros e1 Hg1 Hs1 Herr1 Hn1 Hcoh1 _ _.
  set (ts := timestamp_text (effective_time stamp e)).
  assert (Hw1 : writable f e1) by (eapply writable_streams_eq; eassumption).
  assert (Hpost : forall text,
            text = file_prefix ts c function +:+ msg +:+ file_suffix level (errno e) ->
            Q (strlen msg + (if (LL_PERROR <? level) && (level <=? 0) then 1 else 0))
              (wrote f text e1)).
  { intros text ->.
    destruct (wrote_fields f (file_prefix ts c function +:+ msg
                              +:+ file_suffix level (errno e)) e1)
      as (Herr & Hn & _ & _ & Hg).
    apply HQ.
    - eapply same_globals_trans; eassumption.
    - congruence.
    - congruence.
    - apply wrote_writable, Hw1.
    - apply wrote_ts_coherent, Hcoh1.
    - rewrite wrote_written by exact Hw1.
      rewrite (written_streams_eq _ _ _ Hs1). reflexivity.
    - intros i Hi. rewrite wrote_lookup_ne by exact Hi. rewrite Hs1. reflexivity. }
  wp_steps. apply (wp_defined _ c); [exact Hc|].
  wp_steps. eapply fprintf_writable_wp; [apply vformat_file_prefix | exact Hw1 |].
  fold ts.
  assert (Hw2 : writable f (wrote f (file_prefix ts c function) e1))
    by (apply wrote_writable, Hw1).
  wp_steps. eapply fprintf_writable_wp; [exact Hfmt | exact Hw2 |].
  rewrite wrote_wrote.
  assert (Hw3 : writable f (wrote f (file_prefix ts c function +:+ msg) e1))
    by (apply wrote_writable, Hw1).
  unfold file_suffix in Hpost. destruct (level =? LL_PERROR) eqn:Hperror.
  - wp_steps. eapply fprintf_writable_wp; [apply vformat_perror_suffix | exact Hw3 |].
    wp_steps. rewrite wrote_wrote.
    apply Z.eqb_eq in Hperror. subst level.
    replace (strlen msg) with (strlen msg + 0) by lia.
    apply Hpost. rewrite <- Herr1, ?append_assoc. reflexivity.
  - apply Z.eqb_neq in Hperror.
    replace (LL_PERROR <? level) with true in Hpost by (symmetry; apply Z.ltb_lt; lia).
    simpl andb in Hpost. destruct (level <=? 0).
    + wp_steps. apply fputs_writable_wp; [exact Hw3|]. wp_steps.
      rewrite wrote_wrote. apply Hpost. rewrite ?append_assoc. reflexivity.
    + wp_steps. replace (strlen msg) with (strlen msg + 0) by lia.
      apply Hpost. rewrite ?append_assoc, ?append_nil_r. reflexivity.
Qed.






End FileText.



(** The text of that flush. *)
Example flush_text_drops_debug_line :
  flush_text (env_logging 0) [line_A; line_B; line_C]
    = "[2018-01-01 12:00:00]<M> main() A" +:+ nl
      +:+ "[2018-01-01 12:00:02]<E> main() 100% %s" +:+ nl.
Proof. reflexivity. Qed.

(** ** From the queue to the log file *)

Section QueueToFile.

Implicit Types (e : Env) (q : Queue).


End QueueToFile.



(** ** The text on stderr *)

Section StderrText.

Implicit Types (e : Env) (s : string).





End StderrText.



(** The same call, run: the warning in yellow on stderr, 14 characters
    counted. *)
Example log_disp_stderr_warning_run :
  exists e',
    log_disp_stderr 0 None 0 (Some "main") LL_WARNING "%s" [ArgS (Some "hi")]
        (mk_Env ENOENT 1514808000
                [stderr_stream; mk_stream "/tmp/neomutt.log" true None ""]
                [] true "" 0 [] (Some 1%nat) (Some "/tmp/neomutt.log") 0 None)
      = Some (14, e') /\
    written stderr e' = esc +:+ "[1;33mhi" +:+ esc +:+ "[0m" +:+ nl /\
    written 1 e' = "[2018-01-01 12:00:00]<W> main() hi" +:+ nl.
Proof. eexists. split; [vm_compute; reflexivity|]. split; reflexivity. Qed.

(** * Properties of mutt_account.c *)

(** ** Flags *)

Section Flags.

Implicit Types (f k j : Z) (account : Account).

Lemma land_pow2_set f k :
  0 <= k -> Z.testbit f k = true -> Z.land f (2 ^ k) = 2 ^ k.
Proof.
  intros Hk Hb. apply Z.bits_inj'. intros n Hn.
  rewrite Z.land_spec, Z.pow2_bits_eqb by exact Hk.
  destruct (Z.eqb_spec k n) as [->|Hne]; [rewrite Hb; reflexivity | apply andb_false_r].
Qed.

Lemma land_pow2_clear f k :
  0 <= k -> Z.testbit f k = false -> Z.land f (2 ^ k) = 0.
Proof.
  intros Hk Hb. apply Z.bits_inj'. intros n Hn.
  rewrite Z.land_spec, Z.pow2_bits_eqb, Z.bits_0 by exact Hk.
  destruct (Z.eqb_spec k n) as [->|Hne]; [rewrite Hb; reflexivity | apply andb_false_r].
Qed.

(** The test [flags & (1 << k)] reads bit [k]. *)
Lemma truthy_land_pow2 f k : 0 <= k -> truthy (Z.land f (2 ^ k)) = Z.testbit f k.
Proof.
  intros Hk. unfold truthy. destruct (Z.testbit f k) eqn:Hb.
  - rewrite land_pow2_set by assumption.
    assert (0 < 2 ^ k) by (apply Z.pow_pos_nonneg; lia).
    destruct (Z.eqb_spec (2 ^ k) 0); [lia | reflexivity].
  - rewrite land_pow2_clear by assumption. reflexivity.
Qed.

Lemma truthy_lor_pow2 f j k :
  0 <= j -> 0 <= k ->
  truthy (Z.land (Z.lor f (2 ^ j)) (2 ^ k)) = truthy (Z.land f (2 ^ k)) || (j =? k).
Proof.
  intros Hj Hk. rewrite !truthy_land_pow2 by exact Hk.
  rewrite Z.lor_spec, Z.pow2_bits_eqb by exact Hj. reflexivity.
Qed.

Lemma truthy_clear_pow2 f j k :
  0 <= j -> 0 <= k ->
  truthy (Z.land (Z.land f (Z.lnot (2 ^ j))) (2 ^ k))
    = truthy (Z.land f (2 ^ k)) && negb (j =? k).
Proof.
  intros Hj Hk. rewrite !truthy_land_pow2 by exact Hk.
  rewrite Z.land_spec, Z.lnot_spec, Z.pow2_bits_eqb by assumption. reflexivity.
Qed.

(** Setting a flag that is set changes nothing. *)
Lemma lor_pow2_set f k :
  0 <= k -> truthy (Z.land f (2 ^ k)) = true -> Z.lor f (2 ^ k) = f.
Proof.
  intros Hk Hb. rewrite truthy_land_pow2 in Hb by exact Hk.
  apply Z.bits_inj'. intros n Hn.
  rewrite Z.lor_spec, Z.pow2_bits_eqb by exact Hk.
  destruct (Z.eqb_spec k n) as [->|Hne]; [rewrite Hb; reflexivity | apply orb_false_r].
Qed.

Lemma mutt_str_strfcpy_fits (s : string) (size : Z) :
  strlen s < size -> mutt_str_strfcpy s size = s.
Proof.
  intros Hfit. apply string_take_all. unfold strlen in Hfit. lia.
Qed.

Lemma mutt_str_strfcpy_bound (s : string) (size : Z) :
  0 < size -> strlen (mutt_str_strfcpy s size) < size.
Proof.
  intros Hsize. pose proof (strlen_string_take (Z.to_nat (size - 1)) s) as [H _].
  unfold mutt_str_strfcpy. lia.
Qed.

End Flags.

(** The flags of an account: how setting one reads back. *)
Ltac flag_bits :=
  unfold has_flag, MUTT_ACCT_PORT, MUTT_ACCT_USER, MUTT_ACCT_LOGIN, MUTT_ACCT_PASS,
    MUTT_ACCT_SSL in *;
  cbn [a_flags set_a_flags set_a_user set_a_pass set_a_port set_a_host set_a_login] in *;
  rewrite ?truthy_lor_pow2, ?truthy_clear_pow2 by lia;
  cbn [Z.eqb Pos.eqb orb andb negb];
  rewrite ?orb_false_r, ?orb_true_r, ?andb_true_r, ?andb_false_r.

(** X13 (from a URL to an account and back).  [mutt_account_fromurl] fails
    with -1, and leaves the account alone, exactly when the URL has no
    host.  Otherwise it returns 0, and the URL [mutt_account_tourl] then
    makes of the account has the host, the user, the password and the port
    of the URL it was filled from (each string as far as it fits its
    array); what the URL did not have (no user, no password, a port of 0)
    reads as it did on the account before.  The scheme is that of the type
    of the account, which the URL does not change, and there is no path. *)
Theorem account_of_url_round_trip (cfg : Settings) (account : Account) (url : Url) :
  (u_host url = None -> mutt_account_fromurl account url = (-1, account)) /\
  (forall host,
     u_host url = Some host ->
     exists account',
       mutt_account_fromurl account url = (0, account') /\
       a_type account' = a_type account /\ a_login account' = a_login account /\
       has_flag MUTT_ACCT_SSL account' = has_flag MUTT_ACCT_SSL account /\
       has_flag MUTT_ACCT_LOGIN account' = has_flag MUTT_ACCT_LOGIN account /\
       u_host (mutt_account_tourl cfg account')
         = Some (mutt_str_strfcpy host sizeof_host) /\
       u_user (mutt_account_tourl cfg account')
         = match u_user url with
           | Some user => Some (mutt_str_strfcpy user sizeof_user)
           | None => u_user (mutt_account_tourl cfg account)
           end /\
       u_pass (mutt_account_tourl cfg account')
         = match u_pass url with
           | Some pass => Some (mutt_str_strfcpy pass sizeof_pass)
           | None => u_pass (mutt_account_tourl cfg account)
           end /\
       u_port (mutt_account_tourl cfg account')
         = (if u_port url =? 0 then u_port (mutt_account_tourl cfg account)
            else u_port url) /\
       u_scheme (mutt_account_tourl cfg account')
         = u_scheme (mutt_account_tourl cfg account) /\
       u_path (mutt_account_tourl cfg account') = None).
Proof.
  split.
  - intros Hhost. unfold mutt_account_fromurl. rewrite Hhost. reflexivity.
  - intros host Hhost. unfold mutt_account_fromurl. rewrite Hhost.
    change (truthy (u_port url)) with (negb (u_port url =? 0)).
    eexists. split; [reflexivity|].
    destruct (u_user url) as [user|]; destruct (u_pass url) as [pass|];
      destruct (u_port url =? 0); cbn [negb];
      unfold mutt_account_tourl;
      cbn [u_host u_user u_pass u_port u_scheme u_path a_type a_login a_user a_pass
           a_host a_port a_flags set_a_flags set_a_user set_a_pass set_a_port
           set_a_host set_a_login];
      flag_bits; repeat split; reflexivity.
Qed.

(** X14 (from an account to a URL and back).  An account whose strings fit
    their arrays is left exactly as it is when it is filled from the URL
    made of it, and the call returns 0: no flag is added or lost, also not
    for a port of 0 under the port flag, which the URL shows as no port. *)
Theorem account_survives_own_url (cfg : Settings) (account : Account) :
  account_fits account ->
  mutt_account_fromurl account (mutt_account_tourl cfg account) = (0, account).
Proof.
  intros (Huser & _ & Hpass & Hhost).
  unfold mutt_account_fromurl, mutt_account_tourl.
  cbn [u_host u_user u_pass u_port].
  rewrite (mutt_str_strfcpy_fits _ _ Hhost).
  assert (Hsame : set_a_host (a_host account) account = account)
    by (destruct account; reflexivity).
  rewrite Hsame. clear Hsame.
  assert (Huser' : forall a : Account,
            a = account ->
            match (if truthy (Z.land (a_flags account) MUTT_ACCT_USER)
                   then Some (a_user account) else None) with
            | Some user =>
                set_a_flags (Z.lor (a_flags a) MUTT_ACCT_USER)
                            (set_a_user (mutt_str_strfcpy user sizeof_user) a)
            | None => a
            end = account).
  { intros a ->. destruct (truthy (Z.land (a_flags account) MUTT_ACCT_USER)) eqn:Hb;
      [|reflexivity].
    rewrite (mutt_str_strfcpy_fits _ _ Huser).
    unfold MUTT_ACCT_USER in *. cbn [a_flags set_a_user].
    rewrite lor_pow2_set by (lia || exact Hb). destruct account; reflexivity. }
  rewrite (Huser' account eq_refl). clear Huser'.
  assert (Hpass' : match (if truthy (Z.land (a_flags account) MUTT_ACCT_PASS)
                          then Some (a_pass account) else None) with
                   | Some pass =>
                       set_a_flags (Z.lor (a_flags account) MUTT_ACCT_PASS)
                                   (set_a_pass (mutt_str_strfcpy pass sizeof_pass) account)
                   | None => account
                   end = account).
  { destruct (truthy (Z.land (a_flags account) MUTT_ACCT_PASS)) eqn:Hb; [|reflexivity].
    rewrite (mutt_str_strfcpy_fits _ _ Hpass).
    unfold MUTT_ACCT_PASS in *.
    rewrite lor_pow2_set by (lia || exact Hb). destruct account; reflexivity. }
  rewrite Hpass'. clear Hpass'.
  destruct (truthy (Z.land (a_flags account) MUTT_ACCT_PORT)) eqn:Hb.
  - destruct (truthy (a_port account)); [|reflexivity].
    unfold MUTT_ACCT_PORT in *.
    rewrite lor_pow2_set by (lia || exact Hb). destruct account; reflexivity.
  - reflexivity.
Qed.

(** An IMAP account with a user, a password, and the port flag on port 0. *)
Lemma account_survives_own_url_witness :
  mutt_account_fromurl
    (mk_Account "jim" "" "secret" "mail.example.com" 0 MUTT_ACCT_TYPE_IMAP 11)
    (mutt_account_tourl settings_plain
       (mk_Account "jim" "" "secret" "mail.example.com" 0 MUTT_ACCT_TYPE_IMAP 11))
    = (0, mk_Account "jim" "" "secret" "mail.example.com" 0 MUTT_ACCT_TYPE_IMAP 11).
Proof.
  apply (account_survives_own_url
           settings_plain
           (mk_Account "jim" "" "secret" "mail.example.com" 0 MUTT_ACCT_TYPE_IMAP 11)).
  repeat split; vm_compute; reflexivity.
Defined.

(** What a URL does not carry: filled from the URL of another account, a
    blank account gets neither the type nor the login nor the SSL flag. *)
Example account_from_url_of_other :
  mutt_account_fromurl
    (mk_Account "" "" "" "" 0 MUTT_ACCT_TYPE_NONE 0)
    (mutt_account_tourl settings_plain
       (mk_Account "jim" "jim" "secret" "mail.example.com" 993 MUTT_ACCT_TYPE_IMAP 31))
    = (0, mk_Account "jim" "" "secret" "mail.example.com" 993 MUTT_ACCT_TYPE_NONE 11).
Proof. reflexivity. Qed.

(** ** User name and password *)

Section Credentials.

Implicit Types (cfg : Settings) (account : Account) (ui : Ui).

Lemma vformat_username_prompt (host : string) :
  vformat "Username at %s: " [ArgS (Some host)]
    = Some ("Username at " +:+ host +:+ ": ").
Proof. reflexivity. Qed.

Lemma vformat_password_prompt (user host : string) :
  vformat "Password for %s@%s: " [ArgS (Some user); ArgS (Some host)]
    = Some ("Password for " +:+ user +:+ "@" +:+ host +:+ ": ").
Proof. reflexivity. Qed.

(** The four flags a call for flag [2 ^ k] leaves alone. *)
Lemma set_flag_others account k (v : Account) :
  0 <= k -> a_flags v = Z.lor (a_flags account) (2 ^ k) ->
  forall j, 0 <= j -> j <> k ->
    truthy (Z.land (a_flags v) (2 ^ j)) = truthy (Z.land (a_flags account) (2 ^ j)).
Proof.
  intros Hk -> j Hj Hne. rewrite truthy_lor_pow2 by assumption.
  destruct (Z.eqb_spec k j); [congruence | apply orb_false_r].
Qed.

(** [mutt_account_getuser], case by case. *)
Lemma mutt_account_getuser_run cfg account ui :
  mutt_account_getuser cfg account ui =
    if has_flag MUTT_ACCT_USER account then Some ((0, account), ui)
    else
      match configured_user cfg account with
      | Some user =>
          Some ((0, set_a_flags (Z.lor (a_flags account) MUTT_ACCT_USER)
                      (set_a_user (mutt_str_strfcpy user sizeof_user) account)), ui)
      | None =>
          if OPT_NO_CURSES cfg then Some ((-1, account), ui)
          else
            match ui_answers ui with
            | [] => None
            | answer :: rest =>
                let shown :=
                  mk_Ui rest
                        (ui_prompts ui ++
                         [(string_take (Z.to_nat (STRING - 1))
                                       ("Username at " +:+ a_host account +:+ ": "),
                           mutt_str_strfcpy (NONULL (Username cfg)) sizeof_user, 0)]) in
                match answer with
                | Some s =>
                    Some ((0, set_a_flags (Z.lor (a_flags account) MUTT_ACCT_USER)
                                (set_a_user (mutt_str_strfcpy s sizeof_user) account)),
                          shown)
                | None =>
                    Some ((-1, set_a_user
                                 (mutt_str_strfcpy (NONULL (Username cfg)) sizeof_user)
                                 account), shown)
                end
            end
      end.
Proof.
  unfold mutt_account_getuser, has_flag.
  destruct (truthy (Z.land (a_flags account) MUTT_ACCT_USER)); [reflexivity|].
  destruct (configured_user cfg account) as [user|]; [reflexivity|].
  destruct (OPT_NO_CURSES cfg); [reflexivity|].
  unfold bind, defined, vsnprintf. rewrite vformat_username_prompt.
  cbn [mbind option_bind fst snd]. unfold mutt_get_field_unbuffered.
  cbn [a_user set_a_user].
  destruct (ui_answers ui) as [|[s|] rest]; reflexivity.
Qed.

(** [mutt_account_getpass], case by case. *)
Lemma mutt_account_getpass_run cfg account ui :
  mutt_account_getpass cfg account ui =
    if has_flag MUTT_ACCT_PASS account then Some ((0, account), ui)
    else
      match configured_pass cfg account with
      | Some pass =>
          Some ((0, set_a_flags (Z.lor (a_flags account) MUTT_ACCT_PASS)
                      (set_a_pass (mutt_str_strfcpy pass sizeof_pass) account)), ui)
      | None =>
          if OPT_NO_CURSES cfg then Some ((-1, account), ui)
          else
            match ui_answers ui with
            | [] => None
            | answer :: rest =>
                let shown :=
                  mk_Ui rest
                        (ui_prompts ui ++
                         [(string_take (Z.to_nat (STRING - 1))
                             ("Password for "
                              +:+ (if has_flag MUTT_ACCT_LOGIN account
                                   then a_login account else a_user account)
                              +:+ "@" +:+ a_host account +:+ ": "),
                           "", MUTT_PASS)]) in
                match answer with
                | Some s =>
                    Some ((0, set_a_flags (Z.lor (a_flags account) MUTT_ACCT_PASS)
                                (set_a_pass (mutt_str_strfcpy s sizeof_pass) account)),
                          shown)
                | None => Some ((-1, set_a_pass "" account), shown)
                end
            end
      end.
Proof.
  unfold mutt_account_getpass, has_flag.
  destruct (truthy (Z.land (a_flags account) MUTT_ACCT_PASS)); [reflexivity|].
  destruct (configured_pass cfg account) as [pass|]; [reflexivity|].
  destruct (OPT_NO_CURSES cfg); [reflexivity|].
  unfold bind, defined, vsnprintf. rewrite vformat_password_prompt.
  cbn [mbind option_bind fst snd].
  unfold mutt_get_password, mutt_get_field_unbuffered.
  cbn [a_pass set_a_pass a_host].
  destruct (ui_answers ui) as [|[s|] rest]; reflexivity.
Qed.

End Credentials.

(** X15 (the user name of an account).  Every call of
    [mutt_account_getuser] that returns gives 0 or -1, and 0 exactly when
    the account has the user flag afterwards; it never touches the host,
    the port, the type, the login, the password or another flag.  With
    the flag set it changes nothing and asks nothing; a user name
    configured for the protocol is taken (as far as it fits) without
    asking; otherwise, unless curses is off, the user is asked once,
    "Username at <host>: ", with [Username] to edit, and an aborted prompt
    gives -1.  After a success a second call changes nothing and asks
    nothing. *)
Theorem mutt_account_getuser_outcome
    (cfg : Settings) (account : Account) (ui : Ui)
    (r : Z) (account' : Account) (ui' : Ui) :
  mutt_account_getuser cfg account ui = Some ((r, account'), ui') ->
  (r = 0 \/ r = -1) /\
  (r = 0 <-> has_flag MUTT_ACCT_USER account' = true) /\
  same_place account account' /\
  a_login account' = a_login account /\ a_pass account' = a_pass account /\
  has_flag MUTT_ACCT_PORT account' = has_flag MUTT_ACCT_PORT account /\
  has_flag MUTT_ACCT_LOGIN account' = has_flag MUTT_ACCT_LOGIN account /\
  has_flag MUTT_ACCT_PASS account' = has_flag MUTT_ACCT_PASS account /\
  has_flag MUTT_ACCT_SSL account' = has_flag MUTT_ACCT_SSL account /\
  (has_flag MUTT_ACCT_USER account = true -> account' = account /\ ui' = ui) /\
  (forall user,
     has_flag MUTT_ACCT_USER account = false -> configured_user cfg account = Some user ->
     r = 0 /\ a_user account' = mutt_str_strfcpy user sizeof_user /\ ui' = ui) /\
  (ui' = ui \/
   (OPT_NO_CURSES cfg = false /\ has_flag MUTT_ACCT_USER account = false /\
    configured_user cfg account = None /\
    exists answer,
      ui_answers ui = answer :: ui_answers ui' /\
      ui_prompts ui'
        = ui_prompts ui ++
          [(string_take (Z.to_nat (STRING - 1))
                        ("Username at " +:+ a_host account +:+ ": "),
            mutt_str_strfcpy (NONULL (Username cfg)) sizeof_user, 0)] /\
      match answer with
      | Some s => r = 0 /\ a_user account' = mutt_str_strfcpy s sizeof_user
      | None => r = -1
      end)) /\
  (r = 0 -> forall ui2, mutt_account_getuser cfg account' ui2 = Some ((0, account'), ui2)).
Proof.
  rewrite mutt_account_getuser_run.
  assert (Hagain : forall a ui2,
            has_flag MUTT_ACCT_USER a = true ->
            mutt_account_getuser cfg a ui2 = Some ((0, a), ui2))
    by (intros a ui2 Ha; rewrite mutt_account_getuser_run, Ha; reflexivity).
  assert (Hset : forall v,
            has_flag MUTT_ACCT_USER
              (set_a_flags (Z.lor (a_flags account) MUTT_ACCT_USER) (set_a_user v account))
            = true)
    by (intros v; flag_bits; reflexivity).
  destruct (has_flag MUTT_ACCT_USER account) eqn:Hflag.
  { intros H. inversion H; subst r account' ui'; clear H.
    split; [left; reflexivity|]. split; [split; [intros _; exact Hflag | reflexivity]|].
    split; [repeat split|]. repeat (split; [reflexivity|]).
    split; [intros _; split; reflexivity|].
    split; [intros user Hf; discriminate Hf|].
    split; [left; reflexivity|]. intros _ ui2. apply Hagain, Hflag. }
  destruct (configured_user cfg account) as [user|] eqn:Hconf.
  { intros H. inversion H; subst r account' ui'; clear H.
    split; [left; reflexivity|]. split; [split; [intros _; apply Hset | reflexivity]|].
    split; [repeat split|]. do 2 (split; [reflexivity|]).
    do 4 (split; [flag_bits; reflexivity|]).
    split; [intros Hf; discriminate Hf|].
    split; [intros user' _ Huser'; inversion Huser'; subst user';
            repeat split; reflexivity|].
    split; [left; reflexivity|]. intros _ ui2. apply Hagain, Hset. }
  destruct (OPT_NO_CURSES cfg) eqn:Hcurses.
  { intros H. inversion H; subst r account' ui'; clear H.
    split; [right; reflexivity|].
    split; [split; [intros Hr; discriminate Hr | intros Hf; congruence]|].
    split; [repeat split|]. repeat (split; [reflexivity|]).
    split; [intros Hf; discriminate Hf|].
    split; [intros user _ Huser; discriminate Huser|].
    split; [left; reflexivity|]. intros Hr; discriminate Hr. }
  destruct (ui_answers ui) as [|[s|] rest] eqn:Hanswers; [discriminate| |].
  - cbv zeta. intros H. inversion H; subst r account' ui'; clear H.
    split; [left; reflexivity|]. split; [split; [intros _; apply Hset | reflexivity]|].
    split; [repeat split|]. do 2 (split; [reflexivity|]).
    do 4 (split; [flag_bits; reflexivity|]).
    split; [intros Hf; discriminate Hf|].
    split; [intros user _ Huser; discriminate Huser|].
    split; [|intros _ ui2; apply Hagain, Hset].
    right. repeat (split; [reflexivity|]).
    exists (Some s). repeat split; reflexivity.
  - cbv zeta. intros H. inversion H; subst r account' ui'; clear H.
    split; [right; reflexivity|].
    split; [split; [intros Hr; discriminate Hr
                   | intros Hf; unfold has_flag in *; cbn [a_flags set_a_user] in Hf;
                     congruence]|].
    split; [repeat split|]. repeat (split; [reflexivity|]).
    split; [intros Hf; discriminate Hf|].
    split; [intros user _ Huser; discriminate Huser|].
    split; [|intros Hr; discriminate Hr].
    right. repeat (split; [reflexivity|]).
    exists None. repeat split; reflexivity.
Qed.

(** The IMAP account on a terminal where the user types "joe". *)
Lemma mutt_account_getuser_outcome_witness :
  (0 = 0 \/ 0 = -1) /\
  (0 = 0 <-> has_flag MUTT_ACCT_USER
               (mk_Account "joe" "" "" "mail.example.com" 0 MUTT_ACCT_TYPE_IMAP 2) = true) /\
  same_place account_imap
             (mk_Account "joe" "" "" "mail.example.com" 0 MUTT_ACCT_TYPE_IMAP 2) /\
  a_login (mk_Account "joe" "" "" "mail.example.com" 0 MUTT_ACCT_TYPE_IMAP 2)
    = a_login account_imap /\
  a_pass (mk_Account "joe" "" "" "mail.example.com" 0 MUTT_ACCT_TYPE_IMAP 2)
    = a_pass account_imap /\
  has_flag MUTT_ACCT_PORT (mk_Account "joe" "" "" "mail.example.com" 0 MUTT_ACCT_TYPE_IMAP 2)
    = has_flag MUTT_ACCT_PORT account_imap /\
  has_flag MUTT_ACCT_LOGIN (mk_Account "joe" "" "" "mail.example.com" 0 MUTT_ACCT_TYPE_IMAP 2)
    = has_flag MUTT_ACCT_LOGIN account_imap /\
  has_flag MUTT_ACCT_PASS (mk_Account "joe" "" "" "mail.example.com" 0 MUTT_ACCT_TYPE_IMAP 2)
    = has_flag MUTT_ACCT_PASS account_imap /\
  has_flag MUTT_ACCT_SSL (mk_Account "joe" "" "" "mail.example.com" 0 MUTT_ACCT_TYPE_IMAP 2)
    = has_flag MUTT_ACCT_SSL account_imap /\
  (has_flag MUTT_ACCT_USER account_imap = true ->
   mk_Account "joe" "" "" "mail.example.com" 0 MUTT_ACCT_TYPE_IMAP 2 = account_imap /\
   mk_Ui [] [("Username at mail.example.com: ", "jim", 0)] = ui_start [Some "joe"]) /\
  (forall user,
     has_flag MUTT_ACCT_USER account_imap = false ->
     configured_user settings_plain account_imap = Some user ->
     0 = 0 /\
     a_user (mk_Account "joe" "" "" "mail.example.com" 0 MUTT_ACCT_TYPE_IMAP 2)
       = mutt_str_strfcpy user sizeof_user /\
     mk_Ui [] [("Username at mail.example.com: ", "jim", 0)] = ui_start [Some "joe"]) /\
  (mk_Ui [] [("Username at mail.example.com: ", "jim", 0)] = ui_start [Some "joe"] \/
   (OPT_NO_CURSES settings_plain = false /\ has_flag MUTT_ACCT_USER account_imap = false /\
    configured_user settings_plain account_imap = None /\
    exists answer,
      ui_answers (ui_start [Some "joe"])
        = answer :: ui_answers (mk_Ui [] [("Username at mail.example.com: ", "jim", 0)]) /\
      ui_prompts (mk_Ui [] [("Username at mail.example.com: ", "jim", 0)])
        = ui_prompts (ui_start [Some "joe"]) ++
          [(string_take (Z.to_nat (STRING - 1))
                        ("Username at " +:+ a_host account_imap +:+ ": "),
            mutt_str_strfcpy (NONULL (Username settings_plain)) sizeof_user, 0)] /\
      match answer with
      | Some s =>
          0 = 0 /\
          a_user (mk_Account "joe" "" "" "mail.example.com" 0 MUTT_ACCT_TYPE_IMAP 2)
            = mutt_str_strfcpy s sizeof_user
      | None => 0 = -1
      end)) /\
  (0 = 0 ->
   forall ui2,
     mutt_account_getuser settings_plain
       (mk_Account "joe" "" "" "mail.example.com" 0 MUTT_ACCT_TYPE_IMAP 2) ui2
       = Some ((0, mk_Account "joe" "" "" "mail.example.com" 0 MUTT_ACCT_TYPE_IMAP 2), ui2)).
Proof.
  apply (mutt_account_getuser_outcome
           settings_plain account_imap (ui_start [Some "joe"])
           0 (mk_Account "joe" "" "" "mail.example.com" 0 MUTT_ACCT_TYPE_IMAP 2)
           (mk_Ui [] [("Username at mail.example.com: ", "jim", 0)])).
  vm_compute. reflexivity.
Defined.

(** X16 (the password of an account).  Every call of
    [mutt_account_getpass] that returns gives 0 or -1, and 0 exactly when
    the account has the password flag afterwards; it never touches the
    host, the port, the type, the user, the login or another flag.  With
    the flag set it changes nothing and asks nothing; a password configured
    for the protocol is taken without asking; otherwise, unless curses is
    off, the user is asked once, without echo, "Password for
    <name>@<host>: " (the login if the account has one, else the user),
    with an empty text to edit; an aborted prompt gives -1 and leaves an
    empty password.  After a success a second call changes nothing and
    asks nothing. *)
Theorem mutt_account_getpass_outcome
    (cfg : Settings) (account : Account) (ui : Ui)
    (r : Z) (account' : Account) (ui' : Ui) :
  mutt_account_getpass cfg account ui = Some ((r, account'), ui') ->
  (r = 0 \/ r = -1) /\
  (r = 0 <-> has_flag MUTT_ACCT_PASS account' = true) /\
  same_place account account' /\
  a_user account' = a_user account /\ a_login account' = a_login account /\
  has_flag MUTT_ACCT_PORT account' = has_flag MUTT_ACCT_PORT account /\
  has_flag MUTT_ACCT_USER account' = has_flag MUTT_ACCT_USER account /\
  has_flag MUTT_ACCT_LOGIN account' = has_flag MUTT_ACCT_LOGIN account /\
  has_flag MUTT_ACCT_SSL account' = has_flag MUTT_ACCT_SSL account /\
  (has_flag MUTT_ACCT_PASS account = true -> account' = account /\ ui' = ui) /\
  (forall pass,
     has_flag MUTT_ACCT_PASS account = false -> configured_pass cfg account = Some pass ->
     r = 0 /\ a_pass account' = mutt_str_strfcpy pass sizeof_pass /\ ui' = ui) /\
  (ui' = ui \/
   (OPT_NO_CURSES cfg = false /\ has_flag MUTT_ACCT_PASS account = false /\
    configured_pass cfg account = None /\
    exists answer,
      ui_answers ui = answer :: ui_answers ui' /\
      ui_prompts ui'
        = ui_prompts ui ++
          [(string_take (Z.to_nat (STRING - 1))
                        ("Password for "
                         +:+ (if has_flag MUTT_ACCT_LOGIN account
                              then a_login account else a_user account)
                         +:+ "@" +:+ a_host account +:+ ": "),
            "", MUTT_PASS)] /\
      match answer with
      | Some s => r = 0 /\ a_pass account' = mutt_str_strfcpy s sizeof_pass
      | None => r = -1 /\ a_pass account' = ""
      end)) /\
  (r = 0 -> forall ui2, mutt_account_getpass cfg account' ui2 = Some ((0, account'), ui2)).
Proof.
  rewrite mutt_account_getpass_run.
  assert (Hagain : forall a ui2,
            has_flag MUTT_ACCT_PASS a = true ->
            mutt_account_getpass cfg a ui2 = Some ((0, a), ui2))
    by (intros a ui2 Ha; rewrite mutt_account_getpass_run, Ha; reflexivity).
  assert (Hset : forall v,
            has_flag MUTT_ACCT_PASS
              (set_a_flags (Z.lor (a_flags account) MUTT_ACCT_PASS) (set_a_pass v account))
            = true)
    by (intros v; flag_bits; reflexivity).
  destruct (has_flag MUTT_ACCT_PASS account) eqn:Hflag.
  { intros H. inversion H; subst r account' ui'; clear H.
    split; [left; reflexivity|]. split; [split; [intros _; exact Hflag | reflexivity]|].
    split; [repeat split|]. repeat (split; [reflexivity|]).
    split; [intros _; split; reflexivity|].
    split; [intros pass Hf; discriminate Hf|].
    split; [left; reflexivity|]. intros _ ui2. apply Hagain, Hflag. }
  destruct (configured_pass cfg account) as [pass|] eqn:Hconf.
  { intros H. inversion H; subst r account' ui'; clear H.
    split; [left; reflexivity|]. split; [split; [intros _; apply Hset | reflexivity]|].
    split; [repeat split|]. do 2 (split; [reflexivity|]).
    do 4 (split; [flag_bits; reflexivity|]).
    split; [intros Hf; discriminate Hf|].
    split; [intros pass' _ Hpass'; inversion Hpass'; subst pass';
            repeat split; reflexivity|].
    split; [left; reflexivity|]. intros _ ui2. apply Hagain, Hset. }
  destruct (OPT_NO_CURSES cfg) eqn:Hcurses.
  { intros H. inversion H; subst r account' ui'; clear H.
    split; [right; reflexivity|].
    split; [split; [intros Hr; discriminate Hr | intros Hf; congruence]|].
    split; [repeat split|]. repeat (split; [reflexivity|]).
    split; [intros Hf; discriminate Hf|].
    split; [intros pass _ Hpass; discriminate Hpass|].
    split; [left; reflexivity|]. intros Hr; discriminate Hr. }
  destruct (ui_answers ui) as [|[s|] rest] eqn:Hanswers; [discriminate| |].
  - cbv zeta. intros H. inversion H; subst r account' ui'; clear H.
    split; [left; reflexivity|]. split; [split; [intros _; apply Hset | reflexivity]|].
    split; [repeat split|]. do 2 (split; [reflexivity|]).
    do 4 (split; [flag_bits; reflexivity|]).
    split; [intros Hf; discriminate Hf|].
    split; [intros pass _ Hpass; discriminate Hpass|].
    split; [|intros _ ui2; apply Hagain, Hset].
    right. repeat (split; [reflexivity|]).
    exists (Some s). repeat split; reflexivity.
  - cbv zeta. intros H. inversion H; subst r account' ui'; clear H.
    split; [right; reflexivity|].
    split; [split; [intros Hr; discriminate Hr
                   | intros Hf; unfold has_flag in *; cbn [a_flags set_a_pass] in Hf;
                     congruence]|].
    split; [repeat split|]. repeat (split; [reflexivity|]).
    split; [intros Hf; discriminate Hf|].
    split; [intros pass _ Hpass; discriminate Hpass|].
    split; [|intros Hr; discriminate Hr].
    right. repeat (split; [reflexivity|]).
    exists None. repeat split; reflexivity.
Qed.

(** The IMAP account of user "joe" on a terminal where the prompt for the
    password is aborted. *)
Lemma mutt_account_getpass_outcome_witness :
  (-1 = 0 \/ -1 = -1) /\
  (-1 = 0 <-> has_flag MUTT_ACCT_PASS
                (mk_Account "joe" "" "" "mail.example.com" 0 MUTT_ACCT_TYPE_IMAP 2) = true) /\
  same_place (mk_Account "joe" "" "old" "mail.example.com" 0 MUTT_ACCT_TYPE_IMAP 2)
             (mk_Account "joe" "" "" "mail.example.com" 0 MUTT_ACCT_TYPE_IMAP 2) /\
  a_user (mk_Account "joe" "" "" "mail.example.com" 0 MUTT_ACCT_TYPE_IMAP 2)
    = a_user (mk_Account "joe" "" "old" "mail.example.com" 0 MUTT_ACCT_TYPE_IMAP 2) /\
  a_login (mk_Account "joe" "" "" "mail.example.com" 0 MUTT_ACCT_TYPE_IMAP 2)
    = a_login (mk_Account "joe" "" "old" "mail.example.com" 0 MUTT_ACCT_TYPE_IMAP 2) /\
  has_flag MUTT_ACCT_PORT (mk_Account "joe" "" "" "mail.example.com" 0 MUTT_ACCT_TYPE_IMAP 2)
    = has_flag MUTT_ACCT_PORT
        (mk_Account "joe" "" "old" "mail.example.com" 0 MUTT_ACCT_TYPE_IMAP 2) /\
  has_flag MUTT_ACCT_USER (mk_Account "joe" "" "" "mail.example.com" 0 MUTT_ACCT_TYPE_IMAP 2)
    = has_flag MUTT_ACCT_USER
        (mk_Account "joe" "" "old" "mail.example.com" 0 MUTT_ACCT_TYPE_IMAP 2) /\
  has_flag MUTT_ACCT_LOGIN (mk_Account "joe" "" "" "mail.example.com" 0 MUTT_ACCT_TYPE_IMAP 2)
    = has_flag MUTT_ACCT_LOGIN
        (mk_Account "joe" "" "old" "mail.example.com" 0 MUTT_ACCT_TYPE_IMAP 2) /\
  has_flag MUTT_ACCT_SSL (mk_Account "joe" "" "" "mail.example.com" 0 MUTT_ACCT_TYPE_IMAP 2)
    = has_flag MUTT_ACCT_SSL
        (mk_Account "joe" "" "old" "mail.example.com" 0 MUTT_ACCT_TYPE_IMAP 2) /\
  (has_flag MUTT_ACCT_PASS
     (mk_Account "joe" "" "old" "mail.example.com" 0 MUTT_ACCT_TYPE_IMAP 2) = true ->
   mk_Account "joe" "" "" "mail.example.com" 0 MUTT_ACCT_TYPE_IMAP 2
     = mk_Account "joe" "" "old" "mail.example.com" 0 MUTT_ACCT_TYPE_IMAP 2 /\
   mk_Ui [] [("Password for joe@mail.example.com: ", "", MUTT_PASS)] = ui_start [None]) /\
  (forall pass,
     has_flag MUTT_ACCT_PASS
       (mk_Account "joe" "" "old" "mail.example.com" 0 MUTT_ACCT_TYPE_IMAP 2) = false ->
     configured_pass settings_plain
       (mk_Account "joe" "" "old" "mail.example.com" 0 MUTT_ACCT_TYPE_IMAP 2) = Some pass ->
     -1 = 0 /\
     a_pass (mk_Account "joe" "" "" "mail.example.com" 0 MUTT_ACCT_TYPE_IMAP 2)
       = mutt_str_strfcpy pass sizeof_pass /\
     mk_Ui [] [("Password for joe@mail.example.com: ", "", MUTT_PASS)] = ui_start [None]) /\
  (mk_Ui [] [("Password for joe@mail.example.com: ", "", MUTT_PASS)] = ui_start [None] \/
   (OPT_NO_CURSES settings_plain = false /\
    has_flag MUTT_ACCT_PASS
      (mk_Account "joe" "" "old" "mail.example.com" 0 MUTT_ACCT_TYPE_IMAP 2) = false /\
    configured_pass settings_plain
      (mk_Account "joe" "" "old" "mail.example.com" 0 MUTT_ACCT_TYPE_IMAP 2) = None /\
    exists answer,
      ui_answers (ui_start [None])
        = answer
          :: ui_answers (mk_Ui [] [("Password for joe@mail.example.com: ", "", MUTT_PASS)]) /\
      ui_prompts (mk_Ui [] [("Password for joe@mail.example.com: ", "", MUTT_PASS)])
        = ui_prompts (ui_start [None]) ++
          [(string_take (Z.to_nat (STRING - 1))
              ("Password for "
               +:+ (if has_flag MUTT_ACCT_LOGIN
                         (mk_Account "joe" "" "old" "mail.example.com" 0
                                     MUTT_ACCT_TYPE_IMAP 2)
                    then a_login (mk_Account "joe" "" "old" "mail.example.com" 0
                                             MUTT_ACCT_TYPE_IMAP 2)
                    else a_user (mk_Account "joe" "" "old" "mail.example.com" 0
                                            MUTT_ACCT_TYPE_IMAP 2))
               +:+ "@"
               +:+ a_host (mk_Account "joe" "" "old" "mail.example.com" 0
                                      MUTT_ACCT_TYPE_IMAP 2)
               +:+ ": "),
            "", MUTT_PASS)] /\
      match answer with
      | Some s =>
          -1 = 0 /\
          a_pass (mk_Account "joe" "" "" "mail.example.com" 0 MUTT_ACCT_TYPE_IMAP 2)
            = mutt_str_strfcpy s sizeof_pass
      | None =>
          -1 = -1 /\
          a_pass (mk_Account "joe" "" "" "mail.example.com" 0 MUTT_ACCT_TYPE_IMAP 2) = ""
      end)) /\
  (-1 = 0 ->
   forall ui2,
     mutt_account_getpass settings_plain
       (mk_Account "joe" "" "" "mail.example.com" 0 MUTT_ACCT_TYPE_IMAP 2) ui2
       = Some ((0, mk_Account "joe" "" "" "mail.example.com" 0 MUTT_ACCT_TYPE_IMAP 2), ui2)).
Proof.
  apply (mutt_account_getpass_outcome
           settings_plain
           (mk_Account "joe" "" "old" "mail.example.com" 0 MUTT_ACCT_TYPE_IMAP 2)
           (ui_start [None])
           (-1) (mk_Account "joe" "" "" "mail.example.com" 0 MUTT_ACCT_TYPE_IMAP 2)
           (mk_Ui [] [("Password for joe@mail.example.com: ", "", MUTT_PASS)])).
  vm_compute. reflexivity.
Defined.

(** X17 (forgetting the password).  [mutt_account_unsetpass] clears the
    password flag and nothing else: the other flags and every string of the
    account, the text of the password among them, stay as they are, and a
    second call changes nothing more.  The password left in the account is
    not used again: the next [mutt_account_getpass] that succeeds stores
    the password configured for the protocol or the one the user enters at
    a prompt that offers an empty text. *)
Theorem mutt_account_unsetpass_forgets (cfg : Settings) (account : Account) (ui : Ui) :
  has_flag MUTT_ACCT_PASS (mutt_account_unsetpass account) = false /\
  has_flag MUTT_ACCT_PORT (mutt_account_unsetpass account)
    = has_flag MUTT_ACCT_PORT account /\
  has_flag MUTT_ACCT_USER (mutt_account_unsetpass account)
    = has_flag MUTT_ACCT_USER account /\
  has_flag MUTT_ACCT_LOGIN (mutt_account_unsetpass account)
    = has_flag MUTT_ACCT_LOGIN account /\
  has_flag MUTT_ACCT_SSL (mutt_account_unsetpass account)
    = has_flag MUTT_ACCT_SSL account /\
  set_a_flags (a_flags account) (mutt_account_unsetpass account) = account /\
  mutt_account_unsetpass (mutt_account_unsetpass account) = mutt_account_unsetpass account /\
  (forall account' ui',
     mutt_account_getpass cfg (mutt_account_unsetpass account) ui
       = Some ((0, account'), ui') ->
     (exists pass,
        configured_pass cfg account = Some pass /\ ui' = ui /\
        a_pass account' = mutt_str_strfcpy pass sizeof_pass) \/
     (exists s prompt,
        configured_pass cfg account = None /\
        ui_answers ui = Some s :: ui_answers ui' /\
        ui_prompts ui' = ui_prompts ui ++ [(prompt, "", MUTT_PASS)] /\
        a_pass account' = mutt_str_strfcpy s sizeof_pass)).
Proof.
  assert (Hclear : has_flag MUTT_ACCT_PASS (mutt_account_unsetpass account) = false)
    by (unfold mutt_account_unsetpass; flag_bits; reflexivity).
  split; [exact Hclear|].
  do 4 (split; [unfold mutt_account_unsetpass; flag_bits; reflexivity|]).
  split; [destruct account; reflexivity|].
  split.
  { unfold mutt_account_unsetpass, set_a_flags.
    cbn [a_flags a_user a_login a_pass a_host a_port a_type].
    f_equal. rewrite <- Z.land_assoc, Z.land_diag. reflexivity. }
  intros account' ui'. rewrite mutt_account_getpass_run, Hclear.
  change (configured_pass cfg (mutt_account_unsetpass account))
    with (configured_pass cfg account).
  destruct (configured_pass cfg account) as [pass|].
  - intros H. inversion H; subst. left. exists pass. repeat split; reflexivity.
  - destruct (OPT_NO_CURSES cfg); [discriminate|].
    destruct (ui_answers ui) as [|[s|] rest]; [discriminate| |discriminate].
    cbv zeta. intros H. inversion H; subst. right.
    eexists s, _. repeat split; reflexivity.
Qed.

(** ** The login, and the line in the log *)

Section Login.

Implicit Types (cfg : Settings) (account : Account) (ui : Ui) (e : Env).

(** What [mutt_account_getuser] leaves alone. *)
Lemma mutt_account_getuser_frame cfg account ui r account' ui' :
  mutt_account_getuser cfg account ui = Some ((r, account'), ui') ->
  same_place account account' /\ a_login account' = a_login account /\
  a_pass account' = a_pass account /\
  has_flag MUTT_ACCT_LOGIN account' = has_flag MUTT_ACCT_LOGIN account /\
  has_flag MUTT_ACCT_PASS account' = has_flag MUTT_ACCT_PASS account /\
  has_flag MUTT_ACCT_PORT account' = has_flag MUTT_ACCT_PORT account /\
  has_flag MUTT_ACCT_SSL account' = has_flag MUTT_ACCT_SSL account.
Proof.
  rewrite mutt_account_getuser_run.
  destruct (has_flag MUTT_ACCT_USER account);
    [|destruct (configured_user cfg account);
      [|destruct (OPT_NO_CURSES cfg);
        [|destruct (ui_answers ui) as [|[s|] rest]; [discriminate| |]]]];
    cbv zeta; intros H; inversion H; subst;
    (split; [repeat split|]); do 2 (split; [reflexivity|]);
    repeat split; flag_bits; reflexivity.
Qed.

(** [mutt_account_getlogin], case by case. *)
Lemma mutt_account_getlogin_run cfg (logger : log_dispatcher_t) account ui e :
  mutt_account_getlogin cfg logger account (ui, e) =
    if has_flag MUTT_ACCT_LOGIN account then Some ((0, account), (ui, e))
    else
      match (if USE_IMAP cfg && (a_type account =? MUTT_ACCT_TYPE_IMAP)
             then ImapLogin cfg else None) with
      | Some login =>
          Some ((0, set_a_flags (Z.lor (a_flags account) MUTT_ACCT_LOGIN)
                      (set_a_login (mutt_str_strfcpy login sizeof_login) account)),
                (ui, e))
      | None =>
          match mutt_account_getuser cfg account ui with
          | None => None
          | Some ((r, account1), ui1) =>
              if r =? 0
              then Some ((0, set_a_flags (Z.lor (a_flags account1) MUTT_ACCT_LOGIN)
                               (set_a_login (mutt_str_strfcpy (a_user account1) sizeof_login)
                                            account1)),
                         (ui1, e))
              else
                match logger 0 (Some "mutt_account.c") 256 (Some "mutt_account_getlogin") 1
                             ("Couldn't get user info" +:+ nl) [] e with
                | Some (_, e') => Some ((-1, account1), (ui1, e'))
                | None => None
                end
          end
      end.
Proof.
  unfold mutt_account_getlogin.
  change (truthy (Z.land (a_flags account) MUTT_ACCT_LOGIN))
    with (has_flag MUTT_ACCT_LOGIN account).
  destruct (has_flag MUTT_ACCT_LOGIN account) eqn:Hflag; [reflexivity|].
  assert (Hrest :
    (if negb (truthy (Z.land (a_flags account) MUTT_ACCT_LOGIN))
     then
       p <- with_ui (mutt_account_getuser cfg account) ;;
       (if fst p =? 0
        then
          ret (0, set_a_flags (Z.lor (a_flags (snd p)) MUTT_ACCT_LOGIN)
                    (set_a_login (mutt_str_strfcpy (a_user (snd p)) sizeof_login) (snd p)))
        else
          with_env (mutt_debug logger "mutt_account.c" 256 "mutt_account_getlogin" 1
                               ("Couldn't get user info" +:+ nl) []) ;;;
          ret (-1, snd p))
     else ret (0, account)) (ui, e)
    = match mutt_account_getuser cfg account ui with
      | None => None
      | Some ((r, account1), ui1) =>
          if r =? 0
          then Some ((0, set_a_flags (Z.lor (a_flags account1) MUTT_ACCT_LOGIN)
                           (set_a_login (mutt_str_strfcpy (a_user account1) sizeof_login)
                                        account1)),
                     (ui1, e))
          else
            match logger 0 (Some "mutt_account.c") 256 (Some "mutt_account_getlogin") 1
                         ("Couldn't get user info" +:+ nl) [] e with
            | Some (_, e') => Some ((-1, account1), (ui1, e'))
            | None => None
            end
      end).
  { change (truthy (Z.land (a_flags account) MUTT_ACCT_LOGIN))
      with (has_flag MUTT_ACCT_LOGIN account).
    rewrite Hflag. cbn [negb]. unfold bind, with_ui, with_env, mutt_debug, ret.
    cbn [fst snd].
    destruct (mutt_account_getuser cfg account ui) as [[[r account1] ui1]|]; [|reflexivity].
    cbn [fst snd]. destruct (r =? 0); [reflexivity|]. cbn [fst snd].
    destruct (logger 0 _ 256 _ 1 _ [] e) as [[n e']|]; reflexivity. }
  destruct (USE_IMAP cfg && (a_type account =? MUTT_ACCT_TYPE_IMAP));
    [destruct (ImapLogin cfg) as [login|]|]; try exact Hrest.
  replace (truthy (Z.land (a_flags (set_a_flags (Z.lor (a_flags account) MUTT_ACCT_LOGIN)
                                      (set_a_login (mutt_str_strfcpy login sizeof_login)
                                                   account)))
                          MUTT_ACCT_LOGIN))
    with true by (symmetry; flag_bits; reflexivity).
  reflexivity.
Qed.

Lemma mutt_account_getuser_success cfg account ui account' ui' :
  mutt_account_getuser cfg account ui = Some ((0, account'), ui') ->
  has_flag MUTT_ACCT_USER account' = true.
Proof.
  rewrite mutt_account_getuser_run.
  destruct (has_flag MUTT_ACCT_USER account) eqn:Hflag;
    [|destruct (configured_user cfg account);
      [|destruct (OPT_NO_CURSES cfg);
        [|destruct (ui_answers ui) as [|[s|] rest]; [discriminate| |]]]];
    cbv zeta; intros H; inversion H; subst; try exact Hflag;
    flag_bits; reflexivity.
Qed.

End Login.

(** X18 (the login of an account).  Every call of
    [mutt_account_getlogin] that returns gives 0 or -1, and 0 exactly when
    the account has the login flag afterwards; it never touches the host,
    the port, the type, the password or their flags.  With the flag set it
    changes nothing, asks nothing and logs nothing.  A success never calls
    the logger: the login is the one configured for IMAP, taken without
    asking for a user, or else a copy of the user name that
    [mutt_account_getuser] has just provided.  A failure is a failure of
    [mutt_account_getuser], and the one thing done after it is a call of
    the logger at level 1 with "Couldn't get user info".  After a success a
    second call changes nothing. *)
Theorem mutt_account_getlogin_outcome
    (cfg : Settings) (logger : log_dispatcher_t) (account : Account) (ui : Ui) (e : Env)
    (r : Z) (account' : Account) (ui' : Ui) (e' : Env) :
  mutt_account_getlogin cfg logger account (ui, e) = Some ((r, account'), (ui', e')) ->
  (r = 0 \/ r = -1) /\
  (r = 0 <-> has_flag MUTT_ACCT_LOGIN account' = true) /\
  same_place account account' /\ a_pass account' = a_pass account /\
  has_flag MUTT_ACCT_PASS account' = has_flag MUTT_ACCT_PASS account /\
  has_flag MUTT_ACCT_PORT account' = has_flag MUTT_ACCT_PORT account /\
  has_flag MUTT_ACCT_SSL account' = has_flag MUTT_ACCT_SSL account /\
  (has_flag MUTT_ACCT_LOGIN account = true -> account' = account /\ ui' = ui /\ e' = e) /\
  (r = 0 -> e' = e) /\
  (r = 0 -> has_flag MUTT_ACCT_LOGIN account = false ->
   (exists login,
      USE_IMAP cfg = true /\ a_type account = MUTT_ACCT_TYPE_IMAP /\
      ImapLogin cfg = Some login /\
      a_login account' = mutt_str_strfcpy login sizeof_login /\
      a_user account' = a_user account /\ ui' = ui) \/
   (a_login account' = mutt_str_strfcpy (a_user account') sizeof_login /\
    has_flag MUTT_ACCT_USER account' = true)) /\
  (r = -1 ->
   exists r1 n,
     r1 <> 0 /\ mutt_account_getuser cfg account ui = Some ((r1, account'), ui') /\
     logger 0 (Some "mutt_account.c") 256 (Some "mutt_account_getlogin") 1
            ("Couldn't get user info" +:+ nl) [] e = Some (n, e')) /\
  (r = 0 ->
   forall (logger2 : log_dispatcher_t) (s2 : Session),
     mutt_account_getlogin cfg logger2 account' s2 = Some ((0, account'), s2)).
Proof.
  rewrite mutt_account_getlogin_run.
  assert (Hagain : forall a (logger2 : log_dispatcher_t) (s2 : Session),
            has_flag MUTT_ACCT_LOGIN a = true ->
            mutt_account_getlogin cfg logger2 a s2 = Some ((0, a), s2)).
  { intros a logger2 [ui2 e2] Ha. rewrite mutt_account_getlogin_run, Ha. reflexivity. }
  assert (Hset : forall v a,
            has_flag MUTT_ACCT_LOGIN
              (set_a_flags (Z.lor (a_flags a) MUTT_ACCT_LOGIN) (set_a_login v a)) = true)
    by (intros v a; flag_bits; reflexivity).
  destruct (has_flag MUTT_ACCT_LOGIN account) eqn:Hflag.
  { intros H. inversion H; subst r account' ui' e'; clear H.
    split; [left; reflexivity|]. split; [split; [intros _; exact Hflag | reflexivity]|].
    split; [repeat split|]. do 4 (split; [reflexivity|]).
    split; [intros _; repeat split; reflexivity|].
    split; [reflexivity|].
    split; [intros _ Hf; discriminate Hf|].
    split; [intros Hr; discriminate Hr|].
    intros _ logger2 s2. apply Hagain, Hflag. }
  destruct (if USE_IMAP cfg && (a_type account =? MUTT_ACCT_TYPE_IMAP)
            then ImapLogin cfg else None) as [login|] eqn:Himap.
  { intros H. inversion H; subst r account' ui' e'; clear H.
    split; [left; reflexivity|]. split; [split; [intros _; apply Hset | reflexivity]|].
    split; [repeat split|]. split; [reflexivity|].
    do 3 (split; [flag_bits; reflexivity|]).
    split; [intros Hf; discriminate Hf|].
    split; [reflexivity|].
    split; [|split; [intros Hr; discriminate Hr | intros _ logger2 s2; apply Hagain, Hset]].
    intros _ _. left. exists login.
    destruct (USE_IMAP cfg) eqn:Huse; [|discriminate Himap].
    destruct (a_type account =? MUTT_ACCT_TYPE_IMAP) eqn:Htype; [|discriminate Himap].
    apply Z.eqb_eq in Htype. simpl in Himap. repeat split; auto. }
  destruct (mutt_account_getuser cfg account ui) as [[[r1 account1] ui1]|] eqn:Huser;
    [|discriminate].
  destruct (mutt_account_getuser_frame _ _ _ _ _ _ Huser)
    as (Hplace & Hlogin & Hpass & Hfl & Hfp & Hfport & Hfssl).
  destruct (r1 =? 0) eqn:Hr1.
  - apply Z.eqb_eq in Hr1. subst r1.
    intros H. inversion H; subst r account' ui' e'; clear H.
    split; [left; reflexivity|]. split; [split; [intros _; apply Hset | reflexivity]|].
    split; [exact Hplace|]. split; [exact Hpass|].
    split; [rewrite <- Hfp; flag_bits; reflexivity|].
    split; [rewrite <- Hfport; flag_bits; reflexivity|].
    split; [rewrite <- Hfssl; flag_bits; reflexivity|].
    split; [intros Hf; discriminate Hf|].
    split; [reflexivity|].
    split; [|split; [intros Hr; discriminate Hr | intros _ logger2 s2; apply Hagain, Hset]].
    intros _ _. right. split; [reflexivity|].
    pose proof (mutt_account_getuser_success _ _ _ _ _ Huser) as Huserflag.
    rewrite <- Huserflag. flag_bits. reflexivity.
  - apply Z.eqb_neq in Hr1.
    destruct (logger 0 _ 256 _ 1 _ [] e) as [[n e1]|] eqn:Hlog; [|discriminate].
    intros H. inversion H; subst r account' ui' e'; clear H.
    split; [right; reflexivity|].
    split; [split; [intros Hr; discriminate Hr | intros Hf; congruence]|].
    split; [exact Hplace|]. split; [exact Hpass|].
    split; [exact Hfp|]. split; [exact Hfport|]. split; [exact Hfssl|].
    split; [intros Hf; discriminate Hf|].
    split; [intros Hr; discriminate Hr|].
    split; [intros Hr; discriminate Hr|].
    split; [|intros Hr; discriminate Hr].
    intros _. exists r1, n. auto.
Qed.

(** In batch mode nobody can be asked: the login of the IMAP account fails,
    and the stderr dispatcher, at threshold 0, drops the debug line. *)
Lemma mutt_account_getlogin_outcome_witness :
  (-1 = 0 \/ -1 = -1) /\
  (-1 = 0 <-> has_flag MUTT_ACCT_LOGIN account_imap = true) /\
  same_place account_imap account_imap /\ a_pass account_imap = a_pass account_imap /\
  has_flag MUTT_ACCT_PASS account_imap = has_flag MUTT_ACCT_PASS account_imap /\
  has_flag MUTT_ACCT_PORT account_imap = has_flag MUTT_ACCT_PORT account_imap /\
  has_flag MUTT_ACCT_SSL account_imap = has_flag MUTT_ACCT_SSL account_imap /\
  (has_flag MUTT_ACCT_LOGIN account_imap = true ->
   account_imap = account_imap /\ ui_start [] = ui_start [] /\ env_start = env_start) /\
  (-1 = 0 -> env_start = env_start) /\
  (-1 = 0 -> has_flag MUTT_ACCT_LOGIN account_imap = false ->
   (exists login,
      USE_IMAP settings_batch = true /\ a_type account_imap = MUTT_ACCT_TYPE_IMAP /\
      ImapLogin settings_batch = Some login /\
      a_login account_imap = mutt_str_strfcpy login sizeof_login /\
      a_user account_imap = a_user account_imap /\ ui_start [] = ui_start []) \/
   (a_login account_imap = mutt_str_strfcpy (a_user account_imap) sizeof_login /\
    has_flag MUTT_ACCT_USER account_imap = true)) /\
  (-1 = -1 ->
   exists r1 n,
     r1 <> 0 /\
     mutt_account_getuser settings_batch account_imap (ui_start [])
       = Some ((r1, account_imap), ui_start []) /\
     MuttLogger 0 (Some "mutt_account.c") 256 (Some "mutt_account_getlogin") 1
                ("Couldn't get user info" +:+ nl) [] env_start = Some (n, env_start)) /\
  (-1 = 0 ->
   forall (logger2 : log_dispatcher_t) (s2 : Session),
     mutt_account_getlogin settings_batch logger2 account_imap s2
       = Some ((0, account_imap), s2)).
Proof.
  apply (mutt_account_getlogin_outcome
           settings_batch MuttLogger account_imap (ui_start []) env_start
           (-1) account_imap (ui_start []) env_start).
  vm_compute. reflexivity.
Defined.

(** X19 (the failed login in the log file).  When the account has no login,
    none is configured for it and [mutt_account_getuser] fails, a login
    through the file dispatcher returns -1 with the account as
    [mutt_account_getuser] left it, and with an open log file that takes the
    writes: below threshold 1 nothing is written; from threshold 1 on the
    file gets "[time]<1> mutt_account_getlogin() Couldn't get user info"
    with the current time and the newline of the message itself, and
    [errno] is left alone. *)
Theorem mutt_account_getlogin_failure_logged
    (cfg : Settings) (account : Account) (ui : Ui)
    (r1 : Z) (account1 : Account) (ui1 : Ui) (e : Env) (f : nat) :
  has_flag MUTT_ACCT_LOGIN account = false ->
  (USE_IMAP cfg && (a_type account =? MUTT_ACCT_TYPE_IMAP) = true -> ImapLogin cfg = None) ->
  mutt_account_getuser cfg account ui = Some ((r1, account1), ui1) -> r1 <> 0 ->
  LogFileFP e = Some f -> writable f e -> ts_ready e ->
  exists e',
    mutt_account_getlogin cfg log_disp_file account (ui, e)
      = Some ((-1, account1), (ui1, e')) /\
    has_flag MUTT_ACCT_LOGIN account1 = false /\
    (LogFileLevel e < 1 -> e' = e) /\
    (1 <= LogFileLevel e ->
     written f e'
       = written f e
         +:+ file_prefix (timestamp_text (now e)) "1" (Some "mutt_account_getlogin")
         +:+ "Couldn't get user info" +:+ nl /\
     errno e' = errno e /\ same_globals e e').
Proof.
  intros Hflag Himap Huser Hr1 Hfp Hw Hts.
  destruct (mutt_account_getuser_frame _ _ _ _ _ _ Huser) as (_ & _ & _ & Hfl & _).
  rewrite mutt_account_getlogin_run, Hflag, Huser.
  replace (if USE_IMAP cfg && (a_type account =? MUTT_ACCT_TYPE_IMAP)
           then ImapLogin cfg else None) with (@None string)
    by (destruct (USE_IMAP cfg && (a_type account =? MUTT_ACCT_TYPE_IMAP));
        [symmetry; apply Himap|]; reflexivity).
  replace (r1 =? 0) with false by (symmetry; apply Z.eqb_neq; exact Hr1).
  destruct (Z_lt_le_dec (LogFileLevel e) 1) as [Hlow | Hhigh].
  - rewrite log_disp_file_filtered by (right; right; lia).
    exists e. split; [reflexivity|]. split; [congruence|].
    split; [reflexivity|]. intros H. lia.
  - assert (Hwp : wp (log_disp_file 0 (Some "mutt_account.c") 256
                                    (Some "mutt_account_getlogin") 1
                                    ("Couldn't get user info" +:+ nl) [])
                     (fun _ e' =>
                        written f e'
                          = written f e
                            +:+ file_prefix (timestamp_text (now e)) "1"
                                            (Some "mutt_account_getlogin")
                            +:+ "Couldn't get user info" +:+ nl /\
                        errno e' = errno e /\ same_globals e e') e).
    { eapply (log_disp_file_exact_wp _ _ _ _ _ _ _ ("Couldn't get user info" +:+ nl) f "1");
        [exact Hfp | exact Hw | unfold LL_PERROR; lia | reflexivity | reflexivity
        | apply ts_ready_effective, Hts |].
      intros e' Hg Herr _ _ _ Hwritten _.
      split; [|split; assumption].
      rewrite Hwritten. change (file_suffix 1 (errno e)) with "".
      change (effective_time 0 e) with (now e).
      rewrite ?append_assoc, ?append_nil_r. reflexivity. }
    apply wp_elim in Hwp. destruct Hwp as (n & e' & Hrun & Hpost).
    rewrite Hrun. exists e'. split; [reflexivity|]. split; [congruence|].
    split; [intros H; lia | intros _; exact Hpost].
Qed.

(** Batch mode, with the log file open at threshold 1. *)
Lemma mutt_account_getlogin_failure_logged_witness :
  exists e',
    mutt_account_getlogin settings_batch log_disp_file account_imap
                          (ui_start [], env_logging 1)
      = Some ((-1, account_imap), (ui_start [], e')) /\
    has_flag MUTT_ACCT_LOGIN account_imap = false /\
    (LogFileLevel (env_logging 1) < 1 -> e' = env_logging 1) /\
    (1 <= LogFileLevel (env_logging 1) ->
     written 1 e'
       = written 1 (env_logging 1)
         +:+ file_prefix (timestamp_text (now (env_logging 1))) "1"
                         (Some "mutt_account_getlogin")
         +:+ "Couldn't get user info" +:+ nl /\
     errno e' = errno (env_logging 1) /\ same_globals (env_logging 1) e').
Proof.
  apply (mutt_account_getlogin_failure_logged
           settings_batch account_imap (ui_start []) (-1) account_imap (ui_start [])
           (env_logging 1) 1).
  - reflexivity.
  - intros _. reflexivity.
  - reflexivity.
  - discriminate.
  - reflexivity.
  - eexists. split; [reflexivity|]. split; reflexivity.
  - right. split; [reflexivity|]. vm_compute. discriminate.
Defined.

(** The line of that login in the log file. *)
Example mutt_account_getlogin_failure_run :
  exists e',
    mutt_account_getlogin settings_batch log_disp_file account_imap
                          (ui_start [], env_logging 1)
      = Some ((-1, account_imap), (ui_start [], e')) /\
    written 1 e'
      = "[2018-01-01 12:00:00]<1> mutt_account_getlogin() Couldn't get user info" +:+ nl.
Proof. eexists. split; [vm_compute; reflexivity | reflexivity]. Qed.

(** ** Matching accounts *)

Section Match.

Implicit Types (cfg : Settings) (a : Account) (s t : string).

Lemma strcmp_eq s t : strcmp s t = 0 <-> s = t.
Proof.
  unfold strcmp. split.
  - intros H. destruct (s ?= t)%string eqn:Hcmp; try lia.
    apply String.compare_eq_iff, Hcmp.
  - intros ->. pose proof (String.compare_antisym t t) as Hanti.
    destruct (t ?= t)%string; simpl in Hanti; first [reflexivity | discriminate].
Qed.

Lemma strcmp_zero_sym s t : (strcmp s t =? 0) = (strcmp t s =? 0).
Proof.
  destruct (Z.eqb_spec (strcmp s t) 0) as [H|H];
    destruct (Z.eqb_spec (strcmp t s) 0) as [H'|H']; try reflexivity;
    rewrite strcmp_eq in *; congruence.
Qed.

Lemma strcmp_zero_refl s : (strcmp s s =? 0) = true.
Proof. apply Z.eqb_eq, strcmp_eq. reflexivity. Qed.

(** Both accounts have the user flag. *)
Lemma truthy_land_both (f1 f2 k : Z) :
  0 <= k ->
  truthy (Z.land (Z.land f1 f2) (2 ^ k))
    = truthy (Z.land f1 (2 ^ k)) && truthy (Z.land f2 (2 ^ k)).
Proof.
  intros Hk. rewrite !truthy_land_pow2 by exact Hk. apply Z.land_spec.
Qed.

End Match.

(** X20 (matching accounts).  [mutt_account_match] returns 1 or 0, and 1
    for an account compared with itself.  Two accounts that match have the
    same type, the same port and the same host up to the case of its
    letters, and, when both have a user, the same user; the login, the
    password and the other flags play no part.  Outside NNTP the order of
    the two accounts does not matter. *)
Theorem mutt_account_match_relation (cfg : Settings) :
  (forall a1 a2, mutt_account_match cfg a1 a2 = 0 \/ mutt_account_match cfg a1 a2 = 1) /\
  (forall a, mutt_account_match cfg a a = 1) /\
  (forall a1 a2,
     mutt_account_match cfg a1 a2 = 1 ->
     a_type a1 = a_type a2 /\ a_port a1 = a_port a2 /\
     string_tolower (a_host a1) = string_tolower (a_host a2) /\
     (has_flag MUTT_ACCT_USER a1 = true -> has_flag MUTT_ACCT_USER a2 = true ->
      a_user a1 = a_user a2)) /\
  (forall a1 a2 login1 pass1 login2 pass2,
     mutt_account_match cfg (set_a_login login1 (set_a_pass pass1 a1))
                            (set_a_login login2 (set_a_pass pass2 a2))
       = mutt_account_match cfg a1 a2) /\
  (forall a1 a2,
     USE_NNTP cfg && (a_type a1 =? MUTT_ACCT_TYPE_NNTP) = false ->
     mutt_account_match cfg a1 a2 = mutt_account_match cfg a2 a1).
Proof.
  split; [|split; [|split; [|split]]].
  - intros a1 a2. unfold mutt_account_match, int_of_bool.
    repeat match goal with
           | |- context [if ?c then _ else _] => destruct c
           end; auto.
  - intros a. unfold mutt_account_match, mutt_str_strcasecmp, strcasecmp.
    rewrite !Z.eqb_refl, strcmp_zero_refl. cbn [negb].
    unfold MUTT_ACCT_USER. rewrite truthy_land_both by lia.
    destruct (truthy (Z.land (a_flags a) (2 ^ 1))) eqn:Hflag; cbn [andb].
    + rewrite strcmp_zero_refl. reflexivity.
    + destruct (USE_NNTP cfg && (a_type a =? MUTT_ACCT_TYPE_NNTP)); reflexivity.
  - intros a1 a2. unfold mutt_account_match, mutt_str_strcasecmp, strcasecmp.
    destruct (Z.eqb_spec (a_type a1) (a_type a2)) as [Htype|]; [|discriminate].
    cbn [negb NONULL].
    destruct (Z.eqb_spec (strcmp (string_tolower (a_host a1))
                                 (string_tolower (a_host a2))) 0) as [Hhost|];
      [|discriminate].
    apply strcmp_eq in Hhost. cbn [negb].
    destruct (Z.eqb_spec (a_port a1) (a_port a2)) as [Hport|]; [|discriminate].
    cbn [negb]. intros Hmatch.
    split; [exact Htype|]. split; [exact Hport|]. split; [exact Hhost|].
    intros H1 H2. unfold has_flag, MUTT_ACCT_USER in *.
    rewrite truthy_land_both, H1, H2 in Hmatch by lia. cbn [andb] in Hmatch.
    destruct (Z.eqb_spec (strcmp (a_user a1) (a_user a2)) 0) as [Huser|];
      [apply strcmp_eq, Huser | discriminate].
  - intros a1 a2 login1 pass1 login2 pass2. reflexivity.
  - intros a1 a2 Hnntp. unfold mutt_account_match, mutt_str_strcasecmp, strcasecmp.
    rewrite (Z.eqb_sym (a_type a2)), (Z.eqb_sym (a_port a2)).
    rewrite (strcmp_zero_sym (string_tolower (NONULL (Some (a_host a2))))).
    destruct (Z.eqb_spec (a_type a1) (a_type a2)) as [Htype|]; [|reflexivity].
    cbn [negb].
    destruct (strcmp _ _ =? 0); [|reflexivity]. cbn [negb].
    destruct (a_port a1 =? a_port a2); [|reflexivity]. cbn [negb].
    rewrite <- Htype, Hnntp.
    unfold MUTT_ACCT_USER. rewrite !truthy_land_both by lia.
    destruct (truthy (Z.land (a_flags a1) (2 ^ 1)));
      destruct (truthy (Z.land (a_flags a2) (2 ^ 1))); cbn [andb]; try reflexivity.
    rewrite (strcmp_zero_sym (a_user a2)). reflexivity.
Qed.

(** With NNTP the order matters: a named account matches an anonymous
    one, an anonymous one does not match a named one. *)
Example mutt_account_match_nntp_order :
  mutt_account_match settings_plain
    (mk_Account "" "" "" "news.example.com" 119 MUTT_ACCT_TYPE_NNTP 0)
    (mk_Account "joe" "" "" "news.example.com" 119 MUTT_ACCT_TYPE_NNTP 2) = 1 /\
  mutt_account_match settings_plain
    (mk_Account "joe" "" "" "news.example.com" 119 MUTT_ACCT_TYPE_NNTP 2)
    (mk_Account "" "" "" "news.example.com" 119 MUTT_ACCT_TYPE_NNTP 0) = 0.
Proof. split; reflexivity. Qed.

(** The host is compared without regard to case, the user is not. *)
Example mutt_account_match_case :
  mutt_account_match settings_plain
    (mk_Account "joe" "" "" "Mail.Example.COM" 0 MUTT_ACCT_TYPE_IMAP 2)
    (mk_Account "joe" "" "" "mail.example.com" 0 MUTT_ACCT_TYPE_IMAP 2) = 1 /\
  mutt_account_match settings_plain
    (mk_Account "Joe" "" "" "mail.example.com" 0 MUTT_ACCT_TYPE_IMAP 2)
    (mk_Account "joe" "" "" "mail.example.com" 0 MUTT_ACCT_TYPE_IMAP 2) = 0.
Proof. split; reflexivity. Qed.

(** * A log file whose writes fail *)


